(** * Match allocator and fleet controller: a shallow embedding

    This development embeds [src/match-allocator.js] (the allocator
    process: VM registry, launch, status probe, allocation, reconciler
    tick and the two HTTP handlers) as executable Rocq functions and
    proves properties of them.

    Conventions of the embedding.
    - JavaScript numbers are IEEE doubles; finite ones are modelled by
      the rationals they denote ([Q]). Timestamps returned by [Date.now()]
      are integers, and [unreachableCount] starts at 0 and changes only by
      a reset or by one per failed probe: both stay far below 2^53, where
      the arithmetic of doubles is exact on integers, and are modelled by
      [Z]. [matchCount] holds whatever number a worker reported; the
      increment [matchCount++] and the arithmetic of the port picker are
      operations on doubles and round to binary64 ([round64]).
    - [vmPool] is a JS object used as an insertion-ordered dictionary. It is
      an association list, in insertion order, because [Object.keys],
      [Object.entries] and the stable [Array.prototype.sort] observe that
      order. Instance identifiers are assigned by the cloud ([ins-...]);
      they are never the name of an [Object.prototype] member, so [vmPool[id]]
      is an own-property lookup.
    - [matches] is a JS object used as a dictionary whose order is never
      observed: a [gmap]. Lookups of names inherited from [Object.prototype]
      are not modelled for it.
    - [SCENE_MAP[gameMode]] is the validation of a string that comes straight
      from the client, so that lookup is modelled with the prototype
      chain.
    - The cloud provider, the worker agents and the clock are the
      environment. Every [await] of the source receives its answer from an
      explicit environment record; an [await] whose continuation reads the
      time sets the model clock to the instant the answer arrives, and
      [nowMs()] reads that clock.
    - The probes that [getAvailableVM] starts with [Promise.all] run
      concurrently: their continuations run in the order in which the
      answers arrive, and a VM that a failed probe terminates is removed
      from the registry only when [TerminateInstances] has returned, which
      may be after other probes have been answered.
    - The definitions of the section [Allocator] describe one operation
      (one request, one reconciler tick) during whose [await]s no other
      operation runs. The reconciler is started by [setInterval] with no
      guard against re-entry and requests arrive at any time, so other
      operations do run during an [await]. The module [Interleaved] gives
      [launchBackupVM], the scale-up step of the tick and the part of the
      request handler that follows the allocation with, at every [await],
      an arbitrary change of the state by the operations that ran
      meanwhile; the statements about the ceiling of the registry and
      about the increment of [matchCount] are made there.
    - Calls that change the cloud ([RunInstances], [TerminateInstances]) are
      recorded in a log, each with the program state at the instant of the
      call. *)

From Stdlib Require Import ZArith QArith Qminmax Qround Qpower Qabs List Sorted Permutation.
From Stdlib Require Import String Bool Lia Lqa.
From stdpp Require Import gmap strings.
Import ListNotations.

Local Open Scope string_scope.
Local Open Scope list_scope.
Local Open Scope Z_scope.

(** ** JavaScript values *)

Module Js.

(** A JS number: a finite double (as an exact rational) or one of the
    three non-finite values. *)
Inductive num : Type :=
| Finite (q : Q)
| PosInfinity
| NegInfinity
| NaN.

(** The values that cross the wire as JSON bodies, plus function values
    (the latter only arise from inherited properties). *)
#[warnings="-register-all"]
Inductive val : Type :=
| Undefined
| Null
| Bool (b : bool)
| Num (n : num)
| Str (s : string)
| Obj (fields : list (string * val))
| Fun (name : string).

(** ToBoolean. *)
Definition truthy (v : val) : bool :=
  match v with
  | Undefined | Null => false
  | Bool b => b
  | Num (Finite q) => negb (Qeq_bool q 0)
  | Num NaN => false
  | Num _ => true
  | Str s => negb (String.eqb s "")
  | Obj _ | Fun _ => true
  end.

Fixpoint assoc (k : string) (fields : list (string * val)) : val :=
  match fields with
  | [] => Undefined
  | (k', v) :: rest => if String.eqb k k' then v else assoc k rest
  end.

(** [v?.k] for a parsed response body [v] and one of the field names the
    allocator reads ([activeMatches], [success], [serverPort],
    [containerId]); none of them is inherited from a prototype. *)
Definition field (v : val) (k : string) : val :=
  match v with
  | Obj fields => assoc k fields
  | _ => Undefined
  end.

(** [Number.isFinite(v)]: true only for values of type number that are
    finite; it does not coerce. *)
Definition isFinite (v : val) : bool :=
  match v with
  | Num (Finite _) => true
  | _ => false
  end.

(** The rational value of a finite number (and 0 for anything else, which
    no caller asks for). *)
Definition finite_value (v : val) : Q :=
  match v with
  | Num (Finite q) => q
  | _ => 0%Q
  end.

(** [!s] for a variable that holds a string, [null] or [undefined]. *)
Definition falsy_str (s : option string) : bool :=
  match s with
  | None => true
  | Some s => String.eqb s ""
  end.

End Js.

(** ** Binary64 arithmetic *)

Definition pow2 (k : Z) : Q := (2 ^ k)%Q.

(** The binade of [x > 0]: the [k] with [2^k <= x < 2^(k+1)]. *)
Definition binade (x : Q) : Z :=
  let k := Z.log2 (Qnum x) - Z.log2 (Zpos (Qden x)) in
  if Qle_bool (pow2 k) x then k else k - 1.

(** The nearest integer, ties to even. *)
Definition nearest_even (x : Q) : Z :=
  let f := Qfloor x in
  match (x - inject_Z f ?= 1 # 2)%Q with
  | Lt => f
  | Gt => f + 1
  | Eq => if Z.even f then f else f + 1
  end.

(** The double nearest to [x], ties to even: 53 significant bits, with the
    subnormal range below [2^-1022]. The result of an operation on doubles
    is [round64] of the exact result as long as that is below [2^1024] in
    absolute value, which is the case wherever the model uses it. *)
Definition round64 (x : Q) : Q :=
  if Qeq_bool x 0 then 0%Q
  else
    let e := Z.max (binade (Qabs x) - 52) (-1074) in
    Qred (inject_Z (nearest_even (x / pow2 e)) * pow2 e).

(** ** Configuration (lines 14-21) *)

Record Config : Type := {
  FULL_MATCH_LIMIT : Z;
  MAX_BACKUP_VMS : Z;
  MIN_BACKUP_VMS : Z;
  NEAR_CAPACITY_THRESHOLD : Z;
  VM_UNREACHABLE_TERMINATE_THRESHOLD : Z;
  VM_AGE_TERMINATE_MINUTES : Z;
  PLAYFAB_SECRET_KEY : Js.val
}.

(** The defaults of the source. *)
Definition default_config : Config := {|
  FULL_MATCH_LIMIT := 5;
  MAX_BACKUP_VMS := 10;
  MIN_BACKUP_VMS := 1;
  NEAR_CAPACITY_THRESHOLD := 1;
  VM_UNREACHABLE_TERMINATE_THRESHOLD := 2;
  VM_AGE_TERMINATE_MINUTES := 5;
  PLAYFAB_SECRET_KEY := Js.Undefined
|}.

(** ** Scene mapping (lines 23-27) *)

Definition SCENE_MAP : list (string * string) :=
  [ ("VersusMen_Online", "SelectionScreenMen_Online");
    ("VersusWomen_Online", "SelectionScreenWomen_Online");
    ("KunBoran_Online", "SelectionScreenMen_Online_KunBoran") ].

(** [SCENE_MAP] is an object literal, so its prototype is
    [Object.prototype]; these are the property names it inherits. *)
Definition Object_prototype_functions : list string :=
  [ "constructor"; "hasOwnProperty"; "isPrototypeOf"; "propertyIsEnumerable";
    "toLocaleString"; "toString"; "valueOf";
    "__defineGetter__"; "__defineSetter__"; "__lookupGetter__"; "__lookupSetter__" ].

Fixpoint own_scene (k : string) (m : list (string * string)) : option string :=
  match m with
  | [] => None
  | (k', v) :: rest => if String.eqb k k' then Some v else own_scene k rest
  end.

(** [SCENE_MAP[gameMode]] for a string [gameMode]: an own property, else a
    property found on the prototype chain, else [undefined]. *)
Definition SCENE_MAP_index (gameMode : string) : Js.val :=
  match own_scene gameMode SCENE_MAP with
  | Some scene => Js.Str scene
  | None =>
      if existsb (String.eqb gameMode) Object_prototype_functions
      then Js.Fun gameMode
      else if String.eqb gameMode "__proto__" then Js.Obj []
      else Js.Undefined
  end.

(** The keys of the scene mapping. *)
Definition is_scene_key (gameMode : string) : bool :=
  match own_scene gameMode SCENE_MAP with
  | Some _ => true
  | None => false
  end.

(** ** In-memory state (lines 42-51) *)

Record VM : Type := {
  ip : string;
  matchCount : Q;
  unreachableCount : Z;
  launchedAt : Z;
  lastSeen : Z
}.

(** The match descriptor returned by [launchUnityServerOnVM]. *)
Record MatchData : Type := {
  serverIP : string;
  serverPort : Js.val;
  md_matchId : string;
  md_gameMode : string;
  md_tickRate : Js.val;
  containerId : Js.val
}.

(** [{ ...matchData, startedAt, vmInstanceId }]. *)
Record MatchRecord : Type := {
  descriptor : MatchData;
  startedAt : Z;
  vmInstanceId : string
}.

Record St : Type := {
  vmPool : list (string * VM);
  matches : gmap string MatchRecord;
  protectedVM : option string;
  launching : bool;
  clock : Z
}.

(** The state of a freshly started process, at instant [t]. *)
Definition init (t : Z) : St := {|
  vmPool := [];
  matches := ∅;
  protectedVM := None;
  launching := false;
  clock := t
|}.

(** *** The registry as an insertion-ordered dictionary *)

Module Pool.

Fixpoint get (id : string) (p : list (string * VM)) : option VM :=
  match p with
  | [] => None
  | (k, v) :: rest => if String.eqb id k then Some v else get id rest
  end.

(** [p[id] = vm]: overwrite in place when the key exists, else append. *)
Fixpoint set (id : string) (vm : VM) (p : list (string * VM)) : list (string * VM) :=
  match p with
  | [] => [(id, vm)]
  | (k, v) :: rest =>
      if String.eqb id k then (k, vm) :: rest else (k, v) :: set id vm rest
  end.

(** A write through an object reference taken from the registry: it is
    seen in the registry as long as the record is still registered, and
    nowhere when it has been removed meanwhile. *)
Fixpoint update (id : string) (vm : VM) (p : list (string * VM)) : list (string * VM) :=
  match p with
  | [] => []
  | (k, v) :: rest =>
      if String.eqb id k then (k, vm) :: rest else (k, v) :: update id vm rest
  end.

(** [if (p[id]) p[id] = f(p[id])]. *)
Fixpoint alter (f : VM -> VM) (id : string) (p : list (string * VM)) : list (string * VM) :=
  match p with
  | [] => []
  | (k, v) :: rest =>
      if String.eqb id k then (k, f v) :: rest else (k, v) :: alter f id rest
  end.

(** [delete p[id]]. *)
Definition delete (id : string) (p : list (string * VM)) : list (string * VM) :=
  List.filter (fun kv => negb (String.eqb id (fst kv))) p.

Definition has (id : string) (p : list (string * VM)) : bool :=
  match get id p with Some _ => true | None => false end.

(** [Object.keys(p)]. *)
Definition keys (p : list (string * VM)) : list string := List.map fst p.

(** [Object.keys(p).length]. *)
Definition size (p : list (string * VM)) : Z := Z.of_nat (List.length p).

(** A JS object has each key once. *)
Definition wf (p : list (string * VM)) : Prop := List.NoDup (keys p).

End Pool.

(** ** The environment *)

(** An element of [InstanceSet] as returned by [DescribeInstances]; an
    absent [PublicIpAddresses] is the empty list. *)
Record Instance : Type := {
  InstanceId : string;
  InstanceState : string;
  PublicIpAddresses : list string
}.

(** Answers to the [GET /status] probes of one operation, by instance:
    [None] when [axios.get] rejects (timeout, refusal, HTTP error). *)
Record ProbeEnv : Type := {
  status : string -> option Js.val;
  status_at : string -> Z;
  (** the instant at which the [TerminateInstances] that a failed probe
      issues for that instance returns *)
  terminated_at : string -> Z
}.

(** Answers to one call of [launchBackupVM]: the instance id obtained from
    [RunInstances] ([None] when the call throws or returns no id) and, for
    the i-th poll, the first element of [InstanceSet] ([None] when the call
    throws or the set is empty). *)
Record LaunchEnv : Type := {
  run_reply : option string;
  poll : nat -> option Instance;
  poll_at : nat -> Z
}.

(** Answer to the [DescribeInstances({})] of [syncWithCloud]: [None] when it
    throws. *)
Record SyncEnv : Type := {
  describe : option (list Instance);
  describe_at : Z
}.

(** The body posted to [/start-match]. *)
Record StartPayload : Type := {
  sp_matchId : string;
  sp_gameMode : string;
  sp_matchPrivacy : string;
  sp_tickRate : Js.val;
  sp_matchType : Js.val;
  sp_playfabSecretKey : Js.val
}.

(** Everything one match request receives from outside. *)
Record RequestEnv : Type := {
  rq_probes : ProbeEnv;
  rq_launch : LaunchEnv;
  start_match : string -> StartPayload -> option Js.val;
  start_at : Z
}.

(** Everything one reconciler tick receives from outside. *)
Record TickEnv : Type := {
  tk_sync : SyncEnv;
  tk_probes : ProbeEnv;
  tk_topup : nat -> LaunchEnv;
  tk_scaleup : LaunchEnv;
  recompute_at : Z
}.

(** ** Effects: state, clock and the log of cloud calls *)

(** Which statement of the source issued a [TerminateInstances]. *)
Inductive TerminatePath : Type :=
| UnreachablePath   (* refreshVmStatus, line 222 *)
| IdlePath          (* updateVMs, line 348 *)
| LaunchCleanup.    (* launchBackupVM, line 184 *)

Inductive CloudCall : Type :=
| RunInstances (reply : option string)
| TerminateInstances (path : TerminatePath) (instanceId : string).

(** A logged call, with the program state at the instant of the call. *)
Record Event : Type := {
  call : CloudCall;
  at_state : St
}.

Definition M (A : Type) : Type := St -> A * St * list Event.

Definition ret {A : Type} (a : A) : M A := fun st => (a, st, []).

Definition bind {A B : Type} (m : M A) (k : A -> M B) : M B :=
  fun st =>
    let '(a, st1, log1) := m st in
    let '(b, st2, log2) := k a st1 in
    (b, st2, log1 ++ log2).

Notation "x <- m ;; k" := (bind m (fun x => k))
  (at level 100, m at next level, right associativity).
Notation "m ;; k" := (bind m (fun _ => k))
  (at level 100, right associativity).

Definition get_state : M St := fun st => (st, st, []).

Definition modify (f : St -> St) : M unit := fun st => (tt, f st, []).

Definition cloud (c : CloudCall) : M unit :=
  fun st => (tt, st, [ {| call := c; at_state := st |} ]).

Definition result_of {A : Type} (r : A * St * list Event) : A := fst (fst r).
Definition state_of {A : Type} (r : A * St * list Event) : St := snd (fst r).
Definition log_of {A : Type} (r : A * St * list Event) : list Event := snd r.

Arguments result_of {A} !r /.
Arguments state_of {A} !r /.
Arguments log_of {A} !r /.

Definition set_pool (f : list (string * VM) -> list (string * VM)) (st : St) : St :=
  {| vmPool := f (vmPool st); matches := matches st;
     protectedVM := protectedVM st; launching := launching st; clock := clock st |}.

Definition set_matches (f : gmap string MatchRecord -> gmap string MatchRecord) (st : St) : St :=
  {| vmPool := vmPool st; matches := f (matches st);
     protectedVM := protectedVM st; launching := launching st; clock := clock st |}.

Definition set_protected (p : option string) (st : St) : St :=
  {| vmPool := vmPool st; matches := matches st;
     protectedVM := p; launching := launching st; clock := clock st |}.

Definition set_launching (b : bool) (st : St) : St :=
  {| vmPool := vmPool st; matches := matches st;
     protectedVM := protectedVM st; launching := b; clock := clock st |}.

Definition set_clock (t : Z) (st : St) : St :=
  {| vmPool := vmPool st; matches := matches st;
     protectedVM := protectedVM st; launching := launching st; clock := t |}.

(** The continuation of an [await] resumes at instant [t]; nothing else
    runs in between (see the module [Interleaved] for the other case). *)
Definition await (t : Z) : M unit := modify (set_clock t).

(** [nowMs()] (lines 54-56). *)
Definition nowMs : M Z := fun st => (clock st, st, []).

Fixpoint forEach {A : Type} (l : list A) (body : A -> M unit) : M unit :=
  match l with
  | [] => ret tt
  | x :: rest => body x ;; forEach rest body
  end.

(** [instanceId === protectedVM]. *)
Definition is_protected (st : St) (instanceId : string) : bool :=
  match protectedVM st with
  | Some p => String.eqb instanceId p
  | None => false
  end.

(** [vmPool[protectedVM]], as a truth value. *)
Definition is_protected_registered (st : St) : bool :=
  match protectedVM st with
  | Some p => Pool.has p (vmPool st)
  | None => false
  end.

(** ** [Array.prototype.sort] with a comparator: stable *)

Fixpoint insert_sorted {A : Type} (cmp : A -> A -> comparison) (x : A) (l : list A) : list A :=
  match l with
  | [] => [x]
  | y :: rest =>
      match cmp x y with
      | Gt => y :: insert_sorted cmp x rest
      | _ => x :: l
      end
  end.

Fixpoint stable_sort {A : Type} (cmp : A -> A -> comparison) (l : list A) : list A :=
  match l with
  | [] => []
  | x :: rest => insert_sorted cmp x (stable_sort cmp rest)
  end.

(** [(a, b) => vmPool[a].launchedAt - vmPool[b].launchedAt], by sign. *)
Definition by_launchedAt (p : list (string * VM)) (a b : string) : comparison :=
  match Pool.get a p, Pool.get b p with
  | Some va, Some vb => Z.compare (launchedAt va) (launchedAt vb)
  | _, _ => Eq
  end.

(** [ids.sort(by launchedAt); ids[0]]. *)
Definition oldest (ids : list string) (p : list (string * VM)) : option string :=
  hd_error (stable_sort (by_launchedAt p) ids).

(** [(a, b) => (a[1].matchCount - b[1].matchCount) || (a[1].lastSeen - b[1].lastSeen)],
    by sign. *)
Definition by_load (a b : string * VM) : comparison :=
  match Qcompare (matchCount (snd a)) (matchCount (snd b)) with
  | Eq => Z.compare (lastSeen (snd a)) (lastSeen (snd b))
  | c => c
  end.

Definition Qlt_bool (a b : Q) : bool := negb (Qle_bool b a).

Definition is_running (inst : Instance) : bool :=
  String.eqb (InstanceState inst) "RUNNING".

(** [(nowMs() - vm.launchedAt) / (60 * 1000)]. *)
Definition ageMinutes (now : Z) (vm : VM) : Q :=
  inject_Z (now - launchedAt vm) / inject_Z (60 * 1000).

(** ** The allocator *)

Section Allocator.

Context (cfg : Config).

(** A record as first registered (lines 99-105 and 160-166). *)
Definition fresh_vm (ip0 : string) (now : Z) : VM :=
  {| ip := ip0; matchCount := 0; unreachableCount := 0;
     launchedAt := now; lastSeen := now |}.

(** *** [syncWithCloud] (lines 67-125) *)

(** [cloudMap.get(instanceId)]: the map was filled in list order, so a later
    instance with the same id overrides an earlier one. *)
Fixpoint cloudMap_get (instanceId : string) (allInstances : list Instance) : option Instance :=
  match allInstances with
  | [] => None
  | inst :: rest =>
      match cloudMap_get instanceId rest with
      | Some later => Some later
      | None => if String.eqb instanceId (InstanceId inst) then Some inst else None
      end
  end.

Definition with_ip (ip0 : string) (vm : VM) : VM :=
  {| ip := ip0; matchCount := matchCount vm; unreachableCount := unreachableCount vm;
     launchedAt := launchedAt vm; lastSeen := lastSeen vm |}.

(** Lines 77-90, one iteration. *)
Definition sync_remove (allInstances : list Instance) (instanceId : string) : M unit :=
  match cloudMap_get instanceId allInstances with
  | Some inst =>
      if is_running inst then
        match hd_error (PublicIpAddresses inst) with
        | Some ip0 =>
            st <- get_state ;;
            match Pool.get instanceId (vmPool st) with
            | Some vm =>
                if negb (String.eqb ip0 "") && negb (String.eqb (ip vm) ip0)
                then modify (set_pool (Pool.update instanceId (with_ip ip0 vm)))
                else ret tt
            | None => ret tt
            end
        | None => ret tt
        end
      else
        modify (set_pool (Pool.delete instanceId)) ;;
        st <- get_state ;;
        if is_protected st instanceId then modify (set_protected None) else ret tt
  | None =>
      modify (set_pool (Pool.delete instanceId)) ;;
      st <- get_state ;;
      if is_protected st instanceId then modify (set_protected None) else ret tt
  end.

(** Lines 93-108, one iteration. *)
Definition sync_add (inst : Instance) : M unit :=
  if negb (is_running inst) then ret tt
  else
    match hd_error (PublicIpAddresses inst) with
    | Some ip0 =>
        if String.eqb ip0 "" then ret tt
        else
          st <- get_state ;;
          if Pool.has (InstanceId inst) (vmPool st) then ret tt
          else
            now <- nowMs ;;
            modify (set_pool (Pool.set (InstanceId inst) (fresh_vm ip0 now)))
    | None => ret tt
    end.

(** Lines 111-118 and 290-297: pick the oldest VM when there is one. *)
Definition choose_protected : M unit :=
  st <- get_state ;;
  match oldest (Pool.keys (vmPool st)) (vmPool st) with
  | Some instanceId => modify (set_protected (Some instanceId))
  | None => ret tt
  end.

Definition syncWithCloud (e : SyncEnv) : M unit :=
  match describe e with
  | None => ret tt
  | Some allInstances =>
      await (describe_at e) ;;
      st <- get_state ;;
      forEach (Pool.keys (vmPool st)) (sync_remove allInstances) ;;
      forEach allInstances sync_add ;;
      st <- get_state ;;
      if Js.falsy_str (protectedVM st) then choose_protected
      else if negb (is_protected_registered st) then modify (set_protected None)
      else ret tt
  end.

(** *** [launchBackupVM] (lines 132-196) *)

Definition maxPoll : nat := 40.

(** The polling loop of lines 153-173: [n] iterations remain, the next one
    is iteration [i]. Returns the final value of the variable [ip]. *)
Fixpoint pollLoop (e : LaunchEnv) (instanceId : string) (n i : nat) : M (option string) :=
  match n with
  | O => ret None
  | S n' =>
      await (poll_at e i) ;;
      match poll e i with
      | Some inst =>
          match PublicIpAddresses inst with
          | ip0 :: _ =>
              if is_running inst then
                now <- nowMs ;;
                modify (set_pool (Pool.set instanceId (fresh_vm ip0 now))) ;;
                ret (Some ip0)
              else pollLoop e instanceId n' (S i)
          | [] => pollLoop e instanceId n' (S i)
          end
      | None => pollLoop e instanceId n' (S i)
      end
  end.

(** The [try] block of lines 143-189; [None] stands for both [return null]
    and a caught exception. *)
Definition launch_attempt (e : LaunchEnv) : M (option (string * string)) :=
  cloud (RunInstances (run_reply e)) ;;
  match run_reply e with
  | Some instanceId =>
      if String.eqb instanceId "" then ret None
      else
        ip0 <- pollLoop e instanceId maxPoll 0 ;;
        st <- get_state ;;
        (if Js.falsy_str (protectedVM st)
         then modify (set_protected (Some instanceId))
         else ret tt) ;;
        match ip0 with
        | Some ip1 =>
            if String.eqb ip1 "" then
              cloud (TerminateInstances LaunchCleanup instanceId) ;;
              modify (set_pool (Pool.delete instanceId)) ;;
              ret None
            else ret (Some (instanceId, ip1))
        | None =>
            cloud (TerminateInstances LaunchCleanup instanceId) ;;
            modify (set_pool (Pool.delete instanceId)) ;;
            ret None
        end
  | None => ret None
  end.

Definition launchBackupVM (e : LaunchEnv) : M (option (string * string)) :=
  st <- get_state ;;
  if launching st then ret None
  else if MAX_BACKUP_VMS cfg <=? Pool.size (vmPool st) then ret None
  else
    modify (set_launching true) ;;
    r <- launch_attempt e ;;
    modify (set_launching false) ;;
    ret r.

(** *** [refreshVmStatus] (lines 202-234) *)

(** Line 206 followed by the normalisation of line 210. *)
Definition probe_matchCount (data : Js.val) : Q :=
  let reported :=
    if Js.isFinite (Js.field data "activeMatches")
    then Js.finite_value (Js.field data "activeMatches")
    else 0%Q in
  if Qlt_bool reported 0 then 0%Q else reported.

Definition probed (mc : Q) (now : Z) (vm : VM) : VM :=
  {| ip := ip vm; matchCount := mc; unreachableCount := 0;
     launchedAt := launchedAt vm; lastSeen := now |}.

Definition missed (vm : VM) : VM :=
  {| ip := ip vm; matchCount := matchCount vm;
     unreachableCount := unreachableCount vm + 1;
     launchedAt := launchedAt vm; lastSeen := lastSeen vm |}.

(** [vm] is the object found under [instanceId] when the caller read
    [Object.entries(vmPool)]. The result is the returned boolean together
    with that object as the call leaves it. *)
Definition refreshVmStatus (p : ProbeEnv) (instanceId : string) (vm : VM) : M (bool * VM) :=
  await (status_at p instanceId) ;;
  match status p instanceId with
  | Some data =>
      now <- nowMs ;;
      let vm' := probed (probe_matchCount data) now vm in
      modify (set_pool (Pool.update instanceId vm')) ;;
      ret (true, vm')
  | None =>
      let vm' := missed vm in
      modify (set_pool (Pool.update instanceId vm')) ;;
      now <- nowMs ;;
      if (VM_UNREACHABLE_TERMINATE_THRESHOLD cfg <=? unreachableCount vm')
         && Qle_bool (inject_Z (VM_AGE_TERMINATE_MINUTES cfg)) (ageMinutes now vm')
      then
        st <- get_state ;;
        if negb (is_protected st instanceId)
           && (MIN_BACKUP_VMS cfg <? Pool.size (vmPool st))
        then
          cloud (TerminateInstances UnreachablePath instanceId) ;;
          modify (set_pool (Pool.delete instanceId)) ;;
          ret (false, vm')
        else ret (false, vm')
      else ret (false, vm')
  end.

(** *** [getAvailableVM] (lines 240-257) *)

(** [Promise.all] (line 243) starts every probe; the rest of each
    [refreshVmStatus] runs when its answer arrives. [refresh_resumes] is
    that continuation for [instanceId] (lines 206-222): it ends with the
    probe settled, or with the call of [TerminateInstances], whose answer
    is awaited in turn. The boolean tells that the call was made. *)
Definition refresh_resumes (p : ProbeEnv) (instanceId : string) (vm : VM) : M bool :=
  await (status_at p instanceId) ;;
  match status p instanceId with
  | Some data =>
      now <- nowMs ;;
      modify (set_pool (Pool.update instanceId (probed (probe_matchCount data) now vm))) ;;
      ret false
  | None =>
      let vm' := missed vm in
      modify (set_pool (Pool.update instanceId vm')) ;;
      now <- nowMs ;;
      if (VM_UNREACHABLE_TERMINATE_THRESHOLD cfg <=? unreachableCount vm')
         && Qle_bool (inject_Z (VM_AGE_TERMINATE_MINUTES cfg)) (ageMinutes now vm')
      then
        st <- get_state ;;
        if negb (is_protected st instanceId)
           && (MIN_BACKUP_VMS cfg <? Pool.size (vmPool st))
        then
          cloud (TerminateInstances UnreachablePath instanceId) ;;
          ret true
        else ret false
      else ret false
  end.

(** Line 226, which runs when [TerminateInstances] has returned. *)
Definition refresh_deletes (instanceId : string) : M unit :=
  modify (set_pool (Pool.delete instanceId)).

(** Has the [TerminateInstances] for [instanceId] returned by the instant
    [t]? *)
Definition returned_by (p : ProbeEnv) (t : Z) (instanceId : string) : bool :=
  terminated_at p instanceId <=? t.

(** The continuations of the probes, in the order of [answers]. [terminating]
    lists the VMs for which [TerminateInstances] has been called and has not
    returned yet: their [delete] runs before the first answer that arrives
    after the call has returned, or at the end. *)
Fixpoint probe_loop (p : ProbeEnv) (answers : list (string * VM)) (terminating : list string)
  : M unit :=
  match answers with
  | [] => forEach terminating refresh_deletes
  | (instanceId, vm) :: rest =>
      let t := status_at p instanceId in
      forEach (List.filter (returned_by p t) terminating) refresh_deletes ;;
      called <- refresh_resumes p instanceId vm ;;
      probe_loop p rest
        (List.filter (fun id => negb (returned_by p t id)) terminating
           ++ (if called then [instanceId] else []))
  end.

(** Earlier answer first. *)
Definition by_arrival (p : ProbeEnv) (a b : string * VM) : comparison :=
  status_at p (fst a) ?= status_at p (fst b).

(** The probes of line 243: the answers arrive in the order of their
    instants (in the order of [entries] when these are equal). *)
Definition probe_entries (p : ProbeEnv) (entries : list (string * VM)) : M unit :=
  probe_loop p (stable_sort (by_arrival p) entries) [].

(** Lines 242-243. *)
Definition refreshAll (p : ProbeEnv) : M unit :=
  st <- get_state ;;
  probe_entries p (vmPool st).

(** Lines 246-248. *)
Definition candidates (pool : list (string * VM)) : list (string * VM) :=
  stable_sort by_load
    (List.filter (fun entry => Qlt_bool (matchCount (snd entry)) (inject_Z (FULL_MATCH_LIMIT cfg)))
       pool).

(** Lines 250-256. *)
Definition select (l : LaunchEnv) : M (option (string * string)) :=
  st <- get_state ;;
  match candidates (vmPool st) with
  | (instanceId, vm) :: _ => ret (Some (instanceId, ip vm))
  | [] => launchBackupVM l
  end.

Definition getAvailableVM (p : ProbeEnv) (l : LaunchEnv) : M (option (string * string)) :=
  refreshAll p ;;
  select l.

(** *** [launchUnityServerOnVM] (lines 262-282): [None] when it throws *)

Definition launchUnityServerOnVM
    (post : string -> StartPayload -> option Js.val)
    (vmIP matchId gameMode matchPrivacy : string)
    (tickRate matchType playfabSecretKey : Js.val) : option MatchData :=
  let payload :=
    {| sp_matchId := matchId; sp_gameMode := gameMode; sp_matchPrivacy := matchPrivacy;
       sp_tickRate := tickRate; sp_matchType := matchType;
       sp_playfabSecretKey := playfabSecretKey |} in
  match post vmIP payload with
  | Some data =>
      if Js.truthy data && Js.truthy (Js.field data "success") then
        Some {| serverIP := vmIP; serverPort := Js.field data "serverPort";
                md_matchId := matchId; md_gameMode := gameMode; md_tickRate := tickRate;
                containerId := Js.field data "containerId" |}
      else None
  | None => None
  end.

(** *** [recomputeProtectedVM] (lines 289-318) *)

(** [current.lastSeen || current.launchedAt]. *)
Definition last_activity (vm : VM) : Z :=
  if lastSeen vm =? 0 then launchedAt vm else lastSeen vm.

Definition recomputeProtectedVM : M unit :=
  st <- get_state ;;
  if Js.falsy_str (protectedVM st) then choose_protected
  else
    match protectedVM st with
    | Some p =>
        match Pool.get p (vmPool st) with
        | None =>
            (* the recursive call finds protectedVM null and takes the first branch *)
            modify (set_protected None) ;;
            choose_protected
        | Some current =>
            now <- nowMs ;;
            let idleForMs := now - last_activity current in
            let idleForMinutes := (inject_Z idleForMs / inject_Z (60 * 1000))%Q in
            if Qlt_bool 60 idleForMinutes then
              match oldest (List.filter (fun id => negb (String.eqb id p)) (Pool.keys (vmPool st)))
                           (vmPool st) with
              | Some instanceId => modify (set_protected (Some instanceId))
              | None => ret tt
              end
            else ret tt
        end
    | None => ret tt
    end.

(** *** [updateVMs] (lines 323-384) *)

(** [Math.max(0, FULL_MATCH_LIMIT - (vm.matchCount || 0))]. *)
Definition freeSlots (vm : VM) : Q :=
  Qmax 0 (inject_Z (FULL_MATCH_LIMIT cfg) - matchCount vm).

(** Lines 338-357, for a VM whose probe succeeded. *)
Definition terminate_if_idle (instanceId : string) (vm : VM) : M unit :=
  st <- get_state ;;
  if Qeq_bool (matchCount vm) 0
     && (MIN_BACKUP_VMS cfg <? Pool.size (vmPool st))
     && negb (is_protected st instanceId)
  then
    now <- nowMs ;;
    if Qle_bool (inject_Z (VM_AGE_TERMINATE_MINUTES cfg)) (ageMinutes now vm) then
      cloud (TerminateInstances IdlePath instanceId) ;;
      modify (set_pool (Pool.delete instanceId)) ;;
      st' <- get_state ;;
      if is_protected st' instanceId then modify (set_protected None) else ret tt
    else ret tt
  else ret tt.

(** Step 2, lines 329-361: returns [totalFreeSlots]. *)
Fixpoint healthLoop (p : ProbeEnv) (entries : list (string * VM)) (totalFreeSlots : Q) : M Q :=
  match entries with
  | [] => ret totalFreeSlots
  | (instanceId, vm) :: rest =>
      r <- refreshVmStatus p instanceId vm ;;
      if fst r then
        terminate_if_idle instanceId (snd r) ;;
        healthLoop p rest (totalFreeSlots + freeSlots (snd r))%Q
      else healthLoop p rest totalFreeSlots
  end.

Definition healthRefresh (p : ProbeEnv) : M Q :=
  st <- get_state ;;
  healthLoop p (vmPool st) 0%Q.

(** Step 3, lines 364-371. *)
Definition ensureMinimum (l : nat -> LaunchEnv) : M unit :=
  st <- get_state ;;
  let runningCount := Pool.size (vmPool st) in
  if runningCount <? MIN_BACKUP_VMS cfg then
    let diff := MIN_BACKUP_VMS cfg - runningCount in
    forEach (List.seq 0 (Z.to_nat diff)) (fun i => launchBackupVM (l i) ;; ret tt)
  else ret tt.

(** Step 4, lines 374-377. *)
Definition scaleUp (l : LaunchEnv) (totalFreeSlots : Q) : M unit :=
  st <- get_state ;;
  if Qle_bool totalFreeSlots (inject_Z (NEAR_CAPACITY_THRESHOLD cfg))
     && (Pool.size (vmPool st) <? MAX_BACKUP_VMS cfg)
  then launchBackupVM l ;; ret tt
  else ret tt.

(** Steps 1 and 2: returns [totalFreeSlots]. *)
Definition observe (e : TickEnv) : M Q :=
  syncWithCloud (tk_sync e) ;;
  healthRefresh (tk_probes e).

Definition updateVMs (e : TickEnv) : M unit :=
  totalFreeSlots <- observe e ;;
  ensureMinimum (tk_topup e) ;;
  scaleUp (tk_scaleup e) totalFreeSlots ;;
  await (recompute_at e) ;;
  recomputeProtectedVM.

(** *** The HTTP handlers (lines 387-431) *)

(** The fields read from [req.body]; [matchId] and [gameMode] are strings
    when present. *)
Record MatchRequest : Type := {
  matchId : option string;
  gameMode : option string;
  tickRate : Js.val;
  matchType : Js.val
}.

Inductive Body : Type :=
| ErrorBody (error : string)
| DescriptorBody (d : MatchData)
| RecordBody (r : MatchRecord).

(** [res.status(code).json(body)]. *)
Record Response : Type := {
  code : Z;
  body : Body
}.

(** [vm.matchCount++]: an addition of doubles. *)
Definition bump (vm : VM) : VM :=
  {| ip := ip vm; matchCount := round64 (matchCount vm + 1);
     unreachableCount := unreachableCount vm;
     launchedAt := launchedAt vm; lastSeen := lastSeen vm |}.

(** The guard of line 390, negated. *)
Definition valid_request (rq : MatchRequest) : option (string * string) :=
  match matchId rq, gameMode rq with
  | Some mid, Some gm =>
      if String.eqb mid "" || String.eqb gm "" || negb (Js.truthy (SCENE_MAP_index gm))
      then None
      else Some (mid, gm)
  | _, _ => None
  end.

(** [tickRate = 30] in the destructuring of line 389: the default applies
    when the field is [undefined]. *)
Definition tickRate_or_default (rq : MatchRequest) : Js.val :=
  match tickRate rq with
  | Js.Undefined => Js.Num (Js.Finite 30)
  | v => v
  end.

(** Line 398. *)
Definition payloadMatchType (matchPrivacy : string) (rq : MatchRequest) : Js.val :=
  if Js.truthy (matchType rq) then matchType rq
  else Js.Str (if String.eqb matchPrivacy "Private" then "CustomPrivate" else "QuickPlay").

(** The call of lines 399-407. *)
Definition start_on (e : RequestEnv) (matchPrivacy : string) (rq : MatchRequest)
    (mid gm vmIP : string) : option MatchData :=
  launchUnityServerOnVM (start_match e) vmIP mid gm matchPrivacy
    (tickRate_or_default rq) (payloadMatchType matchPrivacy rq) (PLAYFAB_SECRET_KEY cfg).

Definition handleMatchRequest (matchPrivacy : string) (rq : MatchRequest) (e : RequestEnv)
  : M Response :=
  match valid_request rq with
  | None => ret {| code := 400; body := ErrorBody "Missing or invalid matchId/gameMode" |}
  | Some (mid, gm) =>
      targetVM <- getAvailableVM (rq_probes e) (rq_launch e) ;;
      match targetVM with
      | None => ret {| code := 503; body := ErrorBody "No VM available" |}
      | Some (instanceId, vmIP) =>
          await (start_at e) ;;
          match start_on e matchPrivacy rq mid gm vmIP with
          | Some matchData =>
              now <- nowMs ;;
              modify (set_matches
                        (insert mid {| descriptor := matchData; startedAt := now;
                                       vmInstanceId := instanceId |})) ;;
              modify (set_pool (Pool.alter bump instanceId)) ;;
              ret {| code := 200; body := DescriptorBody matchData |}
          | None => ret {| code := 500; body := ErrorBody "Internal server error" |}
          end
      end
  end.

(** [GET /api/match-details/:matchId]. *)
Definition matchDetails (mid : string) : M Response :=
  if String.eqb mid "" then ret {| code := 400; body := ErrorBody "Missing matchId" |}
  else
    st <- get_state ;;
    match matches st !! mid with
    | Some matchData => ret {| code := 200; body := RecordBody matchData |}
    | None => ret {| code := 404; body := ErrorBody "Match not found" |}
    end.

(** *** Runs of the process *)

Inductive Op : Type :=
| RequestMatch (matchPrivacy : string) (rq : MatchRequest) (e : RequestEnv)
| Tick (e : TickEnv)
| MatchDetails (mid : string).

Definition exec (op : Op) : M (option Response) :=
  match op with
  | RequestMatch matchPrivacy rq e => r <- handleMatchRequest matchPrivacy rq e ;; ret (Some r)
  | Tick e => updateVMs e ;; ret None
  | MatchDetails mid => r <- matchDetails mid ;; ret (Some r)
  end.

Fixpoint run (ops : list Op) : M (list (option Response)) :=
  match ops with
  | [] => ret []
  | op :: rest => r <- exec op ;; rs <- run rest ;; ret (r :: rs)
  end.

End Allocator.

(** ** Operations that overlap

    Between the moment an operation starts an [await] and the moment it
    resumes, the event loop runs whatever else is ready: a reconciler tick
    (every [UPDATE_INTERVAL_MS], with no guard against re-entry), other
    match requests, the continuations of their own [await]s. An
    [AwaitPoint] names one such window. *)

Inductive AwaitPoint : Type :=
| RunReturns                (* [await client.RunInstances], line 144 *)
| PollReturns (i : nat)     (* [await safeWait] and [await client.DescribeInstances]
                               of the i-th poll, lines 154-156 *)
| CleanupReturns            (* [await client.TerminateInstances], line 184 *)
| StartReturns.             (* [await launchUnityServerOnVM], line 399 *)

(** No other operation runs. *)
Definition nothing_else : AwaitPoint -> St -> St := fun _ st => st.

Module Interleaved.

Section Amid.

(** What the other operations do to the state during each window. *)
Context (meanwhile : AwaitPoint -> St -> St).
Context (cfg : Config).

Definition interfere (pt : AwaitPoint) : M unit := modify (meanwhile pt).

(** The polling loop of lines 153-173. *)
Fixpoint pollLoop (e : LaunchEnv) (instanceId : string) (n i : nat) : M (option string) :=
  match n with
  | O => ret None
  | S n' =>
      interfere (PollReturns i) ;;
      await (poll_at e i) ;;
      match poll e i with
      | Some inst =>
          match PublicIpAddresses inst with
          | ip0 :: _ =>
              if is_running inst then
                now <- nowMs ;;
                modify (set_pool (Pool.set instanceId (fresh_vm ip0 now))) ;;
                ret (Some ip0)
              else pollLoop e instanceId n' (S i)
          | [] => pollLoop e instanceId n' (S i)
          end
      | None => pollLoop e instanceId n' (S i)
      end
  end.

(** The [try] block of lines 143-189. *)
Definition launch_attempt (e : LaunchEnv) : M (option (string * string)) :=
  cloud (RunInstances (run_reply e)) ;;
  interfere RunReturns ;;
  match run_reply e with
  | Some instanceId =>
      if String.eqb instanceId "" then ret None
      else
        ip0 <- pollLoop e instanceId maxPoll 0 ;;
        st <- get_state ;;
        (if Js.falsy_str (protectedVM st)
         then modify (set_protected (Some instanceId))
         else ret tt) ;;
        match ip0 with
        | Some ip1 =>
            if String.eqb ip1 "" then
              cloud (TerminateInstances LaunchCleanup instanceId) ;;
              interfere CleanupReturns ;;
              modify (set_pool (Pool.delete instanceId)) ;;
              ret None
            else ret (Some (instanceId, ip1))
        | None =>
            cloud (TerminateInstances LaunchCleanup instanceId) ;;
            interfere CleanupReturns ;;
            modify (set_pool (Pool.delete instanceId)) ;;
            ret None
        end
  | None => ret None
  end.

(** Lines 132-196: the two guards are evaluated when the function is
    entered, before its first [await]. *)
Definition launchBackupVM (e : LaunchEnv) : M (option (string * string)) :=
  st <- get_state ;;
  if launching st then ret None
  else if MAX_BACKUP_VMS cfg <=? Pool.size (vmPool st) then ret None
  else
    modify (set_launching true) ;;
    r <- launch_attempt e ;;
    modify (set_launching false) ;;
    ret r.

(** Step 4 of the tick (lines 373-377). *)
Definition scaleUp (l : LaunchEnv) (totalFreeSlots : Q) : M unit :=
  st <- get_state ;;
  if Qle_bool totalFreeSlots (inject_Z (NEAR_CAPACITY_THRESHOLD cfg))
     && (Pool.size (vmPool st) <? MAX_BACKUP_VMS cfg)
  then launchBackupVM l ;; ret tt
  else ret tt.

(** Lines 397-418 of [handleMatchRequest]: what the handler does once
    [getAvailableVM] has returned [targetVM]. *)
Definition startOnTarget (matchPrivacy : string) (rq : MatchRequest) (e : RequestEnv)
    (mid gm : string) (targetVM : string * string) : M Response :=
  let (instanceId, vmIP) := targetVM in
  interfere StartReturns ;;
  await (start_at e) ;;
  match start_on cfg e matchPrivacy rq mid gm vmIP with
  | Some matchData =>
      now <- nowMs ;;
      modify (set_matches
                (insert mid {| descriptor := matchData; startedAt := now;
                               vmInstanceId := instanceId |})) ;;
      modify (set_pool (Pool.alter bump instanceId)) ;;
      ret {| code := 200; body := DescriptorBody matchData |}
  | None => ret {| code := 500; body := ErrorBody "Internal server error" |}
  end.

End Amid.

End Interleaved.

(** ** The worker: choosing a port ([matchLauncher.js], lines 25-44) *)

(** What [getRandomAvailablePort] observes: the successive values of
    [Math.random()], and the outcome of the bind test of [isPortAvailable]
    at each attempt (the same port may be free at one attempt and taken at
    another). *)
Record PortEnv : Type := {
  random : nat -> Q;
  isPortAvailable : nat -> Z -> bool
}.

Definition maxTries : nat := 20.

(** [Math.floor(Math.random() * (max - min + 1)) + min] for integers [min]
    and [max] that a double holds; [r] is the double that [Math.random()]
    returned. The subtraction, the two additions and the product are
    operations on doubles. *)
Definition draw_port (r : Q) (min max : Z) : Z :=
  let span := round64 (round64 (inject_Z max - inject_Z min) + 1) in
  let drawn := Qfloor (round64 (r * span)) in
  Qfloor (round64 (inject_Z drawn + inject_Z min)).

(** The loop of lines 39-42: [n] attempts remain, the next one is attempt
    [i]. *)
Fixpoint pickPort (e : PortEnv) (min max : Z) (n i : nat) : option Z :=
  match n with
  | O => None
  | S n' =>
      let port := draw_port (random e i) min max in
      if isPortAvailable e i port then Some port else pickPort e min max n' (S i)
  end.

Definition getRandomAvailablePort (e : PortEnv) (min max : Z) : option Z :=
  pickPort e min max maxTries 0.

(** ** Concrete scenarios *)

Definition vmA : VM := fresh_vm "10.0.0.1" 0.

(** One registered VM, ["A"], which is also the protected one. *)
Definition one_vm : St :=
  {| vmPool := [("A", vmA)]; matches := ∅; protectedVM := Some "A";
     launching := false; clock := 0 |}.

(** Every worker answers its status probe with [{ activeMatches: v }]. *)
Definition reports (v : Js.val) : ProbeEnv :=
  {| status := fun _ => Some (Js.Obj [("activeMatches", v)]);
     status_at := fun _ => 1000; terminated_at := fun _ => 1500 |}.

(** No worker answers its status probe. *)
Definition silent_workers : ProbeEnv :=
  {| status := fun _ => None; status_at := fun _ => 1000;
     terminated_at := fun _ => 1500 |}.

(** [RunInstances] returns [id]; the instance never shows up as RUNNING with
    a public address within the 40 polls. *)
Definition never_ready (id : string) : LaunchEnv :=
  {| run_reply := Some id; poll := fun _ => None;
     poll_at := fun i => 5000 * Z.of_nat (S i) |}.

(** [RunInstances] returns [id]; the third poll finds it RUNNING at
    [ip0]. *)
Definition ready_at_third_poll (id ip0 : string) : LaunchEnv :=
  {| run_reply := Some id;
     poll := fun i =>
       if Nat.eqb i 2
       then Some {| InstanceId := id; InstanceState := "RUNNING";
                    PublicIpAddresses := [ip0] |}
       else None;
     poll_at := fun i => 5000 * Z.of_nat (S i) |}.

Definition request (mid gm : string) : MatchRequest :=
  {| matchId := Some mid; gameMode := Some gm;
     tickRate := Js.Undefined; matchType := Js.Undefined |}.

(** The worker accepts every [/start-match] and reports [port]. *)
Definition worker_starts (port : Z) : string -> StartPayload -> option Js.val :=
  fun _ _ => Some (Js.Obj [("success", Js.Bool true);
                           ("serverPort", Js.Num (Js.Finite (inject_Z port)))]).

(** The worker refuses every [/start-match]. *)
Definition worker_refuses : string -> StartPayload -> option Js.val :=
  fun _ _ => Some (Js.Obj [("success", Js.Bool false)]).

(** A request served while no worker answers its probe and the launch, if
    any, times out. *)
Definition outage : RequestEnv :=
  {| rq_probes := silent_workers; rq_launch := never_ready "ins-1";
     start_match := worker_refuses; start_at := 2000 |}.

(** A request served while every worker reports [n] active matches and
    accepts the match on [port]. *)
Definition healthy (n port : Z) : RequestEnv :=
  {| rq_probes := reports (Js.Num (Js.Finite (inject_Z n)));
     rq_launch := never_ready "ins-1";
     start_match := worker_starts port; start_at := 2000 |}.


(** The defaults, except that the registry may hold a single VM. *)
Definition single_vm_ceiling : Config := {|
  FULL_MATCH_LIMIT := 5;
  MAX_BACKUP_VMS := 1;
  MIN_BACKUP_VMS := 1;
  NEAR_CAPACITY_THRESHOLD := 1;
  VM_UNREACHABLE_TERMINATE_THRESHOLD := 2;
  VM_AGE_TERMINATE_MINUTES := 5;
  PLAYFAB_SECRET_KEY := Js.Undefined
|}.


(** A second VM, ["B"], launched long ago, whose last probe failed. *)
Definition vmB : VM :=
  {| ip := "10.0.0.2"; matchCount := 0; unreachableCount := 1;
     launchedAt := 0; lastSeen := 0 |}.

(** ["A"] (protected) and ["B"]. *)
Definition two_vms : St :=
  {| vmPool := [("A", vmA); ("B", vmB)]; matches := ∅; protectedVM := Some "A";
     launching := false; clock := 0 |}.

(** Ten minutes later ["A"] reports one active match and every other worker
    is silent. *)
Definition only_A_answers : ProbeEnv :=
  {| status := fun id =>
       if String.eqb id "A"
       then Some (Js.Obj [("activeMatches", Js.Num (Js.Finite 1))])
       else None;
     status_at := fun _ => 600000; terminated_at := fun _ => 600050 |}.

(** A tick, ten minutes later, in which the cloud still lists ["A"] and
    ["B"] as RUNNING and only ["A"] answers its probe. *)
Definition B_lost_tick : TickEnv :=
  {| tk_sync :=
       {| describe :=
            Some [ {| InstanceId := "A"; InstanceState := "RUNNING";
                      PublicIpAddresses := ["10.0.0.1"] |};
                   {| InstanceId := "B"; InstanceState := "RUNNING";
                      PublicIpAddresses := ["10.0.0.2"] |} ];
          describe_at := 590000 |};
     tk_probes := only_A_answers;
     tk_topup := fun _ => never_ready "ins-1";
     tk_scaleup := never_ready "ins-1";
     recompute_at := 600100 |}.

(** The call by which that tick terminates ["B"]. *)
Definition B_terminated : Event :=
  {| call := TerminateInstances UnreachablePath "B";
     at_state :=
       {| vmPool := [("A", probed 1 600000 vmA); ("B", missed vmB)];
          matches := ∅; protectedVM := Some "A"; launching := false;
          clock := 600000 |} |}.

(** Only ["B"] is registered, it is the protected VM, and its last probe
    failed. *)
Definition only_B : St :=
  {| vmPool := [("B", vmB)]; matches := ∅; protectedVM := Some "B";
     launching := false; clock := 0 |}.

(** The state in which ["A"] serves the match ["m1"], and the record
    created for that match. *)
Definition m1_record : MatchRecord :=
  {| descriptor :=
       {| serverIP := "10.0.0.1"; serverPort := Js.Num (Js.Finite 7001);
          md_matchId := "m1"; md_gameMode := "VersusMen_Online";
          md_tickRate := Js.Num (Js.Finite 30); containerId := Js.Undefined |};
     startedAt := 2000;
     vmInstanceId := "A" |}.

Definition serving_m1 : St :=
  {| vmPool := [("A", bump (probed 0 1000 vmA))];
     matches := {[ "m1" := m1_record ]};
     protectedVM := Some "A"; launching := false; clock := 2000 |}.

(** ["m1"] is requested, looked up, requested once more and looked up
    again. *)
Definition m1_twice : list Op :=
  [ RequestMatch "Public" (request "m1" "VersusMen_Online") (healthy 0 7001);
    MatchDetails "m1";
    RequestMatch "Public" (request "m1" "VersusMen_Online") (healthy 1 7002);
    MatchDetails "m1" ].

(** A tick, a lookup of ["m1"] and a request for another match. *)
Definition busy_day : list Op :=
  [ Tick B_lost_tick;
    MatchDetails "m1";
    RequestMatch "Public" (request "m2" "KunBoran_Online") (healthy 1 7002) ].

(** What the cloud lists in [B_lost_tick]: ["A"] and ["B"], both
    RUNNING. *)
Definition instance_A : Instance :=
  {| InstanceId := "A"; InstanceState := "RUNNING"; PublicIpAddresses := ["10.0.0.1"] |}.

Definition instance_B : Instance :=
  {| InstanceId := "B"; InstanceState := "RUNNING"; PublicIpAddresses := ["10.0.0.2"] |}.

Definition listed_AB : list Instance := [instance_A; instance_B].

(** ["A"] and ["B"] registered, the protected slot empty. *)
Definition nobody_protected : St := set_protected None two_vms.

(** ["A"] protected and last heard of more than an hour ago. *)
Definition A_idle_an_hour : St := set_clock 4000000 two_vms.

(** Every worker reports a full VM; a launch succeeds at its third poll and
    the new worker accepts the match. *)
Definition scale_out : RequestEnv :=
  {| rq_probes := reports (Js.Num (Js.Finite 5));
     rq_launch := ready_at_third_poll "ins-1" "10.0.0.9";
     start_match := worker_starts 7001; start_at := 20000 |}.

(** Ten minutes in, ["A"] reports one match and ["B"] none. *)
Definition B_is_idle : ProbeEnv :=
  {| status := fun id =>
       Some (Js.Obj [("activeMatches",
                      Js.Num (Js.Finite (if String.eqb id "A" then 1 else 0)))]);
     status_at := fun _ => 600000; terminated_at := fun _ => 600050 |}.

(** Every draw is the double nearest to 0.563; the port is taken at the
    first two attempts and free at the third. *)
Definition free_at_third_try : PortEnv :=
  {| random := fun _ => round64 (563 # 1000);
     isPortAvailable := fun i _ => Nat.leb 2 i |}.

(** ["A"] (protected), ["B"] and ["C"]; the last two were launched long
    ago and their last probe failed. *)
Definition three_vms : St :=
  {| vmPool := [("A", vmA); ("B", vmB); ("C", vmB)]; matches := ∅;
     protectedVM := Some "A"; launching := false; clock := 0 |}.

(** The defaults, except that the registry may hold two VMs. *)
Definition ceiling_of_two : Config := {|
  FULL_MATCH_LIMIT := 5;
  MAX_BACKUP_VMS := 2;
  MIN_BACKUP_VMS := 1;
  NEAR_CAPACITY_THRESHOLD := 1;
  VM_UNREACHABLE_TERMINATE_THRESHOLD := 2;
  VM_AGE_TERMINATE_MINUTES := 5;
  PLAYFAB_SECRET_KEY := Js.Undefined
|}.

(** [RunInstances], called one second into a tick, returns ["ins-1"]; the
    polls follow one another with the waits of line 154 and the sixth
    finds the instance RUNNING. *)
Definition ready_at_sixth_poll : LaunchEnv :=
  {| run_reply := Some "ins-1";
     poll := fun i =>
       if Nat.eqb i 5
       then Some {| InstanceId := "ins-1"; InstanceState := "RUNNING";
                    PublicIpAddresses := ["10.0.0.9"] |}
       else None;
     poll_at := fun i =>
       1000 + 5000 * Z.of_nat (S i) + 125 * Z.of_nat i * Z.of_nat (S i) |}.

(** A tick in which the cloud lists ["A"] alone and ["A"] reports that it
    is full; the scale-up step launches ["ins-1"]. *)
Definition A_is_full_tick : TickEnv :=
  {| tk_sync := {| describe := Some [instance_A]; describe_at := 10 |};
     tk_probes := reports (Js.Num (Js.Finite 5));
     tk_topup := fun _ => never_ready "ins-0";
     tk_scaleup := ready_at_sixth_poll;
     recompute_at := 34800 |}.

(** The tick that [setInterval] starts thirty seconds after that one: the
    cloud now lists a further RUNNING instance, ["X"], and ["ins-1"] as
    PENDING; ["A"] still reports that it is full and ["X"] does not answer
    its probe. *)
Definition next_tick : TickEnv :=
  {| tk_sync :=
       {| describe :=
            Some [ instance_A;
                   {| InstanceId := "X"; InstanceState := "RUNNING";
                      PublicIpAddresses := ["10.0.0.7"] |};
                   {| InstanceId := "ins-1"; InstanceState := "PENDING";
                      PublicIpAddresses := [] |} ];
          describe_at := 30010 |};
     tk_probes :=
       {| status := fun id =>
            if String.eqb id "A"
            then Some (Js.Obj [("activeMatches", Js.Num (Js.Finite 5))])
            else None;
          status_at := fun _ => 31000; terminated_at := fun _ => 31050 |};
     tk_topup := fun _ => never_ready "ins-2";
     tk_scaleup := never_ready "ins-2";
     recompute_at := 31100 |}.

(** [next_tick] runs from start to end while a launch waits for its
    sixth poll, and nothing else runs during that launch. *)
Definition next_tick_overlaps : AwaitPoint -> St -> St :=
  fun pt st =>
    match pt with
    | PollReturns 5 => state_of (updateVMs ceiling_of_two next_tick st)
    | _ => st
    end.

(** While a request waits for the worker's answer to [/start-match], the
    [syncWithCloud] of a reconciler tick finds that the cloud lists ["B"]
    alone as RUNNING; that tick then waits for the probe of ["B"]. *)
Definition A_leaves_meanwhile : AwaitPoint -> St -> St :=
  fun pt st =>
    match pt with
    | StartReturns =>
        state_of (syncWithCloud {| describe := Some [instance_B]; describe_at := 1500 |} st)
    | _ => st
    end.

(** ** Predicates used in the statements *)

(** The call is a [RunInstances]. *)
Definition is_run (c : CloudCall) : bool :=
  match c with
  | RunInstances _ => true
  | TerminateInstances _ _ => false
  end.

(** Number of [RunInstances] calls in a log. *)
Definition launches (log : list Event) : nat :=
  List.length (List.filter (fun ev => is_run (call ev)) log).

(** The call is a termination decided by the reconciler's health step, on
    either of its two paths. *)
Definition reconciler_terminates (c : CloudCall) (instanceId : string) : Prop :=
  c = TerminateInstances UnreachablePath instanceId \/
  c = TerminateInstances IdlePath instanceId.

(** What a launch may write to the log. *)
Definition launch_call (c : CloudCall) : Prop :=
  match c with
  | RunInstances _ => True
  | TerminateInstances path _ => path = LaunchCleanup
  end.

(** The call is a termination decided by the health step. *)
Definition health_call (ev : Event) : Prop :=
  exists instanceId, reconciler_terminates (call ev) instanceId.

(** The three conditions under which the reconciler may terminate
    [instanceId], read in the state [st] in which the call is issued. *)
Definition may_terminate (cfg : Config) (st : St) (instanceId : string) : Prop :=
  protectedVM st <> Some instanceId /\
  MIN_BACKUP_VMS cfg < Pool.size (vmPool st) /\
  exists vm, Pool.get instanceId (vmPool st) = Some vm /\
             (inject_Z (VM_AGE_TERMINATE_MINUTES cfg) <= ageMinutes (clock st) vm)%Q.

(** What the health step logs: guarded terminations only. *)
Definition guarded (cfg : Config) (ev : Event) : Prop :=
  exists instanceId,
    reconciler_terminates (call ev) instanceId /\
    may_terminate cfg (at_state ev) instanceId.

(** The conjunction of the four tests of lines 217 and 219, for a VM whose
    probe has just failed. *)
Definition unreachable_guard (cfg : Config) (now : Z) (vm' : VM) (instanceId : string)
    (st : St) : bool :=
  (VM_UNREACHABLE_TERMINATE_THRESHOLD cfg <=? unreachableCount vm')
  && Qle_bool (inject_Z (VM_AGE_TERMINATE_MINUTES cfg)) (ageMinutes now vm')
  && (negb (is_protected st instanceId)
      && (MIN_BACKUP_VMS cfg <? Pool.size (vmPool st))).

(** The conjunction of the four tests of lines 339-345. *)
Definition idle_guard (cfg : Config) (vm : VM) (instanceId : string) (st : St) : bool :=
  Qeq_bool (matchCount vm) 0
  && (MIN_BACKUP_VMS cfg <? Pool.size (vmPool st))
  && negb (is_protected st instanceId)
  && Qle_bool (inject_Z (VM_AGE_TERMINATE_MINUTES cfg)) (ageMinutes (clock st) vm).

(** The state in which [launch_attempt] leaves the protected-VM slot. *)
Definition after_protect (instanceId : string) (st : St) : St :=
  if Js.falsy_str (protectedVM st) then set_protected (Some instanceId) st else st.

(** The registry of [st] holds each key once. *)
Definition wf_state (st : St) : Prop := Pool.wf (vmPool st).

(** [a] sorts no later than [b]: fewer matches, or as many and seen no
    later. *)
Definition load_le (a b : string * VM) : Prop :=
  (matchCount (snd a) < matchCount (snd b))%Q \/
  ((matchCount (snd a) == matchCount (snd b))%Q /\ lastSeen (snd a) <= lastSeen (snd b)).

(** The rational [q] is an integer. *)
Definition is_integer (q : Q) : Prop := exists z : Z, (q == inject_Z z)%Q.

(** [m] leaves the observation [f] of the state unchanged. *)
Definition preserves {A X : Type} (f : St -> X) (m : M A) : Prop :=
  forall st, f (state_of (m st)) = f st.

(** Nothing is logged. *)
Definition nothing_logged (ev : Event) : Prop := False.

(** Every call that [m] logs satisfies [P]. *)
Definition emits {A : Type} (P : Event -> Prop) (m : M A) : Prop :=
  forall st, Forall P (log_of (m st)).

(** [m] maintains the state invariant [I]. *)
Definition keeps {A : Type} (I : St -> Prop) (m : M A) : Prop :=
  forall st, I st -> I (state_of (m st)).

(** The protected-VM slot is empty (or holds the empty string, which the
    code treats alike) or names a registered VM. *)
Definition pointer_valid (st : St) : Prop :=
  match protectedVM st with
  | Some p => p = "" \/ Pool.get p (vmPool st) <> None
  | None => True
  end.

(** *** Notions for the further properties *)

(** The cloud lists [id] as a RUNNING instance. *)
Definition cloud_running (allInstances : list Instance) (id : string) : Prop :=
  exists inst, In inst allInstances /\ InstanceId inst = id /\ is_running inst = true.

(** [inst] is RUNNING and its first public address is a non-empty string:
    what lines 94-97 let through. *)
Definition trackable (inst : Instance) : Prop :=
  is_running inst = true /\
  exists ip0, hd_error (PublicIpAddresses inst) = Some ip0 /\ ip0 <> "".

(** A record is as [sync_add] creates it at instant [t]. *)
Definition tracked_at (t : Z) (vm : VM) : Prop :=
  matchCount vm = 0%Q /\ unreachableCount vm = 0 /\
  launchedAt vm = t /\ lastSeen vm = t /\ ip vm <> "".

(** The address that lines 85-88 leave in the record [vm] of an instance
    that the cloud lists as [inst]. *)
Definition synced_ip (inst : Instance) (vm : VM) : string :=
  match hd_error (PublicIpAddresses inst) with
  | Some ip0 => if String.eqb ip0 "" then ip vm else ip0
  | None => ip vm
  end.

(** [(nowMs() - (current.lastSeen || current.launchedAt)) / (60 * 1000)]
    (lines 308-309). *)
Definition idleForMinutes (now : Z) (current : VM) : Q :=
  inject_Z (now - last_activity current) / inject_Z (60 * 1000).

(** [launchedAt] of the VM registered as [id] (0 when there is none). *)
Definition launchedAt_of (pool : list (string * VM)) (id : string) : Z :=
  match Pool.get id pool with
  | Some vm => launchedAt vm
  | None => 0
  end.

(** What one poll of lines 156-169 finds: the address it registers the
    instance with, if the instance is RUNNING with a public address. *)
Definition poll_finds (reply : option Instance) : option string :=
  match reply with
  | Some inst =>
      match PublicIpAddresses inst with
      | ip0 :: _ => if is_running inst then Some ip0 else None
      | [] => None
      end
  | None => None
  end.



(** A registry record holds counters that are not negative. *)
Definition record_ok (vm : VM) : Prop :=
  (0 <= matchCount vm)%Q /\ 0 <= unreachableCount vm.

Definition pool_ok (pool : list (string * VM)) : Prop :=
  Forall (fun entry => record_ok (snd entry)) pool.

Definition records_ok (st : St) : Prop := pool_ok (vmPool st).

(** Why the health step issued a termination: the VM did not answer and
    its record counts [VM_UNREACHABLE_TERMINATE_THRESHOLD] failed probes or
    more, or it answered with no active match. *)
Definition caused (cfg : Config) (p : ProbeEnv) (ev : Event) : Prop :=
  match call ev with
  | TerminateInstances UnreachablePath instanceId =>
      status p instanceId = None /\
      exists vm, Pool.get instanceId (vmPool (at_state ev)) = Some vm /\
                 VM_UNREACHABLE_TERMINATE_THRESHOLD cfg <= unreachableCount vm
  | TerminateInstances IdlePath instanceId =>
      exists data vm,
        status p instanceId = Some data /\ (probe_matchCount data == 0)%Q /\
        Pool.get instanceId (vmPool (at_state ev)) = Some vm /\ (matchCount vm == 0)%Q
  | TerminateInstances LaunchCleanup _ => True
  | RunInstances _ => True
  end.

(** [delete vmPool[id]] for each [id] of [ids], in turn. *)
Definition delete_all (ids : list string) (pool : list (string * VM)) : list (string * VM) :=
  fold_left (fun p id => Pool.delete id p) ids pool.

(** The number of VMs of [entries], other than [instanceId], whose probe
    fails. *)
Definition silent_others (p : ProbeEnv) (instanceId : string)
    (entries : list (string * VM)) : nat :=
  List.length
    (List.filter
       (fun entry =>
          negb (String.eqb (fst entry) instanceId)
          && match status p (fst entry) with Some _ => false | None => true end)
       entries).

(** The operations that run during the [await]s of an operation do not make
    the registry larger. *)
Definition registers_nothing (meanwhile : AwaitPoint -> St -> St) : Prop :=
  forall pt s, Pool.size (vmPool (meanwhile pt s)) <= Pool.size (vmPool s).

(** The worker answered [/start-match] and its answer carries a truthy
    [success]: the call [startMatch] succeeded. *)
Definition start_accepted (cfg : Config) (e : RequestEnv) (matchPrivacy : string)
    (rq : MatchRequest) (mid gm vmIP : string) : bool :=
  match start_match e vmIP
          {| sp_matchId := mid; sp_gameMode := gm; sp_matchPrivacy := matchPrivacy;
             sp_tickRate := tickRate_or_default rq;
             sp_matchType := payloadMatchType matchPrivacy rq;
             sp_playfabSecretKey := PLAYFAB_SECRET_KEY cfg |} with
  | Some data => Js.truthy data && Js.truthy (Js.field data "success")
  | None => false
  end.

(** ** The monad: equations *)

Lemma bind_unfold {A B : Type} (m : M A) (k : A -> M B) (st : St) :
  bind m k st =
  (result_of (k (result_of (m st)) (state_of (m st))),
   state_of (k (result_of (m st)) (state_of (m st))),
   log_of (m st) ++ log_of (k (result_of (m st)) (state_of (m st)))).
Proof.
  unfold bind, result_of, state_of, log_of.
  destruct (m st) as [[a st1] log1]; simpl.
  destruct (k a st1) as [[b st2] log2]; reflexivity.
Qed.

Lemma result_of_bind {A B : Type} (m : M A) (k : A -> M B) (st : St) :
  result_of (bind m k st) = result_of (k (result_of (m st)) (state_of (m st))).
Proof. rewrite bind_unfold; reflexivity. Qed.

Lemma state_of_bind {A B : Type} (m : M A) (k : A -> M B) (st : St) :
  state_of (bind m k st) = state_of (k (result_of (m st)) (state_of (m st))).
Proof. rewrite bind_unfold; reflexivity. Qed.

Lemma log_of_bind {A B : Type} (m : M A) (k : A -> M B) (st : St) :
  log_of (bind m k st) =
  log_of (m st) ++ log_of (k (result_of (m st)) (state_of (m st))).
Proof. rewrite bind_unfold; reflexivity. Qed.

Lemma triple_eta {A : Type} (r : A * St * list Event) :
  r = (result_of r, state_of r, log_of r).
Proof. destruct r as [[a s] l]; reflexivity. Qed.

(** Splits the conjunctions of the goal, and nothing else. *)
Ltac splits := repeat match goal with |- _ /\ _ => split end.

(** *** Frame rules *)

Lemma preserves_ret {A X : Type} (f : St -> X) (a : A) : preserves f (ret a).
Proof. intros st; reflexivity. Qed.

Lemma preserves_bind {A B X : Type} (f : St -> X) (m : M A) (k : A -> M B) :
  preserves f m -> (forall a, preserves f (k a)) -> preserves f (bind m k).
Proof.
  intros Hm Hk st. rewrite state_of_bind, Hk, Hm. reflexivity.
Qed.

Lemma preserves_get {X : Type} (f : St -> X) : preserves f get_state.
Proof. intros st; reflexivity. Qed.

Lemma preserves_nowMs {X : Type} (f : St -> X) : preserves f nowMs.
Proof. intros st; reflexivity. Qed.

Lemma preserves_cloud {X : Type} (f : St -> X) (c : CloudCall) : preserves f (cloud c).
Proof. intros st; reflexivity. Qed.

Lemma preserves_modify {X : Type} (f : St -> X) (g : St -> St) :
  (forall st, f (g st) = f st) -> preserves f (modify g).
Proof. intros H st; apply H. Qed.

Lemma preserves_forEach {A X : Type} (f : St -> X) (l : list A) (body : A -> M unit) :
  (forall x, preserves f (body x)) -> preserves f (forEach l body).
Proof.
  intros H. induction l as [|x l IH]; simpl.
  - apply preserves_ret.
  - apply preserves_bind; auto.
Qed.

(** Decomposes a frame goal along the structure of the computation. *)
Ltac frame_step :=
  match goal with
  | |- preserves _ (bind _ _) => apply preserves_bind; [| intros ?; cbv beta]
  | |- preserves _ (ret _) => apply preserves_ret
  | |- preserves _ get_state => apply preserves_get
  | |- preserves _ nowMs => apply preserves_nowMs
  | |- preserves _ (cloud _) => apply preserves_cloud
  | |- preserves _ (await _) => apply preserves_modify; intros ?; reflexivity
  | |- preserves _ (modify _) => apply preserves_modify; intros ?; reflexivity
  | |- preserves _ (forEach _ _) => apply preserves_forEach; intros ?; cbv beta
  | |- preserves _ (if ?b then _ else _) => destruct b
  | |- preserves _ (match ?x with _ => _ end) => destruct x
  end.

Ltac frame := repeat frame_step.

(** *** Invariant rules *)

Lemma keeps_ret {A : Type} (I : St -> Prop) (a : A) : keeps I (ret a).
Proof. intros st H; exact H. Qed.

Lemma keeps_bind {A B : Type} (I : St -> Prop) (m : M A) (k : A -> M B) :
  keeps I m -> (forall a, keeps I (k a)) -> keeps I (bind m k).
Proof. intros Hm Hk st H. rewrite state_of_bind. apply Hk, Hm, H. Qed.

Lemma keeps_get (I : St -> Prop) : keeps I get_state.
Proof. intros st H; exact H. Qed.

Lemma keeps_nowMs (I : St -> Prop) : keeps I nowMs.
Proof. intros st H; exact H. Qed.

Lemma keeps_cloud (I : St -> Prop) (c : CloudCall) : keeps I (cloud c).
Proof. intros st H; exact H. Qed.

Lemma keeps_modify (I : St -> Prop) (g : St -> St) :
  (forall st, I st -> I (g st)) -> keeps I (modify g).
Proof. intros Hg st H. apply Hg, H. Qed.

Lemma keeps_forEach {A : Type} (I : St -> Prop) (l : list A) (body : A -> M unit) :
  (forall x, keeps I (body x)) -> keeps I (forEach l body).
Proof.
  intros H. induction l as [|x l IH]; simpl.
  - apply keeps_ret.
  - apply keeps_bind; auto.
Qed.

(** Decomposes an invariant goal along the structure of the computation;
    what remains is one goal for each write to the state. *)
Ltac keeps_step :=
  match goal with
  | |- keeps _ (bind _ _) => apply keeps_bind; [| intros ?; cbv beta]
  | |- keeps _ (ret _) => apply keeps_ret
  | |- keeps _ get_state => apply keeps_get
  | |- keeps _ nowMs => apply keeps_nowMs
  | |- keeps _ (cloud _) => apply keeps_cloud
  | |- keeps _ (await _) => apply keeps_modify; intros ? ?
  | |- keeps _ (modify _) => apply keeps_modify; intros ? ?
  | |- keeps _ (forEach _ _) => apply keeps_forEach; intros ?; cbv beta
  | |- keeps _ (if ?b then _ else _) => destruct b
  | |- keeps _ (match ?x with _ => _ end) => destruct x
  end.

Ltac keeps_auto := repeat keeps_step.

(** *** Log rules *)

Lemma emits_ret {A : Type} (P : Event -> Prop) (a : A) : emits P (ret a).
Proof. intros st; constructor. Qed.

Lemma emits_bind {A B : Type} (P : Event -> Prop) (m : M A) (k : A -> M B) :
  emits P m -> (forall a, emits P (k a)) -> emits P (bind m k).
Proof.
  intros Hm Hk st. rewrite log_of_bind. apply Forall_app; split; [apply Hm | apply Hk].
Qed.

Lemma emits_get (P : Event -> Prop) : emits P get_state.
Proof. intros st; constructor. Qed.

Lemma emits_nowMs (P : Event -> Prop) : emits P nowMs.
Proof. intros st; constructor. Qed.

Lemma emits_modify (P : Event -> Prop) (g : St -> St) : emits P (modify g).
Proof. intros st; constructor. Qed.

Lemma emits_cloud (P : Event -> Prop) (c : CloudCall) :
  (forall st, P {| call := c; at_state := st |}) -> emits P (cloud c).
Proof. intros H st. repeat constructor. apply H. Qed.

Lemma emits_forEach {A : Type} (P : Event -> Prop) (l : list A) (body : A -> M unit) :
  (forall x, emits P (body x)) -> emits P (forEach l body).
Proof.
  intros H. induction l as [|x l IH]; simpl.
  - apply emits_ret.
  - apply emits_bind; auto.
Qed.

Lemma emits_weaken {A : Type} (P Q : Event -> Prop) (m : M A) :
  (forall ev, P ev -> Q ev) -> emits P m -> emits Q m.
Proof. intros H Hm st. eapply List.Forall_impl; [apply H | apply Hm]. Qed.

(** Decomposes a log goal along the structure of the computation. *)
Ltac emits_step :=
  match goal with
  | |- emits _ (bind _ _) => apply emits_bind; [| intros ?; cbv beta]
  | |- emits _ (ret _) => apply emits_ret
  | |- emits _ get_state => apply emits_get
  | |- emits _ nowMs => apply emits_nowMs
  | |- emits _ (await _) => apply emits_modify
  | |- emits _ (modify _) => apply emits_modify
  | |- emits _ (cloud _) => apply emits_cloud; intros ?; simpl
  | |- emits _ (forEach _ _) => apply emits_forEach; intros ?; cbv beta
  | |- emits _ (if ?b then _ else _) => destruct b
  | |- emits _ (match ?x with _ => _ end) => destruct x
  end.

Ltac emits_auto := repeat emits_step.

Lemma Forall_nil_iff_log (log : list Event) :
  log = [] <-> Forall nothing_logged log.
Proof.
  split; intros H.
  - subst; constructor.
  - destruct log as [|ev log]; [reflexivity|]. inversion H as [|? ? []].
Qed.

Lemma launches_app (l1 l2 : list Event) :
  launches (l1 ++ l2) = (launches l1 + launches l2)%nat.
Proof. unfold launches. rewrite List.filter_app, length_app. reflexivity. Qed.

Lemma launches_none (log : list Event) :
  Forall (fun ev => is_run (call ev) = false) log -> launches log = 0%nat.
Proof.
  unfold launches. induction 1 as [|ev log Hev _ IH]; simpl; [reflexivity|].
  rewrite Hev. exact IH.
Qed.

(** ** Binary64 rounding *)

Lemma pow2_pos (k : Z) : (0 < pow2 k)%Q.
Proof. apply Qpower_0_lt. reflexivity. Qed.

Lemma nearest_even_comp (x y : Q) : (x == y)%Q -> nearest_even x = nearest_even y.
Proof.
  intros H. unfold nearest_even. rewrite (Qfloor_comp _ _ H).
  assert (E : (x - inject_Z (Qfloor y) == y - inject_Z (Qfloor y))%Q) by (rewrite H; reflexivity).
  rewrite (Qcompare_comp _ _ E _ _ (Qeq_refl (1 # 2))). reflexivity.
Qed.

Lemma nearest_even_Z (z : Z) : nearest_even (inject_Z z) = z.
Proof.
  unfold nearest_even. rewrite Qfloor_Z.
  assert (E : (inject_Z z - inject_Z z == 0)%Q) by ring.
  rewrite (Qcompare_comp _ _ E _ _ (Qeq_refl (1 # 2))). reflexivity.
Qed.

Lemma nearest_even_nonneg (x : Q) : (0 <= x)%Q -> 0 <= nearest_even x.
Proof.
  intros H. unfold nearest_even.
  assert (Hf : 0 <= Qfloor x).
  { change 0 with (Qfloor 0). apply Qfloor_resp_le; exact H. }
  destruct (_ ?= _)%Q; [destruct (Z.even _) | |]; lia.
Qed.

Lemma nearest_even_close (x : Q) :
  (inject_Z (nearest_even x) <= x + (1 # 2))%Q /\ (x - (1 # 2) <= inject_Z (nearest_even x))%Q.
Proof.
  unfold nearest_even.
  pose proof (Qfloor_le x) as Hlo. pose proof (Qlt_floor x) as Hhi.
  rewrite inject_Z_plus in Hhi. change (inject_Z 1) with 1%Q in Hhi.
  destruct (x - inject_Z (Qfloor x) ?= 1 # 2)%Q eqn:E.
  - apply Qeq_alt in E.
    destruct (Z.even (Qfloor x)); [|rewrite inject_Z_plus; change (inject_Z 1) with 1%Q];
      split; lra.
  - apply Qlt_alt in E. split; lra.
  - apply Qgt_alt in E. rewrite inject_Z_plus. change (inject_Z 1) with 1%Q. split; lra.
Qed.

Lemma round64_nonneg (x : Q) : (0 <= x)%Q -> (0 <= round64 x)%Q.
Proof.
  intros H. unfold round64. destruct (Qeq_bool x 0); [apply Qle_refl|].
  cbv zeta. rewrite Qred_correct.
  apply Qmult_le_0_compat.
  - change 0%Q with (inject_Z 0). rewrite <- Zle_Qle. apply nearest_even_nonneg.
    apply Qle_shift_div_l; [apply pow2_pos|]. lra.
  - apply Qlt_le_weak, pow2_pos.
Qed.

Lemma binade_Z (m : Z) : 0 < m -> binade (inject_Z m) = Z.log2 m.
Proof.
  intros H. unfold binade. simpl. rewrite Z.sub_0_r.
  replace (Qle_bool (pow2 (Z.log2 m)) (inject_Z m)) with true; [reflexivity|].
  symmetry. apply Qle_bool_iff. unfold pow2.
  change 2%Q with (inject_Z 2). rewrite <- Zpower_Qpower by apply Z.log2_nonneg.
  rewrite <- Zle_Qle. apply Z.log2_spec. exact H.
Qed.

Lemma round64_Z (m : Z) : 0 <= m <= 2 ^ 53 -> (round64 (inject_Z m) == inject_Z m)%Q.
Proof.
  intros [H0 H53].
  destruct (Z.eq_dec m 0) as [->|Hne]; [reflexivity|].
  destruct (Z.eq_dec m (2 ^ 53)) as [->|Hne53]; [vm_compute; reflexivity|].
  assert (Hpos : 0 < m) by lia.
  unfold round64.
  replace (Qeq_bool (inject_Z m) 0) with false.
  2:{ symmetry. apply not_true_is_false. intros E. apply Qeq_bool_iff in E.
      unfold Qeq in E. simpl in E. lia. }
  cbv zeta. rewrite Qred_correct.
  change (Qabs (inject_Z m)) with (inject_Z (Z.abs m)). rewrite Z.abs_eq by lia.
  rewrite binade_Z by exact Hpos.
  assert (Hlog : 0 <= Z.log2 m < 53).
  { split; [apply Z.log2_nonneg|]. apply Z.log2_lt_pow2; lia. }
  rewrite Z.max_l by lia.
  set (d := 52 - Z.log2 m).
  assert (Hd : 0 <= d) by (unfold d; lia).
  replace (Z.log2 m - 52) with (- d) by (unfold d; lia).
  assert (Hp : (pow2 (- d) == / inject_Z (2 ^ d))%Q).
  { unfold pow2. rewrite Qpower_opp. change 2%Q with (inject_Z 2).
    rewrite Zpower_Qpower by exact Hd. reflexivity. }
  assert (Hnz : ~ (inject_Z (2 ^ d) == 0)%Q).
  { unfold Qeq. simpl. pose proof (Z.pow_pos_nonneg 2 d). lia. }
  assert (Hs : (inject_Z m / pow2 (- d) == inject_Z (m * 2 ^ d))%Q).
  { rewrite Hp, inject_Z_mult. field. exact Hnz. }
  rewrite (nearest_even_comp _ _ Hs), nearest_even_Z, Hp, inject_Z_mult.
  field. exact Hnz.
Qed.

Lemma pow2_add (a b : Z) : (pow2 (a + b) == pow2 a * pow2 b)%Q.
Proof. unfold pow2. apply Qpower_plus. intros H. discriminate. Qed.

Lemma pow2_Z (k : Z) : 0 <= k -> (pow2 k == inject_Z (2 ^ k))%Q.
Proof.
  intros H. unfold pow2. change 2%Q with (inject_Z 2).
  rewrite Zpower_Qpower by exact H. reflexivity.
Qed.

Lemma pow2_ge1 (k : Z) : 0 <= k -> (1 <= pow2 k)%Q.
Proof.
  intros H. rewrite (pow2_Z k H). change 1%Q with (inject_Z 1).
  rewrite <- Zle_Qle. pose proof (Z.pow_pos_nonneg 2 k). lia.
Qed.

Lemma pow2_mono (a b : Z) : a <= b -> (pow2 a <= pow2 b)%Q.
Proof.
  intros H. replace b with (a + (b - a)) by lia. rewrite pow2_add.
  pose proof (pow2_pos a). pose proof (pow2_ge1 (b - a) ltac:(lia)).
  rewrite <- (Qmult_1_r (pow2 a)) at 1.
  apply Qmult_le_l; assumption.
Qed.

Lemma pow2_succ (a : Z) : (pow2 (a + 1) == 2 * pow2 a)%Q.
Proof. rewrite pow2_add. change (pow2 1) with 2%Q. ring. Qed.

Lemma binade_spec (x : Q) :
  (0 < x)%Q -> (pow2 (binade x) <= x)%Q /\ (x < pow2 (binade x + 1))%Q.
Proof.
  intros Hx. destruct x as [n d].
  assert (Hn : 0 < n) by (unfold Qlt in Hx; simpl in Hx; lia).
  unfold binade. cbn [Qnum Qden].
  set (a := Z.log2 n). set (b := Z.log2 (Zpos d)).
  destruct (Z.log2_spec n Hn) as [Ha1 Ha2]. fold a in Ha1, Ha2.
  destruct (Z.log2_spec (Zpos d) ltac:(lia)) as [Hb1 Hb2]. fold b in Hb1, Hb2.
  assert (Ha0 : 0 <= a) by apply Z.log2_nonneg.
  assert (Hb0 : 0 <= b) by apply Z.log2_nonneg.
  set (x := n # d) in *.
  assert (Hxd : (x * inject_Z (Zpos d) == inject_Z n)%Q).
  { unfold x, Qeq. simpl. rewrite Pos.mul_1_r. ring. }
  assert (HA1 : (pow2 a <= inject_Z n)%Q) by (rewrite pow2_Z by lia; rewrite <- Zle_Qle; lia).
  assert (HA2 : (inject_Z n < 2 * pow2 a)%Q).
  { rewrite <- pow2_succ, pow2_Z by lia. rewrite <- Zlt_Qlt.
    replace (a + 1) with (Z.succ a) by lia. lia. }
  assert (HB1 : (pow2 b <= inject_Z (Zpos d))%Q) by (rewrite pow2_Z by lia; rewrite <- Zle_Qle; lia).
  assert (HB2 : (inject_Z (Zpos d) < 2 * pow2 b)%Q).
  { rewrite <- pow2_succ, pow2_Z by lia. rewrite <- Zlt_Qlt.
    replace (b + 1) with (Z.succ b) by lia. lia. }
  assert (Hinv : (pow2 (a - b) * pow2 b == pow2 a)%Q).
  { rewrite <- pow2_add. replace (a - b + b) with a by lia. reflexivity. }
  pose proof (pow2_pos a) as Pa. pose proof (pow2_pos b) as Pb.
  pose proof (pow2_pos (a - b)) as Pk.
  (* pow2 (k-1) < x < pow2 (k+1) *)
  assert (Hup : (x < 2 * pow2 (a - b))%Q).
  { apply Qmult_lt_r with (z := pow2 b); [exact Pb|].
    apply Qle_lt_trans with (y := inject_Z n).
    - rewrite <- Hxd. apply Qmult_le_l; assumption.
    - rewrite <- Qmult_assoc, Hinv. exact HA2. }
  assert (Hlow : (pow2 (a - b) < 2 * x)%Q).
  { apply Qmult_lt_r with (z := pow2 b); [exact Pb|].
    rewrite Hinv.
    apply Qle_lt_trans with (y := inject_Z n); [exact HA1|].
    rewrite <- Hxd.
    assert (Hsw : (2 * x * pow2 b == x * (2 * pow2 b))%Q) by ring.
    rewrite Hsw.
    apply Qmult_lt_l; assumption. }
  destruct (Qle_bool (pow2 (a - b)) x) eqn:E.
  - apply Qle_bool_iff in E. split; [exact E|].
    rewrite pow2_succ. exact Hup.
  - assert (E' : (x < pow2 (a - b))%Q).
    { apply Qnot_le_lt. intros H. apply Qle_bool_iff in H. congruence. }
    replace (a - b - 1 + 1) with (a - b) by lia.
    split; [|exact E'].
    assert (H2 : (pow2 (a - b) == 2 * pow2 (a - b - 1))%Q).
    { rewrite <- pow2_succ. replace (a - b - 1 + 1) with (a - b) by lia. reflexivity. }
    rewrite H2 in Hlow. lra.
Qed.

Lemma binade_unique (x : Q) (k : Z) :
  (pow2 k <= x)%Q -> (x < pow2 (k + 1))%Q -> binade x = k.
Proof.
  intros H1 H2.
  assert (Hx : (0 < x)%Q) by (pose proof (pow2_pos k); lra).
  destruct (binade_spec x Hx) as [B1 B2].
  destruct (Z_lt_le_dec (binade x) k) as [Hlt|Hge].
  - pose proof (pow2_mono (binade x + 1) k ltac:(lia)). lra.
  - destruct (Z_lt_le_dec k (binade x)) as [Hlt|Hle]; [|lia].
    pose proof (pow2_mono (k + 1) (binade x) ltac:(lia)). lra.
Qed.

Lemma binade_comp (x y : Q) : (0 < x)%Q -> (x == y)%Q -> binade x = binade y.
Proof.
  intros Hx H. symmetry. destruct (binade_spec x Hx) as [B1 B2].
  apply binade_unique; rewrite <- H; assumption.
Qed.

Lemma round64_comp (x y : Q) : (x == y)%Q -> round64 x = round64 y.
Proof.
  intros H. unfold round64.
  assert (E : Qeq_bool x 0 = Qeq_bool y 0).
  { destruct (Qeq_bool x 0) eqn:Ex; destruct (Qeq_bool y 0) eqn:Ey; try reflexivity.
    - apply Qeq_bool_iff in Ex. rewrite H in Ex. apply Qeq_bool_iff in Ex. congruence.
    - apply Qeq_bool_iff in Ey. rewrite <- H in Ey. apply Qeq_bool_iff in Ey. congruence. }
  rewrite <- E. destruct (Qeq_bool x 0) eqn:Ex; [reflexivity|].
  cbv zeta.
  assert (Hx : (0 < Qabs x)%Q).
  { destruct (Qlt_le_dec 0 (Qabs x)) as [Hlt|Hle]; [exact Hlt|].
    exfalso. pose proof (Qabs_nonneg x).
    assert (Hz : (Qabs x == 0)%Q) by lra.
    assert (x == 0)%Q.
    { pose proof (Qle_Qabs x). pose proof (Qle_Qabs (- x)). rewrite Qabs_opp in *. lra. }
    apply Qeq_bool_iff in H1. congruence. }
  assert (Hb : binade (Qabs x) = binade (Qabs y)).
  { apply binade_comp; [exact Hx|]. rewrite H. reflexivity. }
  rewrite <- Hb.
  apply Qred_complete.
  generalize (Z.max (binade (Qabs x) - 52) (-1074)). intros e.
  assert (Hd : (x / pow2 e == y / pow2 e)%Q) by (rewrite H; reflexivity).
  rewrite (nearest_even_comp _ _ Hd). reflexivity.
Qed.

(** Rounding moves a positive number by at most 2^-53 of itself, or by half
    the smallest subnormal. *)
Lemma round64_upper (x : Q) :
  (0 < x)%Q -> (round64 x <= x + x * pow2 (-53) + pow2 (-1075))%Q.
Proof.
  intros Hx. unfold round64.
  replace (Qeq_bool x 0) with false.
  2:{ symmetry. apply not_true_is_false. intros E. apply Qeq_bool_iff in E. lra. }
  cbv zeta. rewrite Qred_correct.
  assert (Ha : binade (Qabs x) = binade x).
  { symmetry. apply binade_comp; [exact Hx|]. rewrite Qabs_pos by lra. reflexivity. }
  rewrite Ha.
  destruct (binade_spec x Hx) as [B1 _].
  set (e := Z.max (binade x - 52) (-1074)).
  pose proof (pow2_pos e) as Pe.
  destruct (nearest_even_close (x / pow2 e)) as [Hc _].
  assert (H1 : (inject_Z (nearest_even (x / pow2 e)) * pow2 e <= x + (1 # 2) * pow2 e)%Q).
  { apply Qle_trans with (y := ((x / pow2 e + (1 # 2)) * pow2 e)%Q).
    - apply Qmult_le_compat_r; [exact Hc|lra].
    - apply Qle_lteq. right. field. lra. }
  assert (H2 : ((1 # 2) * pow2 e <= x * pow2 (-53) + pow2 (-1075))%Q).
  { assert (Hh : forall k, ((1 # 2) * pow2 k == pow2 (k - 1))%Q).
    { intros k. replace k with ((k - 1) + 1) at 1 by lia. rewrite pow2_succ. field. }
    rewrite Hh.
    pose proof (pow2_pos (-53)). pose proof (pow2_pos (-1075)).
    assert (0 <= x * pow2 (-53))%Q by (apply Qmult_le_0_compat; lra).
    destruct (Z.max_spec (binade x - 52) (-1074)) as [[_ Hm]|[_ Hm]]; fold e in Hm; rewrite Hm.
    - change (-1074 - 1) with (-1075). lra.
    - replace (binade x - 52 - 1) with (binade x + (-53)) by lia.
      rewrite pow2_add.
      assert (pow2 (binade x) * pow2 (-53) <= x * pow2 (-53))%Q
        by (apply Qmult_le_compat_r; lra).
      lra. }
  lra.
Qed.

(** A product by a factor below one stays below the other factor after
    rounding. *)
Lemma round64_below (r : Q) (n : Z) :
  (0 <= r)%Q -> (r <= 1 - pow2 (-53))%Q -> 1 <= n ->
  (round64 (r * inject_Z n) < inject_Z n)%Q.
Proof.
  intros Hr0 Hr1 Hn.
  assert (HN : (1 <= inject_Z n)%Q) by (change 1%Q with (inject_Z 1); rewrite <- Zle_Qle; exact Hn).
  set (N := inject_Z n) in *.
  destruct (Qlt_le_dec 0 (r * N)) as [Hpos|Hz].
  - pose proof (round64_upper _ Hpos) as Hup.
    set (u := pow2 (-53)) in *.
    assert (Hu : (u == 1 # 9007199254740992)%Q) by (vm_compute; reflexivity).
    assert (Hsub : (pow2 (-1075) < u * u)%Q) by (vm_compute; reflexivity).
    assert (HrN : (r * N <= (1 - u) * N)%Q) by (apply Qmult_le_compat_r; lra).
    assert (Hprod : ((1 - u) * N * u + u * u <= u * N)%Q).
    { assert (0 <= u * u * (N - 1))%Q by (apply Qmult_le_0_compat; [rewrite Hu|]; lra).
      lra. }
    assert (HruN : (r * N * u <= (1 - u) * N * u)%Q)
      by (apply Qmult_le_compat_r; [exact HrN|rewrite Hu; lra]).
    lra.
  - assert (Hzero : (r * N == 0)%Q).
    { assert (0 <= r * N)%Q by (apply Qmult_le_0_compat; lra). lra. }
    rewrite (round64_comp _ _ Hzero). change (round64 0) with 0%Q. lra.
Qed.

(** *** Rules for the concurrent probes *)

Section ProbeRules.

Context (cfg : Config).

Lemma preserves_probe_loop {X : Type} (f : St -> X) (p : ProbeEnv)
    (answers : list (string * VM)) (terminating : list string) :
  (forall id vm, preserves f (refresh_resumes cfg p id vm)) ->
  (forall id, preserves f (refresh_deletes id)) ->
  preserves f (probe_loop cfg p answers terminating).
Proof.
  intros Hr Hd. revert terminating.
  induction answers as [|[instanceId vm] rest IH]; intros terminating; simpl.
  - apply preserves_forEach; exact Hd.
  - apply preserves_bind; [apply preserves_forEach; exact Hd|].
    intros _. apply preserves_bind; [apply Hr|]. intros called. apply IH.
Qed.

Lemma keeps_probe_loop (I : St -> Prop) (p : ProbeEnv)
    (answers : list (string * VM)) (terminating : list string) :
  (forall id vm, keeps I (refresh_resumes cfg p id vm)) ->
  (forall id, keeps I (refresh_deletes id)) ->
  keeps I (probe_loop cfg p answers terminating).
Proof.
  intros Hr Hd. revert terminating.
  induction answers as [|[instanceId vm] rest IH]; intros terminating; simpl.
  - apply keeps_forEach; exact Hd.
  - apply keeps_bind; [apply keeps_forEach; exact Hd|].
    intros _. apply keeps_bind; [apply Hr|]. intros called. apply IH.
Qed.

Lemma emits_probe_loop (P : Event -> Prop) (p : ProbeEnv)
    (answers : list (string * VM)) (terminating : list string) :
  (forall id vm, emits P (refresh_resumes cfg p id vm)) ->
  (forall id, emits P (refresh_deletes id)) ->
  emits P (probe_loop cfg p answers terminating).
Proof.
  intros Hr Hd. revert terminating.
  induction answers as [|[instanceId vm] rest IH]; intros terminating; simpl.
  - apply emits_forEach; exact Hd.
  - apply emits_bind; [apply emits_forEach; exact Hd|].
    intros _. apply emits_bind; [apply Hr|]. intros called. apply IH.
Qed.

End ProbeRules.

(** ** The registry: lemmas *)

Lemma get_update_same (id : string) (vm old : VM) (p : list (string * VM)) :
  Pool.get id p = Some old -> Pool.get id (Pool.update id vm p) = Some vm.
Proof.
  induction p as [|[k v] p IH]; simpl; [discriminate|].
  destruct (String.eqb id k) eqn:E; simpl; rewrite E; auto.
Qed.

Lemma get_update_other (id id' : string) (vm : VM) (p : list (string * VM)) :
  id <> id' -> Pool.get id' (Pool.update id vm p) = Pool.get id' p.
Proof.
  intros Hne. induction p as [|[k v] p IH]; simpl; [reflexivity|].
  destruct (String.eqb id k) eqn:E; simpl.
  - apply String.eqb_eq in E; subst k.
    destruct (String.eqb id' id) eqn:E'; [|reflexivity].
    apply String.eqb_eq in E'; congruence.
  - rewrite IH; reflexivity.
Qed.

Lemma keys_update (id : string) (vm : VM) (p : list (string * VM)) :
  Pool.keys (Pool.update id vm p) = Pool.keys p.
Proof.
  unfold Pool.keys.
  induction p as [|[k v] p IH]; simpl; [reflexivity|].
  destruct (String.eqb id k); simpl; [reflexivity|].
  rewrite IH; reflexivity.
Qed.

Lemma size_update (id : string) (vm : VM) (p : list (string * VM)) :
  Pool.size (Pool.update id vm p) = Pool.size p.
Proof.
  unfold Pool.size. f_equal.
  induction p as [|[k v] p IH]; simpl; [reflexivity|].
  destruct (String.eqb id k); simpl; congruence.
Qed.

Lemma keys_alter (f : VM -> VM) (id : string) (p : list (string * VM)) :
  Pool.keys (Pool.alter f id p) = Pool.keys p.
Proof.
  unfold Pool.keys.
  induction p as [|[k v] p IH]; simpl; [reflexivity|].
  destruct (String.eqb id k); simpl; [reflexivity|].
  rewrite IH; reflexivity.
Qed.

Lemma get_alter_same (f : VM -> VM) (id : string) (p : list (string * VM)) :
  Pool.get id (Pool.alter f id p) = option_map f (Pool.get id p).
Proof.
  induction p as [|[k v] p IH]; simpl; [reflexivity|].
  destruct (String.eqb id k) eqn:E; simpl; rewrite E; auto.
Qed.

Lemma get_alter_other (f : VM -> VM) (id id' : string) (p : list (string * VM)) :
  id <> id' -> Pool.get id' (Pool.alter f id p) = Pool.get id' p.
Proof.
  intros Hne. induction p as [|[k v] p IH]; simpl; [reflexivity|].
  destruct (String.eqb id k) eqn:E; simpl.
  - apply String.eqb_eq in E; subst k.
    destruct (String.eqb id' id) eqn:E'; [|reflexivity].
    apply String.eqb_eq in E'; congruence.
  - rewrite IH; reflexivity.
Qed.

Lemma size_delete (id : string) (p : list (string * VM)) :
  Pool.size (Pool.delete id p) <= Pool.size p.
Proof.
  unfold Pool.size, Pool.delete.
  apply inj_le, List.filter_length_le.
Qed.

Lemma get_delete_same (id : string) (p : list (string * VM)) :
  Pool.get id (Pool.delete id p) = None.
Proof.
  induction p as [|[k v] p IH]; simpl; [reflexivity|].
  destruct (String.eqb id k) eqn:E; simpl; [assumption|].
  rewrite E; assumption.
Qed.

Lemma get_delete_other (id id' : string) (p : list (string * VM)) :
  id <> id' -> Pool.get id' (Pool.delete id p) = Pool.get id' p.
Proof.
  intros Hne. induction p as [|[k v] p IH]; simpl; [reflexivity|].
  destruct (String.eqb id k) eqn:E; simpl.
  - apply String.eqb_eq in E; subst k.
    destruct (String.eqb id' id) eqn:E'; [|assumption].
    apply String.eqb_eq in E'; congruence.
  - rewrite IH; reflexivity.
Qed.

Lemma size_set (id : string) (vm : VM) (p : list (string * VM)) :
  Pool.size (Pool.set id vm p) <= Pool.size p + 1.
Proof.
  unfold Pool.size.
  induction p as [|[k v] p IH]; simpl List.length.
  - simpl; lia.
  - simpl. destruct (String.eqb id k); simpl List.length; lia.
Qed.

Lemma get_set_same (id : string) (vm : VM) (p : list (string * VM)) :
  Pool.get id (Pool.set id vm p) = Some vm.
Proof.
  induction p as [|[k v] p IH]; simpl.
  - rewrite String.eqb_refl; reflexivity.
  - destruct (String.eqb id k) eqn:E; simpl; rewrite E; auto.
Qed.

Lemma get_set_other (id id' : string) (vm : VM) (p : list (string * VM)) :
  id <> id' -> Pool.get id' (Pool.set id vm p) = Pool.get id' p.
Proof.
  intros Hne. induction p as [|[k v] p IH]; simpl.
  - destruct (String.eqb id' id) eqn:E'; [|reflexivity].
    apply String.eqb_eq in E'; congruence.
  - destruct (String.eqb id k) eqn:E; simpl.
    + apply String.eqb_eq in E; subst k.
      destruct (String.eqb id' id) eqn:E'; [|reflexivity].
      apply String.eqb_eq in E'; congruence.
    + rewrite IH; reflexivity.
Qed.

Lemma get_in_keys (id : string) (p : list (string * VM)) :
  Pool.get id p <> None <-> In id (Pool.keys p).
Proof.
  induction p as [|[k v] p IH]; simpl.
  - split; [congruence | tauto].
  - destruct (String.eqb id k) eqn:E.
    + apply String.eqb_eq in E; subst. split; [auto | discriminate].
    + apply String.eqb_neq in E. rewrite IH. split; [auto|].
      intros [H|H]; [congruence | assumption].
Qed.

Lemma get_none_keys (id : string) (p : list (string * VM)) :
  Pool.get id p = None <-> ~ In id (Pool.keys p).
Proof.
  rewrite <- get_in_keys. destruct (Pool.get id p) as [vm|].
  - split; [discriminate|]. intros H. exfalso. apply H. discriminate.
  - split; [intros _ H; apply H; reflexivity | reflexivity].
Qed.

Lemma size_of_keys (p q : list (string * VM)) :
  Pool.keys p = Pool.keys q -> Pool.size p = Pool.size q.
Proof.
  unfold Pool.keys, Pool.size. intros H.
  assert (E : List.length (List.map fst p) = List.length (List.map fst q))
    by (rewrite H; reflexivity).
  clear H. revert q E. induction p as [|a p IH]; intros [|b q]; simpl; intros E;
    try discriminate; [reflexivity|].
  injection E as E. specialize (IH q E). lia.
Qed.

(** ** The status probe *)

Section Probe.

Context (cfg : Config).

Lemma Qlt_bool_true (a b : Q) : Qlt_bool a b = true <-> (a < b)%Q.
Proof.
  unfold Qlt_bool. rewrite negb_true_iff.
  split; intros H.
  - apply Qnot_le_lt. intros Hle. apply Qle_bool_iff in Hle. congruence.
  - destruct (Qle_bool b a) eqn:E; [|reflexivity].
    apply Qle_bool_iff in E. exfalso. apply (Qlt_not_le _ _ H E).
Qed.

Lemma Qlt_bool_false (a b : Q) : Qlt_bool a b = false <-> (b <= a)%Q.
Proof.
  unfold Qlt_bool. rewrite negb_false_iff. apply Qle_bool_iff.
Qed.

Lemma probe_matchCount_nonneg (data : Js.val) : (0 <= probe_matchCount data)%Q.
Proof.
  unfold probe_matchCount.
  destruct (Qlt_bool _ 0) eqn:E.
  - apply Qle_refl.
  - apply Qlt_bool_false in E; exact E.
Qed.

Lemma refresh_success (p : ProbeEnv) (instanceId : string) (vm : VM) (st : St) (data : Js.val) :
  status p instanceId = Some data ->
  refreshVmStatus cfg p instanceId vm st =
  (true, probed (probe_matchCount data) (status_at p instanceId) vm,
   set_pool (Pool.update instanceId
               (probed (probe_matchCount data) (status_at p instanceId) vm))
     (set_clock (status_at p instanceId) st),
   []).
Proof.
  intros H. unfold refreshVmStatus. rewrite H. reflexivity.
Qed.

(** C7, as amended. A successful status probe stores a non-negative finite
    number as [matchCount], in the object it was given and in the registry
    entry of that VM: [0] when [activeMatches] is not a finite number
    (absent, a string, [NaN], infinite) or is negative, and the reported
    number itself otherwise, so an integer whenever the worker reports one.
    No rounding takes place. *)
Theorem probe_stores_nonnegative_count
    (p : ProbeEnv) (instanceId : string) (vm : VM) (st : St) (data : Js.val) :
  status p instanceId = Some data ->
  let r := refreshVmStatus cfg p instanceId vm st in
  let stored := matchCount (snd (result_of r)) in
  fst (result_of r) = true /\
  (forall old, Pool.get instanceId (vmPool st) = Some old ->
     Pool.get instanceId (vmPool (state_of r)) = Some (snd (result_of r))) /\
  (0 <= stored)%Q /\
  (Js.isFinite (Js.field data "activeMatches") = false -> stored = 0%Q) /\
  (forall q, Js.field data "activeMatches" = Js.Num (Js.Finite q) ->
     (q < 0)%Q -> stored = 0%Q) /\
  (forall q, Js.field data "activeMatches" = Js.Num (Js.Finite q) ->
     (0 <= q)%Q -> stored = q) /\
  (forall q, Js.field data "activeMatches" = Js.Num (Js.Finite q) ->
     is_integer q -> is_integer stored).
Proof.
  intros H r stored. subst r stored.
  rewrite (refresh_success _ _ _ _ _ H).
  unfold result_of, state_of; simpl.
  split; [reflexivity|].
  split; [intros old Hold; eapply get_update_same; eassumption|].
  split; [apply probe_matchCount_nonneg|].
  unfold probe_matchCount.
  repeat split.
  - intros Hnf. rewrite Hnf. reflexivity.
  - intros q Hq Hneg. rewrite Hq. simpl.
    apply Qlt_bool_true in Hneg. rewrite Hneg. reflexivity.
  - intros q Hq Hpos. rewrite Hq. simpl.
    apply Qlt_bool_false in Hpos. rewrite Hpos. reflexivity.
  - intros q Hq Hint. rewrite Hq. simpl.
    destruct (Qlt_bool q 0); [|assumption].
    exists 0; reflexivity.
Qed.

End Probe.

(** Witness of [probe_stores_nonnegative_count]: the worker of ["A"]
    reports [3]. *)
Lemma probe_stores_nonnegative_count_witness :
  status (reports (Js.Num (Js.Finite 3))) "A"
    = Some (Js.Obj [("activeMatches", Js.Num (Js.Finite 3))]) /\
  let r := refreshVmStatus default_config (reports (Js.Num (Js.Finite 3))) "A" vmA one_vm in
  fst (result_of r) = true /\ (0 <= matchCount (snd (result_of r)))%Q.
Proof.
  split; [reflexivity|].
  pose proof (probe_stores_nonnegative_count default_config
                (reports (Js.Num (Js.Finite 3))) "A" vmA one_vm _ eq_refl) as H.
  simpl in H. destruct H as (H1 & _ & H3 & _). split; assumption.
Defined.

(** C7, as stated, fails: a worker that reports [activeMatches: 2.5] gets
    [2.5] stored as its [matchCount], which is not an integer. *)
Lemma fractional_count_is_stored :
  let r := refreshVmStatus default_config (reports (Js.Num (Js.Finite (5 # 2)))) "A" vmA one_vm in
  fst (result_of r) = true /\
  option_map matchCount (Pool.get "A" (vmPool (state_of r))) = Some (5 # 2)%Q /\
  ~ is_integer (5 # 2).
Proof.
  split; [reflexivity|]. split; [reflexivity|].
  intros [z Hz]. unfold Qeq in Hz; simpl in Hz. lia.
Qed.

(** ** Behaviour at particular inputs *)

(** C1: the code breaks the invariant. A process that has just started (empty
    registry, no protected VM) receives a valid match request; there is no
    candidate, so a VM is launched; it does not become ready within the 40
    polls. Line 177 has already made it the protected VM when line 185
    removes it: the request ends with [protectedVM] naming an instance
    that is not in [vmPool]. *)
Theorem launch_timeout_leaves_dangling_protectedVM :
  let r := handleMatchRequest default_config "Public"
             (request "m1" "VersusMen_Online") outage (init 0) in
  code (result_of r) = 503 /\
  List.map call (log_of r)
    = [RunInstances (Some "ins-1"); TerminateInstances LaunchCleanup "ins-1"] /\
  protectedVM (state_of r) = Some "ins-1" /\
  vmPool (state_of r) = [] /\
  Pool.get "ins-1" (vmPool (state_of r)) = None /\
  ~ pointer_valid (state_of r).
Proof.
  vm_compute. splits; try reflexivity.
  intros [H|H]; [discriminate | apply H; reflexivity].
Qed.

(** C2: the code does not filter on [unreachableCount]. The only VM, ["A"],
    does not answer its probe, so its [unreachableCount] becomes 1; it is
    nevertheless the candidate that [getAvailableVM] returns. *)
Theorem unreachable_vm_is_a_candidate :
  let r := getAvailableVM default_config silent_workers (never_ready "ins-1") one_vm in
  result_of r = Some ("A", "10.0.0.1") /\
  option_map unreachableCount (Pool.get "A" (vmPool (state_of r))) = Some 1 /\
  log_of r = [].
Proof. vm_compute. repeat split. Qed.

(** C9: the guard of line 390 lets through a [gameMode] that is not a key of
    the scene mapping. ["constructor"] is inherited from [Object.prototype],
    so [SCENE_MAP["constructor"]] is a function, which is truthy: the
    request is not answered 400, the probe rewrites the record of ["A"], the
    match is started and recorded, and the count of ["A"] is bumped. *)
Theorem inherited_property_passes_validation :
  let r := handleMatchRequest default_config "Public"
             (request "m2" "constructor") (healthy 3 7001) one_vm in
  is_scene_key "constructor" = false /\
  code (result_of r) = 200 /\
  vmPool (state_of r) <> vmPool one_vm /\
  option_map matchCount (Pool.get "A" (vmPool (state_of r))) = Some (3 + 1)%Q /\
  option_map vmInstanceId (matches (state_of r) !! "m2") = Some "A".
Proof.
  vm_compute. repeat split. discriminate.
Qed.

(** ** Launching *)

Section Launch.

Context (cfg : Config).

Lemma pollLoop_spec (e : LaunchEnv) (instanceId : string) (n i : nat) (st : St) :
  let r := pollLoop e instanceId n i st in
  log_of r = [] /\
  matches (state_of r) = matches st /\
  protectedVM (state_of r) = protectedVM st /\
  launching (state_of r) = launching st /\
  match result_of r with
  | Some ip0 =>
      vmPool (state_of r)
        = Pool.set instanceId (fresh_vm ip0 (clock (state_of r))) (vmPool st)
  | None => vmPool (state_of r) = vmPool st
  end.
Proof.
  revert i st. induction n as [|n IH]; intros i st; cbn zeta.
  - repeat split.
  - simpl pollLoop. rewrite result_of_bind, state_of_bind, log_of_bind.
    change (state_of (await (poll_at e i) st)) with (set_clock (poll_at e i) st).
    change (log_of (await (poll_at e i) st)) with (@nil Event).
    rewrite app_nil_l.
    destruct (poll e i) as [inst|];
      [destruct (PublicIpAddresses inst) as [|ip0 ips];
       [|destruct (is_running inst)]|];
      try exact (IH (S i) (set_clock (poll_at e i) st)).
    repeat split.
Qed.

#[local] Opaque maxPoll.

Lemma launch_attempt_eq (e : LaunchEnv) (st : St) :
  launch_attempt e st =
  let run_ev := {| call := RunInstances (run_reply e); at_state := st |} in
  match run_reply e with
  | None => (None, st, [run_ev])
  | Some instanceId =>
      if String.eqb instanceId "" then (None, st, [run_ev])
      else
        let r := pollLoop e instanceId maxPoll 0 st in
        let s2 := after_protect instanceId (state_of r) in
        let cleanup :=
          (None, set_pool (Pool.delete instanceId) s2,
           [run_ev; {| call := TerminateInstances LaunchCleanup instanceId;
                       at_state := s2 |}]) in
        match result_of r with
        | Some ip1 =>
            if String.eqb ip1 "" then cleanup
            else (Some (instanceId, ip1), s2, [run_ev])
        | None => cleanup
        end
  end.
Proof.
  unfold launch_attempt. rewrite bind_unfold.
  change (state_of (cloud (RunInstances (run_reply e)) st)) with st.
  change (log_of (cloud (RunInstances (run_reply e)) st))
    with [ {| call := RunInstances (run_reply e); at_state := st |} ].
  destruct (run_reply e) as [instanceId|]; [|reflexivity].
  destruct (String.eqb instanceId "") eqn:E; [reflexivity|].
  cbn zeta.
  rewrite bind_unfold.
  destruct (pollLoop_spec e instanceId maxPoll 0 st) as (Hlog & _).
  rewrite Hlog.
  set (r := pollLoop e instanceId maxPoll 0 st).
  unfold after_protect.
  rewrite bind_unfold.
  change (result_of (get_state (state_of r))) with (state_of r).
  change (state_of (get_state (state_of r))) with (state_of r).
  rewrite bind_unfold.
  destruct (Js.falsy_str (protectedVM (state_of r)));
    destruct (result_of r) as [ip1|]; try destruct (String.eqb ip1 ""); reflexivity.
Qed.

Lemma launchBackupVM_eq (e : LaunchEnv) (st : St) :
  launchBackupVM cfg e st =
  if launching st then (None, st, [])
  else if MAX_BACKUP_VMS cfg <=? Pool.size (vmPool st) then (None, st, [])
  else
    let r := launch_attempt e (set_launching true st) in
    (result_of r, set_launching false (state_of r), log_of r).
Proof.
  unfold launchBackupVM. rewrite bind_unfold.
  change (result_of (get_state st)) with st.
  change (state_of (get_state st)) with st.
  destruct (launching st); [reflexivity|].
  destruct (MAX_BACKUP_VMS cfg <=? Pool.size (vmPool st)); [reflexivity|].
  rewrite !bind_unfold. simpl.
  rewrite !app_nil_r. reflexivity.
Qed.

Lemma launch_attempt_props (e : LaunchEnv) (st : St) :
  let r := launch_attempt e st in
  launches (log_of r) = 1%nat /\
  Pool.size (vmPool (state_of r)) <= Pool.size (vmPool st) + 1 /\
  matches (state_of r) = matches st /\
  launching (state_of r) = launching st /\
  Forall (fun ev => launch_call (call ev)) (log_of r) /\
  (forall id ip1, result_of r = Some (id, ip1) ->
     Pool.get id (vmPool (state_of r)) = Some (fresh_vm ip1 (clock (state_of r)))).
Proof.
  cbn zeta. rewrite launch_attempt_eq. cbn zeta.
  destruct (run_reply e) as [instanceId|];
    [destruct (String.eqb instanceId "") eqn:E|];
    try (simpl; unfold launches; simpl; splits; intros;
         try lia; try discriminate; try assumption; repeat constructor; fail).
  pose proof (pollLoop_spec e instanceId maxPoll 0 st) as H. cbn zeta in H.
  destruct (pollLoop e instanceId maxPoll 0 st) as [[res s1] plog].
  simpl in H. destruct H as (Hlog & Hm & Hp & Hl & Hpool).
  assert (Hsz : Pool.size (vmPool s1) <= Pool.size (vmPool st) + 1).
  { destruct res; rewrite Hpool; [apply size_set | lia]. }
  assert (Hap : vmPool (after_protect instanceId s1) = vmPool s1
                /\ matches (after_protect instanceId s1) = matches s1
                /\ launching (after_protect instanceId s1) = launching s1
                /\ clock (after_protect instanceId s1) = clock s1).
  { unfold after_protect. destruct (Js.falsy_str _); repeat split. }
  destruct Hap as (Hap1 & Hap2 & Hap3 & Hap4).
  pose proof (size_delete instanceId (vmPool s1)) as Hdel.
  simpl.
  destruct res as [ip1|]; [destruct (String.eqb ip1 "") eqn:E1|];
    simpl; rewrite ?Hap1, ?Hap2, ?Hap3, ?Hap4;
    (split; [reflexivity|]);
    (split; [lia|]);
    (split; [assumption|]); (split; [assumption|]);
    (split; [repeat constructor|]);
    intros id ip2 Heq; try discriminate.
  inversion Heq; subst. rewrite Hpool. apply get_set_same.
Qed.

Lemma launchBackupVM_props (e : LaunchEnv) (st : St) :
  let r := launchBackupVM cfg e st in
  (launches (log_of r) <= 1)%nat /\
  Pool.size (vmPool (state_of r)) <= Pool.size (vmPool st) + 1 /\
  (launches (log_of r) = 0%nat -> state_of r = st) /\
  (launches (log_of r) <> 0%nat ->
     Pool.size (vmPool st) < MAX_BACKUP_VMS cfg /\
     Pool.size (vmPool (state_of r)) <= MAX_BACKUP_VMS cfg) /\
  matches (state_of r) = matches st /\
  launching (state_of r) = launching st /\
  Forall (fun ev => launch_call (call ev)) (log_of r) /\
  (forall id ip1, result_of r = Some (id, ip1) ->
     Pool.get id (vmPool (state_of r)) = Some (fresh_vm ip1 (clock (state_of r)))).
Proof.
  cbn zeta. rewrite launchBackupVM_eq.
  destruct (launching st) eqn:Hl;
    [|destruct (MAX_BACKUP_VMS cfg <=? Pool.size (vmPool st)) eqn:Hmax];
    try (simpl; unfold launches; simpl; splits; intros;
         try lia; try discriminate; try assumption; try reflexivity;
         try constructor; fail).
  apply Z.leb_gt in Hmax.
  destruct (launch_attempt_props e (set_launching true st))
    as (Hn & Hsz & Hm & _ & Hev & Hres).
  cbn zeta. simpl.
  simpl in Hsz, Hm.
  splits; intros; try assumption; try lia; auto.
Qed.

End Launch.

(** ** What each step may log and what it leaves alone *)

Section Frames.

Context (cfg : Config).

Lemma choose_protected_silent : emits nothing_logged choose_protected.
Proof. unfold choose_protected. emits_auto. Qed.

Lemma syncWithCloud_silent (e : SyncEnv) : emits nothing_logged (syncWithCloud e).
Proof.
  unfold syncWithCloud, sync_remove, sync_add.
  emits_auto; apply choose_protected_silent.
Qed.

Lemma recomputeProtectedVM_silent : emits nothing_logged recomputeProtectedVM.
Proof.
  unfold recomputeProtectedVM.
  emits_auto; apply choose_protected_silent.
Qed.

Lemma refreshVmStatus_emits (p : ProbeEnv) (instanceId : string) (vm : VM) :
  emits health_call (refreshVmStatus cfg p instanceId vm).
Proof.
  unfold refreshVmStatus. emits_auto.
  exists instanceId; left; reflexivity.
Qed.

Lemma terminate_if_idle_emits (instanceId : string) (vm : VM) :
  emits health_call (terminate_if_idle cfg instanceId vm).
Proof.
  unfold terminate_if_idle. emits_auto.
  exists instanceId; right; reflexivity.
Qed.

Lemma healthLoop_emits (p : ProbeEnv) (entries : list (string * VM)) (total : Q) :
  emits health_call (healthLoop cfg p entries total).
Proof.
  revert total. induction entries as [|[instanceId vm] rest IH]; intros total; simpl.
  - apply emits_ret.
  - apply emits_bind; [apply refreshVmStatus_emits|].
    intros r. destruct (fst r); [|apply IH].
    apply emits_bind; [apply terminate_if_idle_emits | intros _; apply IH].
Qed.

Lemma healthRefresh_emits (p : ProbeEnv) : emits health_call (healthRefresh cfg p).
Proof.
  unfold healthRefresh. apply emits_bind; [apply emits_get|].
  intros st. apply healthLoop_emits.
Qed.

Lemma observe_emits (e : TickEnv) : emits health_call (observe cfg e).
Proof.
  unfold observe. apply emits_bind.
  - eapply emits_weaken; [|apply syncWithCloud_silent]. intros ev [].
  - intros _. apply healthRefresh_emits.
Qed.

Lemma health_call_no_launch (log : list Event) :
  Forall health_call log -> launches log = 0%nat.
Proof.
  intros H. apply launches_none. eapply List.Forall_impl; [|exact H].
  intros ev [id [Hc|Hc]]; rewrite Hc; reflexivity.
Qed.

Lemma choose_protected_pool : preserves vmPool choose_protected.
Proof. unfold choose_protected. frame. Qed.

Lemma recomputeProtectedVM_pool : preserves vmPool recomputeProtectedVM.
Proof. unfold recomputeProtectedVM. frame; apply choose_protected_pool. Qed.

End Frames.

(** ** Scaling: the top-up and scale-up steps *)

Section Scaling.

Context (cfg : Config).

(** Closes the case in which a step returns without doing anything. *)
Ltac idle_case :=
  simpl; change (launches []) with 0%nat;
  splits; intros; try reflexivity; try lia; try congruence; try (constructor; fail).

Lemma launch_then_ret (e : LaunchEnv) (st : St) :
  (launchBackupVM cfg e ;; ret tt) st =
  (tt, state_of (launchBackupVM cfg e st), log_of (launchBackupVM cfg e st)).
Proof. rewrite bind_unfold. simpl. rewrite app_nil_r. reflexivity. Qed.

(** The loop of lines 368-370. *)
Lemma topup_loop (l : nat -> LaunchEnv) (ns : list nat) (st : St) :
  let r := forEach ns (fun i => launchBackupVM cfg (l i) ;; ret tt) st in
  (launches (log_of r) <= List.length ns)%nat /\
  Pool.size (vmPool (state_of r)) <= Pool.size (vmPool st) + Z.of_nat (List.length ns) /\
  (launches (log_of r) = 0%nat -> state_of r = st) /\
  (launches (log_of r) <> 0%nat -> Pool.size (vmPool (state_of r)) <= MAX_BACKUP_VMS cfg) /\
  matches (state_of r) = matches st /\
  Forall (fun ev => launch_call (call ev)) (log_of r).
Proof.
  revert st. induction ns as [|i ns IH]; intros st; cbn zeta.
  - idle_case.
  - simpl forEach. rewrite bind_unfold. rewrite launch_then_ret. simpl.
    destruct (launchBackupVM_props cfg (l i) st)
      as (Hn & Hsz & H0 & Hpos & Hm & _ & Hev & _).
    cbn zeta in *.
    set (s1 := state_of (launchBackupVM cfg (l i) st)) in *.
    destruct (IH s1) as (IHn & IHsz & IH0 & IHpos & IHm & IHev).
    cbn zeta in *.
    rewrite launches_app.
    splits.
    + lia.
    + lia.
    + intros Hz.
      assert (Ha : launches (log_of (launchBackupVM cfg (l i) st)) = 0%nat) by lia.
      rewrite IH0 by lia. apply H0; exact Ha.
    + intros Hnz.
      destruct (Nat.eq_dec
                  (launches (log_of (forEach ns
                     (fun i0 => launchBackupVM cfg (l i0) ;; ret tt) s1))) 0%nat) as [Hz|Hz].
      * rewrite (IH0 Hz). apply Hpos. lia.
      * apply IHpos; exact Hz.
    + congruence.
    + apply Forall_app; split; assumption.
Qed.

Lemma ensureMinimum_props (l : nat -> LaunchEnv) (st : St) :
  let r := ensureMinimum cfg l st in
  (launches (log_of r)
     <= Z.to_nat (MIN_BACKUP_VMS cfg - Pool.size (vmPool st)))%nat /\
  Pool.size (vmPool (state_of r))
     <= Z.max (Pool.size (vmPool st)) (MIN_BACKUP_VMS cfg) /\
  (launches (log_of r) = 0%nat -> state_of r = st) /\
  (launches (log_of r) <> 0%nat -> Pool.size (vmPool (state_of r)) <= MAX_BACKUP_VMS cfg) /\
  matches (state_of r) = matches st /\
  Forall (fun ev => launch_call (call ev)) (log_of r).
Proof.
  cbn zeta. unfold ensureMinimum. rewrite bind_unfold.
  change (result_of (get_state st)) with st.
  change (state_of (get_state st)) with st.
  change (log_of (get_state st)) with (@nil Event).
  rewrite app_nil_l.
  destruct (Pool.size (vmPool st) <? MIN_BACKUP_VMS cfg) eqn:E.
  - apply Z.ltb_lt in E.
    destruct (topup_loop l
                (List.seq 0 (Z.to_nat (MIN_BACKUP_VMS cfg - Pool.size (vmPool st)))) st)
      as (Hn & Hsz & H0 & Hpos & Hm & Hev).
    cbn zeta in *. rewrite length_seq in *.
    simpl. splits; try assumption. lia.
  - apply Z.ltb_ge in E. idle_case.
Qed.

Lemma scaleUp_props (l : LaunchEnv) (total : Q) (st : St) :
  let r := scaleUp cfg l total st in
  (launches (log_of r) <= 1)%nat /\
  (launches (log_of r) = 0%nat -> state_of r = st) /\
  (launches (log_of r) <> 0%nat -> Pool.size (vmPool (state_of r)) <= MAX_BACKUP_VMS cfg) /\
  matches (state_of r) = matches st /\
  Forall (fun ev => launch_call (call ev)) (log_of r).
Proof.
  cbn zeta. unfold scaleUp. rewrite bind_unfold.
  change (result_of (get_state st)) with st.
  change (state_of (get_state st)) with st.
  change (log_of (get_state st)) with (@nil Event).
  rewrite app_nil_l.
  destruct (Qle_bool total (inject_Z (NEAR_CAPACITY_THRESHOLD cfg))
            && (Pool.size (vmPool st) <? MAX_BACKUP_VMS cfg)).
  - rewrite launch_then_ret. simpl.
    destruct (launchBackupVM_props cfg l st) as (Hn & _ & H0 & Hpos & Hm & _ & Hev & _).
    cbn zeta in *. splits; try assumption. intros H; apply Hpos; exact H.
  - idle_case.
Qed.

(** The log of a tick is the logs of its steps, in order. *)
Lemma updateVMs_log (e : TickEnv) (st : St) :
  let s1 := state_of (observe cfg e st) in
  let total := result_of (observe cfg e st) in
  let s2 := state_of (ensureMinimum cfg (tk_topup e) s1) in
  log_of (updateVMs cfg e st) =
  log_of (observe cfg e st) ++
  log_of (ensureMinimum cfg (tk_topup e) s1) ++
  log_of (scaleUp cfg (tk_scaleup e) total s2).
Proof.
  cbn zeta. unfold updateVMs.
  repeat (rewrite log_of_bind; cbv beta).
  f_equal. f_equal.
  rewrite (proj2 (Forall_nil_iff_log (log_of (recomputeProtectedVM _)))).
  - simpl. rewrite app_nil_r. reflexivity.
  - apply recomputeProtectedVM_silent.
Qed.

Lemma updateVMs_pool (e : TickEnv) (st : St) :
  let s1 := state_of (observe cfg e st) in
  let total := result_of (observe cfg e st) in
  let s2 := state_of (ensureMinimum cfg (tk_topup e) s1) in
  vmPool (state_of (updateVMs cfg e st))
  = vmPool (state_of (scaleUp cfg (tk_scaleup e) total s2)).
Proof.
  cbn zeta. unfold updateVMs.
  repeat (rewrite state_of_bind; cbv beta).
  rewrite recomputeProtectedVM_pool. reflexivity.
Qed.


End Scaling.


(** ** The launch amid other operations *)

Section AmidLaunch.

Context (meanwhile : AwaitPoint -> St -> St).
Context (cfg : Config).

Lemma amid_pollLoop_spec (e : LaunchEnv) (instanceId : string) (n i : nat) (st : St) :
  let r := Interleaved.pollLoop meanwhile e instanceId n i st in
  log_of r = [] /\
  (registers_nothing meanwhile ->
   Pool.size (vmPool (state_of r)) <= Pool.size (vmPool st) + 1).
Proof.
  revert i st. induction n as [|n IH]; intros i st; cbn zeta.
  - split; [reflexivity|]. intros _. simpl. lia.
  - simpl Interleaved.pollLoop.
    rewrite !state_of_bind, !log_of_bind.
    change (log_of (Interleaved.interfere meanwhile (PollReturns i) st)) with (@nil Event).
    change (state_of (Interleaved.interfere meanwhile (PollReturns i) st))
      with (meanwhile (PollReturns i) st).
    change (log_of (await (poll_at e i) (meanwhile (PollReturns i) st))) with (@nil Event).
    change (state_of (await (poll_at e i) (meanwhile (PollReturns i) st)))
      with (set_clock (poll_at e i) (meanwhile (PollReturns i) st)).
    rewrite !app_nil_l.
    set (s1 := set_clock (poll_at e i) (meanwhile (PollReturns i) st)).
    assert (Hs1 : registers_nothing meanwhile ->
                  Pool.size (vmPool s1) <= Pool.size (vmPool st))
      by (intros H; exact (H (PollReturns i) st)).
    assert (Hrec : log_of (Interleaved.pollLoop meanwhile e instanceId n (S i) s1) = [] /\
                   (registers_nothing meanwhile ->
                    Pool.size (vmPool (state_of
                      (Interleaved.pollLoop meanwhile e instanceId n (S i) s1)))
                    <= Pool.size (vmPool st) + 1)).
    { destruct (IH (S i) s1) as [Hl Hsz]. split; [exact Hl|].
      intros H. specialize (Hsz H). specialize (Hs1 H). lia. }
    destruct (poll e i) as [inst|];
      [destruct (PublicIpAddresses inst) as [|ip0 ips];
       [|destruct (is_running inst)]|];
      try exact Hrec.
    split; [reflexivity|]. intros H. simpl.
    etransitivity; [apply size_set|].
    specialize (Hs1 H). simpl in Hs1. lia.
Qed.

#[local] Opaque maxPoll.

Lemma amid_launch_attempt_eq (e : LaunchEnv) (st : St) :
  Interleaved.launch_attempt meanwhile e st =
  let run_ev := {| call := RunInstances (run_reply e); at_state := st |} in
  let s0 := meanwhile RunReturns st in
  match run_reply e with
  | None => (None, s0, [run_ev])
  | Some instanceId =>
      if String.eqb instanceId "" then (None, s0, [run_ev])
      else
        let r := Interleaved.pollLoop meanwhile e instanceId maxPoll 0 s0 in
        let s2 := after_protect instanceId (state_of r) in
        let cleanup :=
          (None, set_pool (Pool.delete instanceId) (meanwhile CleanupReturns s2),
           [run_ev; {| call := TerminateInstances LaunchCleanup instanceId;
                       at_state := s2 |}]) in
        match result_of r with
        | Some ip1 =>
            if String.eqb ip1 "" then cleanup
            else (Some (instanceId, ip1), s2, [run_ev])
        | None => cleanup
        end
  end.
Proof.
  unfold Interleaved.launch_attempt. rewrite bind_unfold.
  change (state_of (cloud (RunInstances (run_reply e)) st)) with st.
  change (log_of (cloud (RunInstances (run_reply e)) st))
    with [ {| call := RunInstances (run_reply e); at_state := st |} ].
  cbv beta. rewrite bind_unfold.
  change (state_of (Interleaved.interfere meanwhile RunReturns st))
    with (meanwhile RunReturns st).
  change (log_of (Interleaved.interfere meanwhile RunReturns st)) with (@nil Event).
  rewrite app_nil_l.
  destruct (run_reply e) as [instanceId|]; [|reflexivity].
  destruct (String.eqb instanceId "") eqn:E; [reflexivity|].
  cbn zeta.
  rewrite bind_unfold.
  destruct (amid_pollLoop_spec e instanceId maxPoll 0 (meanwhile RunReturns st))
    as (Hlog & _).
  rewrite Hlog.
  set (r := Interleaved.pollLoop meanwhile e instanceId maxPoll 0 (meanwhile RunReturns st)).
  unfold after_protect.
  rewrite bind_unfold.
  change (result_of (get_state (state_of r))) with (state_of r).
  change (state_of (get_state (state_of r))) with (state_of r).
  rewrite bind_unfold.
  destruct (Js.falsy_str (protectedVM (state_of r)));
    destruct (result_of r) as [ip1|]; try destruct (String.eqb ip1 ""); reflexivity.
Qed.

Lemma amid_launchBackupVM_eq (e : LaunchEnv) (st : St) :
  Interleaved.launchBackupVM meanwhile cfg e st =
  if launching st then (None, st, [])
  else if MAX_BACKUP_VMS cfg <=? Pool.size (vmPool st) then (None, st, [])
  else
    let r := Interleaved.launch_attempt meanwhile e (set_launching true st) in
    (result_of r, set_launching false (state_of r), log_of r).
Proof.
  unfold Interleaved.launchBackupVM. rewrite bind_unfold.
  change (result_of (get_state st)) with st.
  change (state_of (get_state st)) with st.
  destruct (launching st); [reflexivity|].
  destruct (MAX_BACKUP_VMS cfg <=? Pool.size (vmPool st)); [reflexivity|].
  rewrite !bind_unfold. simpl.
  rewrite !app_nil_r. reflexivity.
Qed.

Lemma size_after_protect (instanceId : string) (st : St) :
  vmPool (after_protect instanceId st) = vmPool st.
Proof. unfold after_protect. destruct (Js.falsy_str (protectedVM st)); reflexivity. Qed.

(** The log of an attempt is its [RunInstances], issued in the state in
    which the attempt starts, and possibly the clean-up that follows a
    time-out; the registry grows by one record at most when the others
    register nothing. *)
Lemma amid_launch_attempt_props (e : LaunchEnv) (st : St) :
  let r := Interleaved.launch_attempt meanwhile e st in
  (exists rest,
     log_of r = {| call := RunInstances (run_reply e); at_state := st |} :: rest /\
     Forall (fun ev => is_run (call ev) = false) rest) /\
  (registers_nothing meanwhile ->
   Pool.size (vmPool (state_of r)) <= Pool.size (vmPool st) + 1).
Proof.
  cbn zeta. rewrite amid_launch_attempt_eq. cbn zeta.
  destruct (run_reply e) as [instanceId|].
  2:{ split; [exists []; split; [reflexivity|constructor]|].
      intros H. simpl. specialize (H RunReturns st). lia. }
  destruct (String.eqb instanceId "").
  { split; [exists []; split; [reflexivity|constructor]|].
    intros H. simpl. specialize (H RunReturns st). lia. }
  destruct (amid_pollLoop_spec e instanceId maxPoll 0 (meanwhile RunReturns st))
    as (_ & Hsz). cbn zeta in Hsz.
  set (r := Interleaved.pollLoop meanwhile e instanceId maxPoll 0 (meanwhile RunReturns st))
    in *.
  assert (Hclean :
    registers_nothing meanwhile ->
    Pool.size (vmPool (set_pool (Pool.delete instanceId)
                 (meanwhile CleanupReturns (after_protect instanceId (state_of r)))))
    <= Pool.size (vmPool st) + 1).
  { intros H. simpl.
    pose proof (size_delete instanceId
                  (vmPool (meanwhile CleanupReturns (after_protect instanceId (state_of r))))).
    pose proof (H CleanupReturns (after_protect instanceId (state_of r))) as H1.
    rewrite size_after_protect in H1.
    specialize (Hsz H). pose proof (H RunReturns st). lia. }
  assert (Hkeep :
    registers_nothing meanwhile ->
    Pool.size (vmPool (after_protect instanceId (state_of r))) <= Pool.size (vmPool st) + 1).
  { intros H. rewrite size_after_protect. specialize (Hsz H).
    pose proof (H RunReturns st). lia. }
  destruct (result_of r) as [ip1|]; [destruct (String.eqb ip1 "")|];
    (split; [eexists; split; [reflexivity|repeat constructor]|]); assumption.
Qed.

(** C8. [launchBackupVM] tests the ceiling when it is entered, before its
    first [await]: when the registry already holds [MAX_BACKUP_VMS] records
    it returns [null] at once, with no cloud call and the state untouched,
    and every [RunInstances] it issues is issued while the registry holds
    fewer than [MAX_BACKUP_VMS] records. The record of the new VM is
    written up to forty polls later. If the operations that run during
    those [await]s do not make the registry larger, the launch leaves it no
    larger than the greater of its former size and [MAX_BACKUP_VMS], and
    the registry holds at most [MAX_BACKUP_VMS] records after a scale-up
    step that issued a launch. *)
Theorem launch_tests_ceiling_on_entry (l : LaunchEnv) (total : Q) (st : St) :
  let launch := Interleaved.launchBackupVM meanwhile cfg l st in
  let step := Interleaved.scaleUp meanwhile cfg l total st in
  (MAX_BACKUP_VMS cfg <= Pool.size (vmPool st) -> launch = (None, st, [])) /\
  (forall ev, In ev (log_of launch) -> is_run (call ev) = true ->
     vmPool (at_state ev) = vmPool st /\
     Pool.size (vmPool st) < MAX_BACKUP_VMS cfg) /\
  (registers_nothing meanwhile ->
     Pool.size (vmPool (state_of launch))
       <= Z.max (Pool.size (vmPool st)) (MAX_BACKUP_VMS cfg)) /\
  (registers_nothing meanwhile ->
     launches (log_of step) <> 0%nat ->
     Pool.size (vmPool (state_of step)) <= MAX_BACKUP_VMS cfg).
Proof.
  cbn zeta.
  assert (Hlaunch :
    (forall ev, In ev (log_of (Interleaved.launchBackupVM meanwhile cfg l st)) ->
       is_run (call ev) = true ->
       vmPool (at_state ev) = vmPool st /\
       Pool.size (vmPool st) < MAX_BACKUP_VMS cfg) /\
    (registers_nothing meanwhile ->
       Pool.size (vmPool (state_of (Interleaved.launchBackupVM meanwhile cfg l st)))
       <= Z.max (Pool.size (vmPool st)) (MAX_BACKUP_VMS cfg)) /\
    (registers_nothing meanwhile ->
       launches (log_of (Interleaved.launchBackupVM meanwhile cfg l st)) <> 0%nat ->
       Pool.size (vmPool (state_of (Interleaved.launchBackupVM meanwhile cfg l st)))
       <= MAX_BACKUP_VMS cfg)).
  { rewrite amid_launchBackupVM_eq.
    destruct (launching st);
      [|destruct (MAX_BACKUP_VMS cfg <=? Pool.size (vmPool st)) eqn:Hmax];
      try (simpl; splits; [intros ev []| intros; lia | intros _ H; exfalso; apply H; reflexivity]).
    apply Z.leb_gt in Hmax.
    destruct (amid_launch_attempt_props l (set_launching true st))
      as ((rest & Hlog & Hrest) & Hsz).
    cbn zeta in *. simpl fst. simpl in Hsz.
    change (log_of (?a, ?b, ?c)) with c.
    change (state_of (?a, ?b, ?c)) with b.
    splits.
    - intros ev Hin Hrun. rewrite Hlog in Hin. destruct Hin as [<-|Hin].
      + simpl. split; [reflexivity|exact Hmax].
      + rewrite List.Forall_forall in Hrest. rewrite (Hrest ev Hin) in Hrun. discriminate.
    - intros H. specialize (Hsz H). simpl. lia.
    - intros H _. specialize (Hsz H). simpl. lia. }
  destruct Hlaunch as (Hrun & Hmaxsz & Hpos).
  splits.
  - intros Hmax. rewrite amid_launchBackupVM_eq.
    destruct (launching st); [reflexivity|].
    apply Z.leb_le in Hmax. rewrite Hmax. reflexivity.
  - exact Hrun.
  - exact Hmaxsz.
  - intros H. unfold Interleaved.scaleUp. rewrite bind_unfold.
    change (result_of (get_state st)) with st.
    change (state_of (get_state st)) with st.
    change (log_of (get_state st)) with (@nil Event).
    rewrite app_nil_l.
    destruct (Qle_bool total (inject_Z (NEAR_CAPACITY_THRESHOLD cfg))
              && (Pool.size (vmPool st) <? MAX_BACKUP_VMS cfg)).
    + rewrite bind_unfold. simpl. rewrite app_nil_r. exact (Hpos H).
    + simpl. intros Hn. exfalso. apply Hn. reflexivity.
Qed.

End AmidLaunch.

(** When nothing else runs, the launch amid other operations is the launch
    of the section [Allocator]. *)
Lemma pollLoop_alone (e : LaunchEnv) (instanceId : string) (n i : nat) (st : St) :
  Interleaved.pollLoop nothing_else e instanceId n i st = pollLoop e instanceId n i st.
Proof.
  revert i st. induction n as [|n IH]; intros i st; [reflexivity|].
  simpl. rewrite !bind_unfold.
  change (state_of (Interleaved.interfere nothing_else (PollReturns i) st)) with st.
  change (log_of (Interleaved.interfere nothing_else (PollReturns i) st)) with (@nil Event).
  rewrite app_nil_l.
  destruct (poll e i) as [inst|];
    [destruct (PublicIpAddresses inst) as [|ip0 ips];
     [|destruct (is_running inst)]|];
    rewrite ?IH; reflexivity.
Qed.

Lemma launchBackupVM_alone (cfg : Config) (e : LaunchEnv) (st : St) :
  Interleaved.launchBackupVM nothing_else cfg e st = launchBackupVM cfg e st.
Proof.
  rewrite amid_launchBackupVM_eq, launchBackupVM_eq.
  destruct (launching st); [reflexivity|].
  destruct (MAX_BACKUP_VMS cfg <=? Pool.size (vmPool st)); [reflexivity|].
  rewrite amid_launch_attempt_eq, launch_attempt_eq. cbn zeta.
  destruct (run_reply e) as [instanceId|]; [|reflexivity].
  destruct (String.eqb instanceId ""); [reflexivity|].
  unfold nothing_else at 2.
  rewrite !pollLoop_alone.
  reflexivity.
Qed.

(** Witness of [launch_tests_ceiling_on_entry]: with a ceiling of one VM
    and nothing else running, a launch from a full registry is refused and
    a scale-up step from an empty one launches the one permitted VM. *)
Lemma launch_tests_ceiling_on_entry_witness :
  (MAX_BACKUP_VMS single_vm_ceiling <= Pool.size (vmPool one_vm) /\
   Interleaved.launchBackupVM nothing_else single_vm_ceiling (never_ready "ins-1") one_vm
     = (None, one_vm, [])) /\
  (registers_nothing nothing_else /\
   launches (log_of (Interleaved.scaleUp nothing_else single_vm_ceiling
                       (ready_at_third_poll "ins-1" "10.0.0.1") 0 (init 0))) <> 0%nat /\
   Pool.size (vmPool (state_of (Interleaved.scaleUp nothing_else single_vm_ceiling
                       (ready_at_third_poll "ins-1" "10.0.0.1") 0 (init 0))))
     <= MAX_BACKUP_VMS single_vm_ceiling).
Proof.
  assert (H1 : MAX_BACKUP_VMS single_vm_ceiling <= Pool.size (vmPool one_vm))
    by (vm_compute; discriminate).
  assert (H2 : registers_nothing nothing_else)
    by (intros pt s; unfold nothing_else; lia).
  assert (H3 : launches (log_of (Interleaved.scaleUp nothing_else single_vm_ceiling
                       (ready_at_third_poll "ins-1" "10.0.0.1") 0 (init 0))) <> 0%nat)
    by (vm_compute; discriminate).
  split; [split|split; [|split]].
  - exact H1.
  - exact (proj1 (launch_tests_ceiling_on_entry nothing_else single_vm_ceiling
                    (never_ready "ins-1") 0 one_vm) H1).
  - exact H2.
  - exact H3.
  - exact (proj2 (proj2 (proj2 (launch_tests_ceiling_on_entry nothing_else single_vm_ceiling
                    (ready_at_third_poll "ins-1" "10.0.0.1") 0 (init 0)))) H2 H3).
Defined.

(** C8, as stated, fails. With a ceiling of two VMs and ["A"] registered
    and full, the scale-up step of a tick launches ["ins-1"] while the
    registry holds one record. The next tick starts thirty seconds after
    the first, while that launch waits for its sixth poll; its
    [syncWithCloud] registers ["X"], which the cloud now lists as RUNNING,
    and its own launch is refused because one is in progress. The sixth
    poll then registers ["ins-1"]: after the scale-up step, which issued
    one launch, the registry holds three records. *)
Lemma overlapping_tick_exceeds_ceiling :
  let s1 := state_of (observe ceiling_of_two A_is_full_tick one_vm) in
  let total := result_of (observe ceiling_of_two A_is_full_tick one_vm) in
  let s2 := state_of (ensureMinimum ceiling_of_two (tk_topup A_is_full_tick) s1) in
  let step := Interleaved.scaleUp next_tick_overlaps ceiling_of_two
                (tk_scaleup A_is_full_tick) total s2 in
  Pool.keys (vmPool s2) = ["A"] /\
  List.map call (log_of step) = [RunInstances (Some "ins-1")] /\
  launches (log_of step) = 1%nat /\
  log_of (updateVMs ceiling_of_two next_tick
            (set_clock 28500 (set_launching true s2))) = [] /\
  Pool.keys (vmPool (state_of step)) = ["A"; "X"; "ins-1"] /\
  MAX_BACKUP_VMS ceiling_of_two < Pool.size (vmPool (state_of step)).
Proof. vm_compute. splits; reflexivity. Qed.

(** ** The registry keeps each key once *)

Lemma keys_delete (id : string) (p : list (string * VM)) :
  Pool.keys (Pool.delete id p)
  = List.filter (fun k => negb (String.eqb id k)) (Pool.keys p).
Proof.
  unfold Pool.keys, Pool.delete.
  induction p as [|[k v] p IH]; simpl; [reflexivity|].
  destruct (String.eqb id k); simpl; rewrite IH; reflexivity.
Qed.

Lemma wf_delete (id : string) (p : list (string * VM)) :
  Pool.wf p -> Pool.wf (Pool.delete id p).
Proof.
  unfold Pool.wf. rewrite keys_delete. apply List.NoDup_filter.
Qed.

Lemma wf_update (id : string) (vm : VM) (p : list (string * VM)) :
  Pool.wf p -> Pool.wf (Pool.update id vm p).
Proof. unfold Pool.wf. rewrite keys_update. auto. Qed.

Lemma wf_alter (f : VM -> VM) (id : string) (p : list (string * VM)) :
  Pool.wf p -> Pool.wf (Pool.alter f id p).
Proof. unfold Pool.wf. rewrite keys_alter. auto. Qed.

Lemma keys_set (id : string) (vm : VM) (p : list (string * VM)) :
  Pool.keys (Pool.set id vm p)
  = if Pool.has id p then Pool.keys p else Pool.keys p ++ [id].
Proof.
  unfold Pool.keys, Pool.has.
  induction p as [|[k v] p IH]; simpl; [reflexivity|].
  destruct (String.eqb id k) eqn:E; simpl; [reflexivity|].
  rewrite IH. destruct (Pool.get id p); reflexivity.
Qed.

Lemma wf_set (id : string) (vm : VM) (p : list (string * VM)) :
  Pool.wf p -> Pool.wf (Pool.set id vm p).
Proof.
  unfold Pool.wf. rewrite keys_set. intros H.
  destruct (Pool.has id p) eqn:E; [exact H|].
  apply List.NoDup_app; [exact H | repeat constructor; simpl; tauto |].
  intros k Hk [Hin|[]]. subst k.
  apply get_in_keys in Hk. unfold Pool.has in E.
  destruct (Pool.get id p); [discriminate | congruence].
Qed.

(** Closes the goals that [keeps_auto] leaves for the writes to the
    registry. *)
Ltac wf_writes :=
  unfold wf_state in *; simpl; auto using wf_delete, wf_update, wf_set, wf_alter.

Lemma syncWithCloud_wf (e : SyncEnv) : keeps wf_state (syncWithCloud e).
Proof.
  unfold syncWithCloud, sync_remove, sync_add, choose_protected.
  keeps_auto; wf_writes.
Qed.

Section WellFormed.

Context (cfg : Config).

Lemma pollLoop_wf (e : LaunchEnv) (instanceId : string) (n i : nat) :
  keeps wf_state (pollLoop e instanceId n i).
Proof.
  revert i. induction n as [|n IH]; intros i; simpl.
  - apply keeps_ret.
  - keeps_auto; try apply IH; wf_writes.
Qed.

Lemma launchBackupVM_wf (l : LaunchEnv) : keeps wf_state (launchBackupVM cfg l).
Proof.
  unfold launchBackupVM, launch_attempt.
  keeps_auto; try apply pollLoop_wf; wf_writes.
Qed.

Lemma refreshVmStatus_wf (p : ProbeEnv) (instanceId : string) (vm : VM) :
  keeps wf_state (refreshVmStatus cfg p instanceId vm).
Proof. unfold refreshVmStatus. keeps_auto; wf_writes. Qed.

Lemma refresh_resumes_wf (p : ProbeEnv) (instanceId : string) (vm : VM) :
  keeps wf_state (refresh_resumes cfg p instanceId vm).
Proof. unfold refresh_resumes. keeps_auto; wf_writes. Qed.

Lemma refresh_deletes_wf (instanceId : string) : keeps wf_state (refresh_deletes instanceId).
Proof. unfold refresh_deletes. keeps_auto; wf_writes. Qed.

Lemma probe_entries_wf (p : ProbeEnv) (entries : list (string * VM)) :
  keeps wf_state (probe_entries cfg p entries).
Proof.
  apply keeps_probe_loop; [apply refresh_resumes_wf | apply refresh_deletes_wf].
Qed.

Lemma getAvailableVM_wf (p : ProbeEnv) (l : LaunchEnv) :
  keeps wf_state (getAvailableVM cfg p l).
Proof.
  unfold getAvailableVM, refreshAll, select.
  keeps_auto; try apply probe_entries_wf; try apply launchBackupVM_wf; wf_writes.
Qed.

Lemma handleMatchRequest_wf (matchPrivacy : string) (rq : MatchRequest) (e : RequestEnv) :
  keeps wf_state (handleMatchRequest cfg matchPrivacy rq e).
Proof.
  unfold handleMatchRequest.
  keeps_auto; try apply getAvailableVM_wf; wf_writes.
Qed.

Lemma healthLoop_wf (p : ProbeEnv) (entries : list (string * VM)) (total : Q) :
  keeps wf_state (healthLoop cfg p entries total).
Proof.
  revert total. induction entries as [|[instanceId vm] rest IH]; intros total; simpl.
  - apply keeps_ret.
  - unfold terminate_if_idle.
    keeps_auto; try apply IH; try apply refreshVmStatus_wf; wf_writes.
Qed.

Lemma updateVMs_wf (e : TickEnv) : keeps wf_state (updateVMs cfg e).
Proof.
  unfold updateVMs, observe, healthRefresh, ensureMinimum, scaleUp,
    recomputeProtectedVM, choose_protected.
  keeps_auto;
    try apply syncWithCloud_wf; try apply healthLoop_wf; try apply launchBackupVM_wf;
    wf_writes.
Qed.

Lemma exec_wf (op : Op) : keeps wf_state (exec cfg op).
Proof.
  destruct op as [matchPrivacy rq e|e|mid]; unfold exec, matchDetails.
  - keeps_auto. apply handleMatchRequest_wf.
  - keeps_auto. apply updateVMs_wf.
  - keeps_auto.
Qed.

(** Every state the process reaches from its start has a registry that
    holds each key once. *)
Lemma reachable_wf (ops : list Op) (t : Z) :
  Pool.wf (vmPool (state_of (run cfg ops (init t)))).
Proof.
  assert (H : forall st, wf_state st -> wf_state (state_of (run cfg ops st))).
  { induction ops as [|op ops IH]; intros st Hst; simpl; [exact Hst|].
    rewrite state_of_bind. cbv beta. rewrite state_of_bind. cbv beta. simpl.
    apply IH. apply exec_wf. exact Hst. }
  apply H. unfold wf_state, Pool.wf. simpl. constructor.
Qed.

End WellFormed.

(** ** The health step and its two termination paths *)

Section Health.

Context (cfg : Config).

Lemma refresh_failure (p : ProbeEnv) (instanceId : string) (vm : VM) (st : St) :
  status p instanceId = None ->
  refreshVmStatus cfg p instanceId vm st =
  let s1 := set_pool (Pool.update instanceId (missed vm))
              (set_clock (status_at p instanceId) st) in
  if unreachable_guard cfg (status_at p instanceId) (missed vm) instanceId s1
  then ((false, missed vm), set_pool (Pool.delete instanceId) s1,
        [ {| call := TerminateInstances UnreachablePath instanceId; at_state := s1 |} ])
  else ((false, missed vm), s1, []).
Proof.
  intros H. unfold refreshVmStatus, unreachable_guard. rewrite H.
  rewrite bind_unfold.
  change (state_of (await (status_at p instanceId) st))
    with (set_clock (status_at p instanceId) st).
  change (log_of (await (status_at p instanceId) st)) with (@nil Event).
  cbv beta. rewrite !bind_unfold. simpl.
  destruct (VM_UNREACHABLE_TERMINATE_THRESHOLD cfg <=? unreachableCount vm + 1);
    [|reflexivity].
  destruct (Qle_bool _ _); [|reflexivity].
  simpl. rewrite bind_unfold. simpl.
  destruct (negb _ && _); reflexivity.
Qed.

Lemma terminate_if_idle_eq (instanceId : string) (vm : VM) (st : St) :
  terminate_if_idle cfg instanceId vm st =
  if idle_guard cfg vm instanceId st
  then (tt, set_pool (Pool.delete instanceId) st,
        [ {| call := TerminateInstances IdlePath instanceId; at_state := st |} ])
  else (tt, st, []).
Proof.
  unfold terminate_if_idle, idle_guard. rewrite bind_unfold. simpl.
  destruct (Qeq_bool (matchCount vm) 0); [|reflexivity].
  destruct (MIN_BACKUP_VMS cfg <? Pool.size (vmPool st)); [|reflexivity].
  destruct (is_protected st instanceId) eqn:E; [reflexivity|].
  simpl. rewrite bind_unfold. simpl.
  destruct (Qle_bool _ _); [|reflexivity].
  rewrite !bind_unfold. simpl.
  unfold is_protected in *. simpl. rewrite E. reflexivity.
Qed.

Lemma is_protected_false (st : St) (instanceId : string) :
  is_protected st instanceId = false -> protectedVM st <> Some instanceId.
Proof.
  unfold is_protected. intros H Heq. rewrite Heq in H.
  rewrite String.eqb_refl in H. discriminate.
Qed.

(** One probe, for a VM that is registered. *)
Lemma refreshVmStatus_guarded (p : ProbeEnv) (instanceId : string) (vm : VM) (st : St) :
  Pool.get instanceId (vmPool st) <> None ->
  let r := refreshVmStatus cfg p instanceId vm st in
  Forall (guarded cfg) (log_of r) /\
  (forall id', id' <> instanceId ->
     Pool.get id' (vmPool (state_of r)) = Pool.get id' (vmPool st)) /\
  (fst (result_of r) = true ->
     Pool.get instanceId (vmPool (state_of r)) = Some (snd (result_of r))).
Proof.
  intros Hin. cbn zeta.
  destruct (Pool.get instanceId (vmPool st)) as [old|] eqn:Hold; [clear Hin|congruence].
  destruct (status p instanceId) as [data|] eqn:Hs.
  - rewrite (refresh_success cfg _ _ _ _ _ Hs). simpl. splits.
    + constructor.
    + intros id' Hne. apply get_update_other; congruence.
    + intros _. eapply get_update_same; eassumption.
  - rewrite (refresh_failure _ _ _ _ Hs). cbn zeta.
    destruct (unreachable_guard _ _ _ _ _) eqn:G; simpl; splits; try discriminate.
    + repeat constructor. exists instanceId. split; [left; reflexivity|].
      unfold unreachable_guard in G.
      apply andb_prop in G as [G1 G2]. apply andb_prop in G1 as [_ Gage].
      apply andb_prop in G2 as [Gprot Gmin].
      apply negb_true_iff in Gprot. unfold may_terminate. simpl in *.
      splits.
      * apply (is_protected_false _ _ Gprot).
      * apply Z.ltb_lt in Gmin. exact Gmin.
      * exists (missed vm). split; [eapply get_update_same; eassumption|].
        apply Qle_bool_iff; exact Gage.
    + intros id' Hne. rewrite get_delete_other by congruence.
      apply get_update_other; congruence.
    + constructor.
    + intros id' Hne. apply get_update_other; congruence.
Qed.

(** The idle test, for a VM that is registered as [vm]. *)
Lemma terminate_if_idle_guarded (instanceId : string) (vm : VM) (st : St) :
  Pool.get instanceId (vmPool st) = Some vm ->
  let r := terminate_if_idle cfg instanceId vm st in
  Forall (guarded cfg) (log_of r) /\
  (forall id', id' <> instanceId ->
     Pool.get id' (vmPool (state_of r)) = Pool.get id' (vmPool st)).
Proof.
  intros Hin. cbn zeta. rewrite terminate_if_idle_eq.
  destruct (idle_guard cfg vm instanceId st) eqn:G; simpl; splits.
  - repeat constructor. exists instanceId. split; [right; reflexivity|].
    unfold idle_guard in G.
    apply andb_prop in G as [G Gage]. apply andb_prop in G as [G Gprot].
    apply andb_prop in G as [_ Gmin]. apply negb_true_iff in Gprot.
    unfold may_terminate. simpl. splits.
    + apply (is_protected_false _ _ Gprot).
    + apply Z.ltb_lt in Gmin. exact Gmin.
    + exists vm. split; [exact Hin|]. apply Qle_bool_iff; exact Gage.
  - intros id' Hne. apply get_delete_other; congruence.
  - constructor.
  - reflexivity.
Qed.

Lemma healthLoop_guarded (p : ProbeEnv) (entries : list (string * VM)) (total : Q) (st : St) :
  List.NoDup (List.map fst entries) ->
  (forall id vm, In (id, vm) entries -> Pool.get id (vmPool st) <> None) ->
  Forall (guarded cfg) (log_of (healthLoop cfg p entries total st)).
Proof.
  revert total st.
  induction entries as [|[instanceId vm] rest IH]; intros total st Hnd Hin.
  - constructor.
  - inversion Hnd as [|? ? Hfresh Hnd']; subst.
    assert (Hrest : forall id vm0, In (id, vm0) rest -> id <> instanceId).
    { intros id vm0 H Heq. subst id. apply Hfresh.
      change instanceId with (fst (instanceId, vm0)). apply in_map; exact H. }
    destruct (refreshVmStatus_guarded p instanceId vm st) as (Hlog & Hother & Hself).
    { apply (Hin instanceId vm). left; reflexivity. }
    cbn zeta in *.
    simpl healthLoop. rewrite log_of_bind. apply Forall_app. split; [exact Hlog|].
    set (r := refreshVmStatus cfg p instanceId vm st) in *.
    destruct (fst (result_of r)) eqn:Hok.
    + destruct (terminate_if_idle_guarded instanceId (snd (result_of r)) (state_of r))
        as (Hlog' & Hother').
      { apply Hself; reflexivity. }
      cbn zeta in *.
      rewrite log_of_bind. apply Forall_app. split; [exact Hlog'|].
      apply IH; [exact Hnd'|].
      intros id vm0 H. rewrite Hother', Hother by (eapply Hrest; eassumption).
      apply (Hin id vm0). right; exact H.
    + apply IH; [exact Hnd'|].
      intros id vm0 H. rewrite Hother by (eapply Hrest; eassumption).
      apply (Hin id vm0). right; exact H.
Qed.

Lemma healthRefresh_guarded (p : ProbeEnv) (st : St) :
  Pool.wf (vmPool st) -> Forall (guarded cfg) (log_of (healthRefresh cfg p st)).
Proof.
  intros Hwf. unfold healthRefresh. rewrite log_of_bind. simpl.
  apply healthLoop_guarded; [exact Hwf|].
  intros id vm H. apply get_in_keys.
  change id with (fst (id, vm)). apply in_map; exact H.
Qed.

Lemma observe_guarded (e : TickEnv) (st : St) :
  Pool.wf (vmPool st) -> Forall (guarded cfg) (log_of (observe cfg e st)).
Proof.
  intros Hwf. unfold observe. rewrite log_of_bind.
  rewrite (proj2 (Forall_nil_iff_log _) (syncWithCloud_silent _ _)).
  apply healthRefresh_guarded. apply (syncWithCloud_wf (tk_sync e) st Hwf).
Qed.

(** C4. Every [TerminateInstances] that a reconciler tick issues from its
    health step, on the unreachable path (line 222) or on the idle path (line
    348), is issued in a state in which the VM is not the protected one, the
    registry holds more than [MIN_BACKUP_VMS] records, and the VM's age is at
    least [VM_AGE_TERMINATE_MINUTES]. *)
Theorem reconciler_terminations_are_guarded
    (e : TickEnv) (st : St) (ev : Event) (instanceId : string) :
  Pool.wf (vmPool st) ->
  In ev (log_of (updateVMs cfg e st)) ->
  reconciler_terminates (call ev) instanceId ->
  protectedVM (at_state ev) <> Some instanceId /\
  ~ Pool.size (vmPool (at_state ev)) <= MIN_BACKUP_VMS cfg /\
  exists vm, Pool.get instanceId (vmPool (at_state ev)) = Some vm /\
             ~ (ageMinutes (clock (at_state ev)) vm
                  < inject_Z (VM_AGE_TERMINATE_MINUTES cfg))%Q.
Proof.
  intros Hwf Hin Hcall.
  rewrite updateVMs_log in Hin. cbn zeta in Hin.
  set (s1 := state_of (observe cfg e st)) in *.
  set (total := result_of (observe cfg e st)) in *.
  assert (Hlaunch : forall log, Forall (fun ev0 => launch_call (call ev0)) log ->
                                In ev log -> False).
  { intros log Hall Hev. rewrite List.Forall_forall in Hall.
    specialize (Hall ev Hev). destruct Hcall as [Hc|Hc]; rewrite Hc in Hall;
      simpl in Hall; discriminate. }
  apply in_app_or in Hin as [Hin|Hin]; [|apply in_app_or in Hin as [Hin|Hin]].
  - pose proof (observe_guarded e st Hwf) as Hg.
    rewrite List.Forall_forall in Hg.
    destruct (Hg ev Hin) as (id & Hc & Hp & Hmin & vm & Hget & Hage).
    assert (id = instanceId).
    { destruct Hc as [Hc|Hc], Hcall as [Hc'|Hc']; congruence. }
    subst id. splits; [exact Hp | lia |].
    exists vm. split; [exact Hget|]. apply Qle_not_lt; exact Hage.
  - exfalso. eapply Hlaunch; [|exact Hin].
    apply (ensureMinimum_props cfg (tk_topup e) s1).
  - exfalso. eapply Hlaunch; [|exact Hin].
    apply (scaleUp_props cfg (tk_scaleup e) total).
Qed.

End Health.

(** ** Match requests *)

Section Requests.

Context (cfg : Config).

Lemma insert_sorted_In {A : Type} (cmp : A -> A -> comparison) (x y : A) (l : list A) :
  In y (insert_sorted cmp x l) -> y = x \/ In y l.
Proof.
  induction l as [|z l IH]; simpl.
  - intros [H|[]]; auto.
  - destruct (cmp x z); simpl; intros H;
      try (destruct H as [H|[H|H]]; auto; fail).
    destruct H as [H|H]; [auto|]. destruct (IH H); auto.
Qed.

Lemma stable_sort_In {A : Type} (cmp : A -> A -> comparison) (y : A) (l : list A) :
  In y (stable_sort cmp l) -> In y l.
Proof.
  induction l as [|x l IH]; simpl; [tauto|].
  intros H. apply insert_sorted_In in H as [H|H]; auto.
Qed.

Lemma candidates_In (entry : string * VM) (pool : list (string * VM)) :
  In entry (candidates cfg pool) ->
  In entry pool /\ (matchCount (snd entry) < inject_Z (FULL_MATCH_LIMIT cfg))%Q.
Proof.
  unfold candidates. intros H. apply stable_sort_In in H.
  apply List.filter_In in H as [H1 H2]. split; [exact H1|].
  apply Qlt_bool_true; exact H2.
Qed.

Lemma entry_registered (id : string) (vm : VM) (pool : list (string * VM)) :
  In (id, vm) pool -> Pool.get id pool <> None.
Proof.
  intros H. apply get_in_keys. change id with (fst (id, vm)). apply in_map; exact H.
Qed.

Lemma select_eq (l : LaunchEnv) (st : St) :
  select cfg l st =
  match candidates cfg (vmPool st) with
  | (instanceId, vm) :: _ => (Some (instanceId, ip vm), st, [])
  | [] => launchBackupVM cfg l st
  end.
Proof.
  unfold select. rewrite bind_unfold. simpl.
  destruct (candidates cfg (vmPool st)) as [|[instanceId vm] rest]; simpl.
  - symmetry; apply triple_eta.
  - reflexivity.
Qed.

(** The VM that [getAvailableVM] returns is registered when it returns. *)
Lemma getAvailableVM_registered (p : ProbeEnv) (l : LaunchEnv) (st : St)
    (instanceId vmIP : string) :
  result_of (getAvailableVM cfg p l st) = Some (instanceId, vmIP) ->
  Pool.get instanceId (vmPool (state_of (getAvailableVM cfg p l st))) <> None.
Proof.
  unfold getAvailableVM. rewrite result_of_bind, state_of_bind.
  set (s1 := state_of (refreshAll cfg p st)).
  generalize (result_of (refreshAll cfg p st)); intros [].
  rewrite select_eq.
  destruct (candidates cfg (vmPool s1)) as [|[id vm] rest] eqn:E.
  - intros H.
    destruct (launchBackupVM_props cfg l s1) as (_ & _ & _ & _ & _ & _ & _ & Hreg).
    rewrite (Hreg _ _ H). discriminate.
  - simpl. intros H. inversion H; subst.
    apply (entry_registered instanceId vm).
    apply (candidates_In (instanceId, vm)). rewrite E. left; reflexivity.
Qed.

Lemma handleMatchRequest_eq (matchPrivacy : string) (rq : MatchRequest) (e : RequestEnv)
    (st : St) :
  handleMatchRequest cfg matchPrivacy rq e st =
  match valid_request rq with
  | None =>
      ({| code := 400; body := ErrorBody "Missing or invalid matchId/gameMode" |}, st, [])
  | Some (mid, gm) =>
      let alloc := getAvailableVM cfg (rq_probes e) (rq_launch e) st in
      match result_of alloc with
      | None =>
          ({| code := 503; body := ErrorBody "No VM available" |},
           state_of alloc, log_of alloc)
      | Some (instanceId, vmIP) =>
          let s2 := set_clock (start_at e) (state_of alloc) in
          match start_on cfg e matchPrivacy rq mid gm vmIP with
          | Some matchData =>
              ({| code := 200; body := DescriptorBody matchData |},
               set_pool (Pool.alter bump instanceId)
                 (set_matches
                    (insert mid {| descriptor := matchData; startedAt := start_at e;
                                   vmInstanceId := instanceId |}) s2),
               log_of alloc)
          | None =>
              ({| code := 500; body := ErrorBody "Internal server error" |},
               s2, log_of alloc)
          end
      end
  end.
Proof.
  unfold handleMatchRequest.
  destruct (valid_request rq) as [[mid gm]|]; [|reflexivity].
  rewrite bind_unfold. cbn zeta.
  destruct (result_of (getAvailableVM cfg (rq_probes e) (rq_launch e) st))
    as [[instanceId vmIP]|].
  - rewrite bind_unfold. simpl.
    destruct (start_on cfg e matchPrivacy rq mid gm vmIP) as [matchData|].
    + rewrite !bind_unfold. simpl. rewrite !app_nil_r. reflexivity.
    + simpl. rewrite !app_nil_r. reflexivity.
  - simpl. rewrite !app_nil_r. reflexivity.
Qed.

Lemma alter_absent (f : VM -> VM) (id : string) (p : list (string * VM)) :
  Pool.get id p = None -> Pool.alter f id p = p.
Proof.
  induction p as [|[k v] p IH]; simpl; [reflexivity|].
  destruct (String.eqb id k); [discriminate|].
  intros H. rewrite (IH H). reflexivity.
Qed.

Lemma startOnTarget_eq (meanwhile : AwaitPoint -> St -> St) (matchPrivacy : string)
    (rq : MatchRequest) (e : RequestEnv) (mid gm instanceId vmIP : string) (st : St) :
  Interleaved.startOnTarget meanwhile cfg matchPrivacy rq e mid gm (instanceId, vmIP) st =
  let s2 := set_clock (start_at e) (meanwhile StartReturns st) in
  match start_on cfg e matchPrivacy rq mid gm vmIP with
  | Some matchData =>
      ({| code := 200; body := DescriptorBody matchData |},
       set_pool (Pool.alter bump instanceId)
         (set_matches
            (insert mid {| descriptor := matchData; startedAt := start_at e;
                           vmInstanceId := instanceId |}) s2),
       [])
  | None => ({| code := 500; body := ErrorBody "Internal server error" |}, s2, [])
  end.
Proof.
  unfold Interleaved.startOnTarget. rewrite !bind_unfold. cbn zeta.
  destruct (start_on cfg e matchPrivacy rq mid gm vmIP) as [matchData|].
  - rewrite !bind_unfold. reflexivity.
  - reflexivity.
Qed.

(** The handler of the section [Allocator] is the validation, the
    allocation and [startOnTarget] with nothing else running. *)
Lemma handleMatchRequest_alone (matchPrivacy : string) (rq : MatchRequest) (e : RequestEnv)
    (st : St) :
  handleMatchRequest cfg matchPrivacy rq e st =
  match valid_request rq with
  | None =>
      ({| code := 400; body := ErrorBody "Missing or invalid matchId/gameMode" |}, st, [])
  | Some (mid, gm) =>
      let alloc := getAvailableVM cfg (rq_probes e) (rq_launch e) st in
      match result_of alloc with
      | None =>
          ({| code := 503; body := ErrorBody "No VM available" |},
           state_of alloc, log_of alloc)
      | Some targetVM =>
          let r := Interleaved.startOnTarget nothing_else cfg matchPrivacy rq e mid gm
                     targetVM (state_of alloc) in
          (result_of r, state_of r, log_of alloc ++ log_of r)
      end
  end.
Proof.
  rewrite handleMatchRequest_eq.
  destruct (valid_request rq) as [[mid gm]|]; [|reflexivity]. cbn zeta.
  destruct (result_of (getAvailableVM cfg (rq_probes e) (rq_launch e) st))
    as [[instanceId vmIP]|]; [|reflexivity].
  rewrite startOnTarget_eq. cbn zeta. unfold nothing_else.
  destruct (start_on cfg e matchPrivacy rq mid gm vmIP); simpl;
    rewrite app_nil_r; reflexivity.
Qed.

Lemma start_on_accepted (e : RequestEnv) (matchPrivacy : string) (rq : MatchRequest)
    (mid gm vmIP : string) :
  match start_on cfg e matchPrivacy rq mid gm vmIP with
  | Some matchData =>
      start_accepted cfg e matchPrivacy rq mid gm vmIP = true /\
      serverIP matchData = vmIP /\
      md_matchId matchData = mid /\
      md_gameMode matchData = gm
  | None => start_accepted cfg e matchPrivacy rq mid gm vmIP = false
  end.
Proof.
  unfold start_on, launchUnityServerOnVM, start_accepted.
  destruct (start_match e vmIP _) as [data|]; [|reflexivity].
  destruct (Js.truthy data && Js.truthy (Js.field data "success")).
  - repeat split.
  - reflexivity.
Qed.

(** C6. Once [getAvailableVM] has returned a VM, the handler posts
    [/start-match] to it and waits for the answer. Whatever the other
    operations do to the state meanwhile: when the answer carries a truthy
    [success] the handler answers 200 and, if that VM is still registered
    when the answer arrives, its [matchCount] is incremented (by exactly
    one when it holds an integer below 2^53) and nothing else in the
    registry changes; if that VM is no longer registered, the registry is
    left as it is. When the call fails (transport error, empty answer or
    [success] falsy) the handler answers 500 and leaves the state as it was
    when the answer arrived. *)
Theorem matchCount_bumped_iff_start_accepted
    (meanwhile : AwaitPoint -> St -> St) (matchPrivacy : string) (rq : MatchRequest)
    (e : RequestEnv) (mid gm instanceId vmIP : string) (st : St) :
  let resumed := set_clock (start_at e) (meanwhile StartReturns st) in
  let r := Interleaved.startOnTarget meanwhile cfg matchPrivacy rq e mid gm
             (instanceId, vmIP) st in
  (start_accepted cfg e matchPrivacy rq mid gm vmIP = true ->
     code (result_of r) = 200 /\
     (forall vm, Pool.get instanceId (vmPool resumed) = Some vm ->
        exists vm',
          Pool.get instanceId (vmPool (state_of r)) = Some vm' /\
          matchCount vm' = round64 (matchCount vm + 1) /\
          (forall c, 0 <= c < 2 ^ 53 -> (matchCount vm == inject_Z c)%Q ->
             (matchCount vm' == inject_Z (c + 1))%Q) /\
          ip vm' = ip vm /\
          unreachableCount vm' = unreachableCount vm /\
          launchedAt vm' = launchedAt vm /\
          lastSeen vm' = lastSeen vm) /\
     (Pool.get instanceId (vmPool resumed) = None ->
        vmPool (state_of r) = vmPool resumed) /\
     (forall other, other <> instanceId ->
        Pool.get other (vmPool (state_of r)) = Pool.get other (vmPool resumed))) /\
  (start_accepted cfg e matchPrivacy rq mid gm vmIP = false ->
     code (result_of r) = 500 /\
     state_of r = resumed) /\
  log_of r = [].
Proof.
  cbn zeta. rewrite startOnTarget_eq. cbn zeta.
  pose proof (start_on_accepted e matchPrivacy rq mid gm vmIP) as Hacc.
  destruct (start_on cfg e matchPrivacy rq mid gm vmIP) as [matchData|].
  - destruct Hacc as (Hacc & _). rewrite Hacc. simpl.
    split; [|split; [discriminate|reflexivity]].
    intros _. split; [reflexivity|]. split; [|split].
    + intros vm Hvm. exists (bump vm).
      rewrite get_alter_same, Hvm. simpl.
      splits; try reflexivity.
      intros c Hc Heq.
      assert (E : (matchCount vm + 1 == inject_Z (c + 1))%Q)
        by (rewrite Heq, inject_Z_plus; reflexivity).
      rewrite (round64_comp _ _ E). apply round64_Z. lia.
    + intros Hnone. apply alter_absent. exact Hnone.
    + intros other Hne. apply get_alter_other. congruence.
  - rewrite Hacc. simpl.
    split; [discriminate|]. split; [|reflexivity].
    intros _. split; reflexivity.
Qed.

End Requests.

(** ** The match map *)

Section Matches.

Context (cfg : Config).

Lemma refreshVmStatus_matches (p : ProbeEnv) (instanceId : string) (vm : VM) :
  preserves matches (refreshVmStatus cfg p instanceId vm).
Proof. unfold refreshVmStatus. frame. Qed.

Lemma refreshAll_matches (p : ProbeEnv) : preserves matches (refreshAll cfg p).
Proof.
  unfold refreshAll, probe_entries. frame. apply preserves_probe_loop.
  - intros id vm. unfold refresh_resumes. frame.
  - intros id. unfold refresh_deletes. frame.
Qed.

Lemma launchBackupVM_matches (l : LaunchEnv) : preserves matches (launchBackupVM cfg l).
Proof. intros st. apply (launchBackupVM_props cfg l st). Qed.

Lemma getAvailableVM_matches (p : ProbeEnv) (l : LaunchEnv) :
  preserves matches (getAvailableVM cfg p l).
Proof.
  unfold getAvailableVM, select. frame.
  - apply refreshAll_matches.
  - apply launchBackupVM_matches.
Qed.

Lemma terminate_if_idle_matches (instanceId : string) (vm : VM) :
  preserves matches (terminate_if_idle cfg instanceId vm).
Proof. unfold terminate_if_idle. frame. Qed.

Lemma healthLoop_matches (p : ProbeEnv) (entries : list (string * VM)) (total : Q) :
  preserves matches (healthLoop cfg p entries total).
Proof.
  revert total. induction entries as [|[instanceId vm] rest IH]; intros total; simpl.
  - apply preserves_ret.
  - frame; try apply IH.
    + apply refreshVmStatus_matches.
    + apply terminate_if_idle_matches.
Qed.

Lemma syncWithCloud_matches (e : SyncEnv) : preserves matches (syncWithCloud e).
Proof. unfold syncWithCloud, sync_remove, sync_add, choose_protected. frame. Qed.

Lemma recomputeProtectedVM_matches : preserves matches recomputeProtectedVM.
Proof. unfold recomputeProtectedVM, choose_protected. frame. Qed.

Lemma updateVMs_matches (e : TickEnv) : preserves matches (updateVMs cfg e).
Proof.
  unfold updateVMs, observe, healthRefresh, ensureMinimum, scaleUp. frame;
    try apply launchBackupVM_matches.
  - apply syncWithCloud_matches.
  - apply healthLoop_matches.
  - apply recomputeProtectedVM_matches.
Qed.

Lemma matchDetails_eq (mid : string) (st : St) :
  matchDetails mid st =
  (if String.eqb mid "" then {| code := 400; body := ErrorBody "Missing matchId" |}
   else match matches st !! mid with
        | Some matchData => {| code := 200; body := RecordBody matchData |}
        | None => {| code := 404; body := ErrorBody "Match not found" |}
        end,
   st, []).
Proof.
  unfold matchDetails. destruct (String.eqb mid ""); [reflexivity|].
  rewrite bind_unfold. simpl. destruct (matches st !! mid); reflexivity.
Qed.

(** What a match request does to the entry of [mid] in the match map. *)
Lemma handleMatchRequest_matches (matchPrivacy : string) (rq : MatchRequest)
    (e : RequestEnv) (st : St) (mid : string) :
  let r := handleMatchRequest cfg matchPrivacy rq e st in
  matches (state_of r) !! mid = matches st !! mid \/
  (matchId rq = Some mid /\ code (result_of r) = 200 /\
   exists record, matches (state_of r) !! mid = Some record).
Proof.
  cbn zeta. rewrite handleMatchRequest_eq.
  destruct (valid_request rq) as [[mid' gm]|] eqn:Hv; [|left; reflexivity].
  cbn zeta.
  pose proof (getAvailableVM_matches (rq_probes e) (rq_launch e) st) as Hm.
  destruct (result_of (getAvailableVM cfg (rq_probes e) (rq_launch e) st))
    as [[instanceId vmIP]|]; [|left; simpl; rewrite Hm; reflexivity].
  destruct (start_on cfg e matchPrivacy rq mid' gm vmIP) as [matchData|];
    [|left; simpl; rewrite Hm; reflexivity].
  simpl. rewrite Hm.
  destruct (decide (mid' = mid)) as [->|Hne].
  - right. splits; [|reflexivity|].
    + unfold valid_request in Hv.
      destruct (matchId rq) as [m|]; [|discriminate].
      destruct (gameMode rq) as [g|]; [|discriminate].
      destruct (_ || _); [discriminate|]. congruence.
    + eexists. apply lookup_insert_eq.
  - left. apply lookup_insert_ne. exact Hne.
Qed.

(** One operation never removes a match record. *)
Lemma exec_keeps_record (op : Op) (st : St) (mid : string) :
  matches st !! mid <> None -> matches (state_of (exec cfg op st)) !! mid <> None.
Proof.
  intros H. destruct op as [matchPrivacy rq e|e|mid']; simpl; rewrite state_of_bind; simpl.
  - destruct (handleMatchRequest_matches matchPrivacy rq e st mid) as [Heq|(_ & _ & rec & Hrec)].
    + cbn zeta in Heq. rewrite Heq. exact H.
    + cbn zeta in Hrec. rewrite Hrec. discriminate.
  - rewrite updateVMs_matches. exact H.
  - rewrite matchDetails_eq. simpl. exact H.
Qed.

(** One operation other than a match request for [mid] leaves its record
    alone. *)
Lemma exec_other (op : Op) (st : St) (mid : string) :
  (forall matchPrivacy rq e, op = RequestMatch matchPrivacy rq e -> matchId rq <> Some mid) ->
  matches (state_of (exec cfg op st)) !! mid = matches st !! mid.
Proof.
  intros H. destruct op as [matchPrivacy rq e|e|mid']; simpl; rewrite state_of_bind; simpl.
  - destruct (handleMatchRequest_matches matchPrivacy rq e st mid) as [Heq|(Hid & _)].
    + exact Heq.
    + exfalso. exact (H _ _ _ eq_refl Hid).
  - rewrite updateVMs_matches. reflexivity.
  - rewrite matchDetails_eq. reflexivity.
Qed.

(** C5, as amended. A match record is never removed, and it is changed
    neither by reconciler ticks, nor by lookups, nor by match requests that
    carry another [matchId]; the only operation that changes it is a later
    match request with the same [matchId] that is answered 200, which
    replaces it. So after any run that contains no match request for [mid],
    the record of [mid] is the one that was created, and every
    [GET /api/match-details/mid] returns it, without changing the state. *)
Theorem match_record_is_stable_absent_same_id_requests
    (ops : list Op) (st : St) (mid : string) (record : MatchRecord) :
  mid <> "" ->
  matches st !! mid = Some record ->
  (forall matchPrivacy rq e, In (RequestMatch matchPrivacy rq e) ops ->
     matchId rq <> Some mid) ->
  let st' := state_of (run cfg ops st) in
  matches st' !! mid = Some record /\
  matchDetails mid st' = ({| code := 200; body := RecordBody record |}, st', []) /\
  (forall op, matches (state_of (exec cfg op st')) !! mid <> None) /\
  (forall matchPrivacy rq e,
     let r := handleMatchRequest cfg matchPrivacy rq e st' in
     matches (state_of r) !! mid = Some record \/
     (matchId rq = Some mid /\ code (result_of r) = 200)).
Proof.
  intros Hmid Hrec Hops. cbn zeta.
  assert (Hrun : matches (state_of (run cfg ops st)) !! mid = Some record).
  { clear Hmid. revert st Hrec. induction ops as [|op ops IH]; intros st Hrec; simpl.
    - exact Hrec.
    - rewrite state_of_bind. cbv beta. rewrite state_of_bind. cbv beta. simpl.
      apply IH.
      + intros matchPrivacy rq e Hin. apply (Hops matchPrivacy rq e). right; exact Hin.
      + rewrite exec_other; [exact Hrec|].
        intros matchPrivacy rq e ->. apply (Hops matchPrivacy rq e). left; reflexivity. }
  splits.
  - exact Hrun.
  - rewrite matchDetails_eq, Hrun.
    apply String.eqb_neq in Hmid. rewrite Hmid. reflexivity.
  - intros op. apply exec_keeps_record. rewrite Hrun. discriminate.
  - intros matchPrivacy rq e.
    destruct (handleMatchRequest_matches matchPrivacy rq e
                (state_of (run cfg ops st)) mid) as [Heq|(Hid & Hcode & _)].
    + left. cbn zeta in *. rewrite Heq. exact Hrun.
    + right. split; assumption.
Qed.

End Matches.

(** ** The probes of the allocation path *)

Section Allocation.

Context (cfg : Config).

(** A probe touches the registry entry of its own VM only. *)
Lemma refreshVmStatus_other (p : ProbeEnv) (instanceId id' : string) (vm : VM) (st : St) :
  id' <> instanceId ->
  Pool.get id' (vmPool (state_of (refreshVmStatus cfg p instanceId vm st)))
  = Pool.get id' (vmPool st).
Proof.
  intros Hne.
  destruct (status p instanceId) as [data|] eqn:Hs.
  - rewrite (refresh_success cfg _ _ _ _ _ Hs). simpl.
    apply get_update_other; congruence.
  - rewrite (refresh_failure cfg _ _ _ _ Hs). cbn zeta.
    destruct (unreachable_guard _ _ _ _ _); simpl.
    + rewrite get_delete_other by congruence. apply get_update_other; congruence.
    + apply get_update_other; congruence.
Qed.

(** **** Sorting and counting *)

Lemma insert_sorted_perm {A : Type} (cmp : A -> A -> comparison) (x : A) (l : list A) :
  Permutation (x :: l) (insert_sorted cmp x l).
Proof.
  induction l as [|y l IH]; simpl; [apply Permutation_refl|].
  destruct (cmp x y); try apply Permutation_refl.
  eapply perm_trans; [apply perm_swap|]. apply perm_skip. exact IH.
Qed.

Lemma stable_sort_perm {A : Type} (cmp : A -> A -> comparison) (l : list A) :
  Permutation l (stable_sort cmp l).
Proof.
  induction l as [|x l IH]; simpl; [apply perm_nil|].
  eapply perm_trans; [apply perm_skip; exact IH | apply insert_sorted_perm].
Qed.

Lemma filter_length_perm {A : Type} (f : A -> bool) (l l' : list A) :
  Permutation l l' ->
  List.length (List.filter f l) = List.length (List.filter f l').
Proof.
  induction 1 as [|x l l' _ IH|x y l|l l' l'' _ IH1 _ IH2]; simpl.
  - reflexivity.
  - destruct (f x); simpl; congruence.
  - destruct (f x), (f y); reflexivity.
  - congruence.
Qed.

Lemma filter_split_length {A : Type} (f : A -> bool) (l : list A) :
  (List.length (List.filter f l) + List.length (List.filter (fun x => negb (f x)) l))%nat
  = List.length l.
Proof.
  induction l as [|x l IH]; simpl; [reflexivity|].
  destruct (f x); simpl; lia.
Qed.

(** **** Removing several VMs *)

Lemma deletes_eq (ids : list string) (st : St) :
  forEach ids refresh_deletes st = (tt, set_pool (delete_all ids) st, []).
Proof.
  revert st. induction ids as [|id ids IH]; intros st; simpl forEach.
  - destruct st; reflexivity.
  - rewrite bind_unfold, IH. destruct st; reflexivity.
Qed.

Lemma get_delete_all_none (ids : list string) (id : string) (pool : list (string * VM)) :
  Pool.get id pool = None -> Pool.get id (delete_all ids pool) = None.
Proof.
  revert pool. induction ids as [|a ids IH]; intros pool H; simpl; [exact H|].
  apply IH. destruct (String.eqb_spec a id) as [->|Hne].
  - apply get_delete_same.
  - rewrite get_delete_other by exact Hne. exact H.
Qed.

Lemma get_delete_all_in (ids : list string) (id : string) (pool : list (string * VM)) :
  In id ids -> Pool.get id (delete_all ids pool) = None.
Proof.
  revert pool. induction ids as [|a ids IH]; intros pool H; [destruct H|]. simpl.
  destruct H as [->|H]; [|apply IH; exact H].
  apply get_delete_all_none, get_delete_same.
Qed.

Lemma get_delete_all_other (ids : list string) (id : string) (pool : list (string * VM)) :
  ~ In id ids -> Pool.get id (delete_all ids pool) = Pool.get id pool.
Proof.
  revert pool. induction ids as [|a ids IH]; intros pool H; simpl; [reflexivity|].
  simpl in H. rewrite IH by tauto. apply get_delete_other. intros ->. tauto.
Qed.

Lemma wf_delete_all (ids : list string) (pool : list (string * VM)) :
  Pool.wf pool -> Pool.wf (delete_all ids pool).
Proof.
  revert pool. induction ids as [|a ids IH]; intros pool H; simpl; [exact H|].
  apply IH, wf_delete, H.
Qed.

Lemma size_delete_wf (id : string) (pool : list (string * VM)) :
  Pool.wf pool -> Pool.size pool - 1 <= Pool.size (Pool.delete id pool).
Proof.
  unfold Pool.wf, Pool.keys, Pool.size, Pool.delete.
  induction pool as [|[k v] pool IH]; simpl; intros Hnd; [lia|].
  inversion Hnd as [|? ? Hfresh Hnd']; subst.
  destruct (String.eqb_spec id k) as [->|Hne]; simpl.
  - replace (List.filter (fun kv => negb (String.eqb k (fst kv))) pool) with pool; [lia|].
    symmetry. apply List.forallb_filter_id. apply List.forallb_forall.
    intros [k' v'] Hin. simpl. apply negb_true_iff, String.eqb_neq. intros ->.
    apply Hfresh. change k' with (fst (k', v')). apply in_map; exact Hin.
  - specialize (IH Hnd'). lia.
Qed.

Lemma size_delete_all (ids : list string) (pool : list (string * VM)) :
  Pool.wf pool ->
  Pool.size pool - Z.of_nat (List.length ids) <= Pool.size (delete_all ids pool).
Proof.
  revert pool. induction ids as [|a ids IH]; intros pool H; simpl delete_all.
  - simpl. lia.
  - pose proof (size_delete_wf a pool H).
    pose proof (IH (Pool.delete a pool) (wf_delete a pool H)).
    simpl List.length. lia.
Qed.

(** **** One continuation *)

Lemma resumes_success (p : ProbeEnv) (instanceId : string) (vm : VM) (st : St)
    (data : Js.val) :
  status p instanceId = Some data ->
  refresh_resumes cfg p instanceId vm st =
  (false,
   set_pool (Pool.update instanceId
               (probed (probe_matchCount data) (status_at p instanceId) vm))
     (set_clock (status_at p instanceId) st),
   []).
Proof.
  intros H. unfold refresh_resumes. rewrite H. reflexivity.
Qed.

Lemma resumes_failure (p : ProbeEnv) (instanceId : string) (vm : VM) (st : St) :
  status p instanceId = None ->
  refresh_resumes cfg p instanceId vm st =
  let s1 := set_pool (Pool.update instanceId (missed vm))
              (set_clock (status_at p instanceId) st) in
  if unreachable_guard cfg (status_at p instanceId) (missed vm) instanceId s1
  then (true, s1,
        [ {| call := TerminateInstances UnreachablePath instanceId; at_state := s1 |} ])
  else (false, s1, []).
Proof.
  intros H. unfold refresh_resumes, unreachable_guard. rewrite H.
  rewrite bind_unfold.
  change (state_of (await (status_at p instanceId) st))
    with (set_clock (status_at p instanceId) st).
  change (log_of (await (status_at p instanceId) st)) with (@nil Event).
  cbv beta. rewrite !bind_unfold. simpl.
  destruct (VM_UNREACHABLE_TERMINATE_THRESHOLD cfg <=? unreachableCount vm + 1);
    [|reflexivity].
  destruct (Qle_bool _ _); [|reflexivity].
  simpl. rewrite bind_unfold. simpl.
  destruct (negb _ && _); reflexivity.
Qed.

(** [refreshVmStatus], awaited on its own as the reconciler does, is the
    continuation followed by the [delete]. *)
Lemma refreshVmStatus_resumes (p : ProbeEnv) (instanceId : string) (vm : VM) (st : St) :
  let r := refresh_resumes cfg p instanceId vm st in
  state_of (refreshVmStatus cfg p instanceId vm st)
    = (if result_of r then set_pool (Pool.delete instanceId) (state_of r) else state_of r) /\
  log_of (refreshVmStatus cfg p instanceId vm st) = log_of r.
Proof.
  cbn zeta. destruct (status p instanceId) as [data|] eqn:Hs.
  - rewrite (refresh_success cfg _ _ _ _ _ Hs), (resumes_success _ _ _ _ _ Hs).
    split; reflexivity.
  - rewrite (refresh_failure cfg _ _ _ _ Hs), (resumes_failure _ _ _ _ Hs). cbn zeta.
    destruct (unreachable_guard _ _ _ _ _); split; reflexivity.
Qed.

Lemma resumes_other (p : ProbeEnv) (instanceId id' : string) (vm : VM) (st : St) :
  id' <> instanceId ->
  Pool.get id' (vmPool (state_of (refresh_resumes cfg p instanceId vm st)))
  = Pool.get id' (vmPool st).
Proof.
  intros Hne.
  destruct (status p instanceId) as [data|] eqn:Hs.
  - rewrite (resumes_success _ _ _ _ _ Hs). simpl. apply get_update_other; congruence.
  - rewrite (resumes_failure _ _ _ _ Hs). cbn zeta.
    destruct (unreachable_guard _ _ _ _ _); simpl; apply get_update_other; congruence.
Qed.

Lemma resumes_frame (p : ProbeEnv) (instanceId : string) (vm : VM) (st : St) :
  let r := refresh_resumes cfg p instanceId vm st in
  Pool.keys (vmPool (state_of r)) = Pool.keys (vmPool st) /\
  protectedVM (state_of r) = protectedVM st /\
  launching (state_of r) = launching st /\
  matches (state_of r) = matches st.
Proof.
  cbn zeta. destruct (status p instanceId) as [data|] eqn:Hs.
  - rewrite (resumes_success _ _ _ _ _ Hs). simpl. rewrite keys_update. splits; reflexivity.
  - rewrite (resumes_failure _ _ _ _ Hs). cbn zeta.
    destruct (unreachable_guard _ _ _ _ _); simpl; rewrite keys_update; splits; reflexivity.
Qed.

Lemma resumes_none (p : ProbeEnv) (instanceId id : string) (vm : VM) (st : St) :
  Pool.get id (vmPool st) = None ->
  Pool.get id (vmPool (state_of (refresh_resumes cfg p instanceId vm st))) = None.
Proof.
  intros H. apply get_none_keys.
  destruct (resumes_frame p instanceId vm st) as (Hkeys & _). cbn zeta in Hkeys.
  rewrite Hkeys. apply get_none_keys. exact H.
Qed.

Lemma entry_is_head (id : string) (vm vm0 : VM) (rest : list (string * VM)) :
  List.NoDup (id :: List.map fst rest) -> In (id, vm) ((id, vm0) :: rest) -> vm0 = vm.
Proof.
  intros Hnd [H|H]; [congruence|]. exfalso.
  inversion Hnd as [|? ? Hfresh _]; subst. apply Hfresh.
  change id with (fst (id, vm)). apply in_map; exact H.
Qed.

(** **** The loop *)

Lemma probe_loop_cons (p : ProbeEnv) (instanceId : string) (vm : VM)
    (rest : list (string * VM)) (terminating : list string) (st : St) :
  probe_loop cfg p ((instanceId, vm) :: rest) terminating st =
  let t := status_at p instanceId in
  let s0 := set_pool (delete_all (List.filter (returned_by p t) terminating)) st in
  let r := refresh_resumes cfg p instanceId vm s0 in
  let k := probe_loop cfg p rest
             (List.filter (fun id => negb (returned_by p t id)) terminating
                ++ (if result_of r then [instanceId] else []))
             (state_of r) in
  (result_of k, state_of k, log_of r ++ log_of k).
Proof.
  simpl probe_loop. rewrite bind_unfold, deletes_eq. simpl.
  rewrite bind_unfold. reflexivity.
Qed.

Lemma probe_loop_gone (p : ProbeEnv) (answers : list (string * VM))
    (terminating : list string) (st : St) (id : string) :
  Pool.get id (vmPool st) = None ->
  Pool.get id (vmPool (state_of (probe_loop cfg p answers terminating st))) = None.
Proof.
  revert terminating st.
  induction answers as [|[instanceId vm] rest IH]; intros terminating st H.
  - simpl probe_loop. rewrite deletes_eq. simpl. apply get_delete_all_none; exact H.
  - rewrite probe_loop_cons. cbn zeta. simpl. apply IH.
    apply resumes_none. simpl. apply get_delete_all_none; exact H.
Qed.

Lemma probe_loop_deleted (p : ProbeEnv) (answers : list (string * VM))
    (terminating : list string) (st : St) (id : string) :
  In id terminating ->
  Pool.get id (vmPool (state_of (probe_loop cfg p answers terminating st))) = None.
Proof.
  revert terminating st.
  induction answers as [|[instanceId vm] rest IH]; intros terminating st H.
  - simpl probe_loop. rewrite deletes_eq. simpl. apply get_delete_all_in; exact H.
  - rewrite probe_loop_cons. cbn zeta. simpl.
    destruct (returned_by p (status_at p instanceId) id) eqn:E.
    + apply probe_loop_gone, resumes_none. simpl.
      apply get_delete_all_in. apply List.filter_In. split; assumption.
    + apply IH. apply in_or_app. left. apply List.filter_In.
      split; [exact H | rewrite E; reflexivity].
Qed.

Lemma probe_loop_untouched (p : ProbeEnv) (answers : list (string * VM))
    (terminating : list string) (st : St) (id : string) :
  ~ In id (List.map fst answers) -> ~ In id terminating ->
  Pool.get id (vmPool (state_of (probe_loop cfg p answers terminating st)))
  = Pool.get id (vmPool st).
Proof.
  revert terminating st.
  induction answers as [|[instanceId vm] rest IH]; intros terminating st Hnot Hpend.
  - simpl probe_loop. rewrite deletes_eq. simpl. apply get_delete_all_other; exact Hpend.
  - rewrite probe_loop_cons. cbn zeta. simpl. simpl in Hnot.
    assert (Hne : id <> instanceId) by (intros ->; tauto).
    rewrite IH.
    + rewrite resumes_other by exact Hne. simpl.
      apply get_delete_all_other. intros Hin. apply List.filter_In in Hin. tauto.
    + tauto.
    + intros Hin. apply in_app_or in Hin as [Hin|Hin].
      * apply List.filter_In in Hin. tauto.
      * destruct (result_of _); [destruct Hin as [Hin|[]]; congruence | destruct Hin].
Qed.

(** What is pending after one continuation, for a VM other than the one
    that was answered. *)
Lemma still_not_terminating (p : ProbeEnv) (t : Z) (terminating : list string)
    (called : bool) (instanceId id : string) :
  id <> instanceId -> ~ In id terminating ->
  ~ In id (List.filter (fun id0 => negb (returned_by p t id0)) terminating
             ++ (if called then [instanceId] else [])).
Proof.
  intros Hne Hpend Hin. apply in_app_or in Hin as [Hin|Hin].
  - apply List.filter_In in Hin. tauto.
  - destruct called; [destruct Hin as [Hin|[]]; congruence | destruct Hin].
Qed.

(** A VM whose probe is answered. *)
Lemma probe_loop_answered (p : ProbeEnv) (answers : list (string * VM))
    (terminating : list string) (st : St) (id : string) (vm : VM) (data : Js.val) :
  List.NoDup (List.map fst answers) ->
  In (id, vm) answers -> ~ In id terminating ->
  Pool.get id (vmPool st) <> None ->
  status p id = Some data ->
  Pool.get id (vmPool (state_of (probe_loop cfg p answers terminating st)))
  = Some (probed (probe_matchCount data) (status_at p id) vm).
Proof.
  revert terminating st. induction answers as [|[instanceId vm0] rest IH];
    intros terminating st Hnd Hin Hpend Hreg Hs; [destruct Hin|].
  rewrite probe_loop_cons. cbn zeta. simpl. simpl in Hnd.
  assert (Hkept : Pool.get id
                    (delete_all (List.filter (returned_by p (status_at p instanceId)) terminating)
                       (vmPool st)) = Pool.get id (vmPool st)).
  { apply get_delete_all_other. intros H. apply List.filter_In in H. tauto. }
  destruct (String.eqb_spec instanceId id) as [->|Hne].
  - pose proof (entry_is_head _ _ _ _ Hnd Hin); subst vm0.
    inversion Hnd as [|? ? Hfresh _]; subst.
    rewrite (resumes_success _ _ _ _ _ Hs). simpl.
    rewrite probe_loop_untouched.
    + simpl. destruct (Pool.get id (vmPool st)) as [old|] eqn:Hold; [|congruence].
      eapply get_update_same. rewrite Hkept. reflexivity.
    + exact Hfresh.
    + rewrite app_nil_r. intros H. apply List.filter_In in H. tauto.
  - inversion Hnd; subst. apply IH; try assumption.
    + destruct Hin as [Hin|Hin]; [congruence | exact Hin].
    + apply still_not_terminating; [congruence | exact Hpend].
    + rewrite resumes_other by congruence. simpl. rewrite Hkept. exact Hreg.
Qed.

(** A VM whose probe fails: its record, when it is kept, has one more
    failure. *)
Lemma probe_loop_unanswered (p : ProbeEnv) (answers : list (string * VM))
    (terminating : list string) (st : St) (id : string) (vm : VM) :
  List.NoDup (List.map fst answers) ->
  In (id, vm) answers -> ~ In id terminating ->
  Pool.get id (vmPool st) <> None ->
  status p id = None ->
  Pool.get id (vmPool (state_of (probe_loop cfg p answers terminating st))) = Some (missed vm) \/
  Pool.get id (vmPool (state_of (probe_loop cfg p answers terminating st))) = None.
Proof.
  revert terminating st. induction answers as [|[instanceId vm0] rest IH];
    intros terminating st Hnd Hin Hpend Hreg Hs; [destruct Hin|].
  rewrite probe_loop_cons. cbn zeta. simpl. simpl in Hnd.
  assert (Hkept : Pool.get id
                    (delete_all (List.filter (returned_by p (status_at p instanceId)) terminating)
                       (vmPool st)) = Pool.get id (vmPool st)).
  { apply get_delete_all_other. intros H. apply List.filter_In in H. tauto. }
  destruct (String.eqb_spec instanceId id) as [->|Hne].
  - pose proof (entry_is_head _ _ _ _ Hnd Hin); subst vm0.
    inversion Hnd as [|? ? Hfresh _]; subst.
    rewrite (resumes_failure _ _ _ _ Hs). cbn zeta.
    destruct (unreachable_guard _ _ _ _ _); simpl.
    + right. apply probe_loop_deleted. apply in_or_app. right. left; reflexivity.
    + left. rewrite probe_loop_untouched.
      * simpl. destruct (Pool.get id (vmPool st)) as [old|] eqn:Hold; [|congruence].
        eapply get_update_same. rewrite Hkept. reflexivity.
      * exact Hfresh.
      * rewrite app_nil_r. intros H. apply List.filter_In in H. tauto.
  - inversion Hnd; subst. apply IH; try assumption.
    + destruct Hin as [Hin|Hin]; [congruence | exact Hin].
    + apply still_not_terminating; [congruence | exact Hpend].
    + rewrite resumes_other by congruence. simpl. rewrite Hkept. exact Hreg.
Qed.

(** A VM whose probe fails for the threshold-th time, old enough and not
    protected, in a registry that holds more than [MIN_BACKUP_VMS] records
    even without the VMs being terminated and the other VMs whose probe
    fails. *)
Lemma probe_loop_terminates (p : ProbeEnv) (answers : list (string * VM))
    (terminating : list string) (st : St) (id : string) (vm : VM) :
  Pool.wf (vmPool st) ->
  List.NoDup (List.map fst answers) ->
  In (id, vm) answers -> ~ In id terminating ->
  status p id = None ->
  VM_UNREACHABLE_TERMINATE_THRESHOLD cfg <= unreachableCount vm + 1 ->
  (inject_Z (VM_AGE_TERMINATE_MINUTES cfg) <= ageMinutes (status_at p id) vm)%Q ->
  protectedVM st <> Some id ->
  MIN_BACKUP_VMS cfg + Z.of_nat (silent_others p id answers)
    + Z.of_nat (List.length terminating) < Pool.size (vmPool st) ->
  Pool.get id (vmPool (state_of (probe_loop cfg p answers terminating st))) = None /\
  exists ev, In ev (log_of (probe_loop cfg p answers terminating st)) /\
             call ev = TerminateInstances UnreachablePath id.
Proof.
  revert terminating st. induction answers as [|[instanceId vm0] rest IH];
    intros terminating st Hwf Hnd Hin Hpend Hs Hth Hage Hprot Hsize; [destruct Hin|].
  rewrite probe_loop_cons. cbn zeta. simpl in Hnd.
  set (t := status_at p instanceId) in *.
  set (F := List.filter (returned_by p t) terminating) in *.
  set (K := List.filter (fun id0 => negb (returned_by p t id0)) terminating) in *.
  assert (HFK : (List.length F + List.length K)%nat = List.length terminating)
    by apply filter_split_length.
  pose proof (size_delete_all F (vmPool st) Hwf) as HsizeF.
  pose proof (wf_delete_all F (vmPool st) Hwf) as HwfF.
  set (s0 := set_pool (delete_all F) st) in *.
  assert (Hwf0 : Pool.wf (vmPool s0)) by exact HwfF.
  assert (Hsize0 : Pool.size (vmPool st) - Z.of_nat (List.length F)
                   <= Pool.size (vmPool s0)) by exact HsizeF.
  destruct (resumes_frame p instanceId vm0 s0) as (Hkeys & Hp & _).
  cbn zeta in Hkeys, Hp.
  assert (Hsz1 : Pool.size (vmPool (state_of (refresh_resumes cfg p instanceId vm0 s0)))
                 = Pool.size (vmPool s0)) by (apply size_of_keys; exact Hkeys).
  assert (Hwf1 : Pool.wf (vmPool (state_of (refresh_resumes cfg p instanceId vm0 s0)))).
  { unfold Pool.wf. rewrite Hkeys. exact Hwf0. }
  destruct (String.eqb_spec instanceId id) as [->|Hne].
  - pose proof (entry_is_head _ _ _ _ Hnd Hin); subst vm0.
    rewrite (resumes_failure _ _ _ _ Hs). cbn zeta.
    assert (G : unreachable_guard cfg (status_at p id) (missed vm) id
                  (set_pool (Pool.update id (missed vm)) (set_clock (status_at p id) s0))
                = true).
    { unfold unreachable_guard. simpl. rewrite size_update.
      apply andb_true_intro; split; apply andb_true_intro; split.
      - apply Z.leb_le; exact Hth.
      - apply Qle_bool_iff; exact Hage.
      - apply negb_true_iff. unfold is_protected. simpl.
        destruct (protectedVM st) as [q|]; [|reflexivity].
        apply String.eqb_neq. congruence.
      - apply Z.ltb_lt. fold s0. lia. }
    rewrite G. simpl. split.
    + apply probe_loop_deleted. apply in_or_app. right. left; reflexivity.
    + eexists. split; [left; reflexivity | reflexivity].
  - inversion Hnd; subst.
    assert (Hin' : In (id, vm) rest) by (destruct Hin as [Hin|Hin]; [congruence | exact Hin]).
    assert (Hcount : (silent_others p id ((instanceId, vm0) :: rest)
                      = (match status p instanceId with Some _ => 0 | None => 1 end)
                        + silent_others p id rest)%nat).
    { unfold silent_others. simpl.
      destruct (String.eqb_spec instanceId id) as [Heq|_]; [congruence|]. simpl.
      destruct (status p instanceId); reflexivity. }
    rewrite Hcount in Hsize.
    destruct (IH (K ++ (if result_of (refresh_resumes cfg p instanceId vm0 s0)
                        then [instanceId] else []))
                 (state_of (refresh_resumes cfg p instanceId vm0 s0)))
      as (Hgone & ev & Hev & Hcall); try assumption.
    + apply still_not_terminating; [congruence | exact Hpend].
    + rewrite Hp. exact Hprot.
    + rewrite Hsz1, length_app.
      assert (Hcalled : result_of (refresh_resumes cfg p instanceId vm0 s0) = true ->
                        status p instanceId = None).
      { destruct (status p instanceId) as [data|] eqn:Hs0; [|reflexivity].
        rewrite (resumes_success _ _ _ _ _ Hs0). discriminate. }
      destruct (result_of (refresh_resumes cfg p instanceId vm0 s0)) eqn:Hres.
      * rewrite (Hcalled eq_refl) in Hsize. simpl List.length. lia.
      * simpl List.length. destruct (status p instanceId); lia.
    + split; [exact Hgone|]. exists ev. split; [|exact Hcall].
      simpl. apply in_or_app. right; exact Hev.
Qed.

(** **** All the probes of a registry *)

Lemma sorted_entries (p : ProbeEnv) (entries : list (string * VM)) :
  List.NoDup (List.map fst entries) ->
  List.NoDup (List.map fst (stable_sort (by_arrival p) entries)) /\
  (forall entry, In entry entries <-> In entry (stable_sort (by_arrival p) entries)).
Proof.
  intros Hnd. pose proof (stable_sort_perm (by_arrival p) entries) as Hperm. split.
  - eapply Permutation_NoDup; [apply Permutation_map; exact Hperm | exact Hnd].
  - intros entry. split; apply Permutation_in; [exact Hperm | apply Permutation_sym, Hperm].
Qed.

Lemma probe_entries_untouched (p : ProbeEnv) (entries : list (string * VM)) (st : St)
    (id : string) :
  ~ In id (List.map fst entries) ->
  Pool.get id (vmPool (state_of (probe_entries cfg p entries st))) = Pool.get id (vmPool st).
Proof.
  intros Hnot. apply probe_loop_untouched; [|intros []].
  intros H. apply Hnot.
  eapply Permutation_in; [|exact H].
  apply Permutation_map, Permutation_sym, stable_sort_perm.
Qed.

Lemma probe_entries_answered (p : ProbeEnv) (entries : list (string * VM)) (st : St)
    (id : string) (vm : VM) (data : Js.val) :
  List.NoDup (List.map fst entries) ->
  In (id, vm) entries ->
  Pool.get id (vmPool st) <> None ->
  status p id = Some data ->
  Pool.get id (vmPool (state_of (probe_entries cfg p entries st)))
  = Some (probed (probe_matchCount data) (status_at p id) vm).
Proof.
  intros Hnd Hin Hreg Hs. destruct (sorted_entries p entries Hnd) as [Hnd' Hsame].
  apply probe_loop_answered; try assumption; [apply Hsame; exact Hin | intros []].
Qed.

Lemma probe_entries_unanswered (p : ProbeEnv) (entries : list (string * VM)) (st : St)
    (id : string) (vm : VM) :
  List.NoDup (List.map fst entries) ->
  In (id, vm) entries ->
  Pool.get id (vmPool st) <> None ->
  status p id = None ->
  Pool.get id (vmPool (state_of (probe_entries cfg p entries st))) = Some (missed vm) \/
  Pool.get id (vmPool (state_of (probe_entries cfg p entries st))) = None.
Proof.
  intros Hnd Hin Hreg Hs. destruct (sorted_entries p entries Hnd) as [Hnd' Hsame].
  apply probe_loop_unanswered; try assumption; [apply Hsame; exact Hin | intros []].
Qed.

Lemma probe_entries_terminates (p : ProbeEnv) (st : St) (id : string) (vm : VM) :
  Pool.wf (vmPool st) ->
  In (id, vm) (vmPool st) ->
  status p id = None ->
  VM_UNREACHABLE_TERMINATE_THRESHOLD cfg <= unreachableCount vm + 1 ->
  (inject_Z (VM_AGE_TERMINATE_MINUTES cfg) <= ageMinutes (status_at p id) vm)%Q ->
  protectedVM st <> Some id ->
  MIN_BACKUP_VMS cfg + Z.of_nat (silent_others p id (vmPool st)) < Pool.size (vmPool st) ->
  Pool.get id (vmPool (state_of (probe_entries cfg p (vmPool st) st))) = None /\
  exists ev, In ev (log_of (probe_entries cfg p (vmPool st) st)) /\
             call ev = TerminateInstances UnreachablePath id.
Proof.
  intros Hwf Hin Hs Hth Hage Hprot Hsize.
  destruct (sorted_entries p (vmPool st) Hwf) as [Hnd' Hsame].
  apply (probe_loop_terminates p _ [] st id vm); try assumption.
  - apply Hsame; exact Hin.
  - intros [].
  - unfold silent_others in *.
    rewrite <- (filter_length_perm _ _ _ (stable_sort_perm (by_arrival p) (vmPool st))).
    simpl List.length. lia.
Qed.

Lemma refreshAll_eq (p : ProbeEnv) (st : St) :
  refreshAll cfg p st = probe_entries cfg p (vmPool st) st.
Proof.
  unfold refreshAll. rewrite bind_unfold. simpl.
  symmetry. apply triple_eta.
Qed.

Lemma launchBackupVM_other (l : LaunchEnv) (st : St) (id : string) :
  run_reply l <> Some id ->
  Pool.get id (vmPool (state_of (launchBackupVM cfg l st))) = Pool.get id (vmPool st).
Proof.
  intros Hne. rewrite launchBackupVM_eq.
  destruct (launching st); [reflexivity|].
  destruct (MAX_BACKUP_VMS cfg <=? Pool.size (vmPool st)); [reflexivity|].
  cbn zeta. simpl. rewrite launch_attempt_eq. cbn zeta.
  destruct (run_reply l) as [instanceId|]; [|reflexivity].
  destruct (String.eqb instanceId ""); [reflexivity|].
  pose proof (pollLoop_spec l instanceId maxPoll 0 (set_launching true st)) as H.
  cbn zeta in H.
  destruct (pollLoop l instanceId maxPoll 0 (set_launching true st)) as [[res s1] plog].
  simpl in H. destruct H as (_ & _ & _ & _ & Hpool).
  assert (Hap : vmPool (after_protect instanceId s1) = vmPool s1).
  { unfold after_protect. destruct (Js.falsy_str _); reflexivity. }
  assert (Hid : instanceId <> id) by congruence.
  simpl.
  destruct res as [ip1|]; [destruct (String.eqb ip1 "")|]; simpl;
    rewrite ?Hap, ?get_delete_other by exact Hid;
    rewrite Hpool; try reflexivity; apply get_set_other; exact Hid.
Qed.

(** C10, as amended. [getAvailableVM] rewrites the registry records of the
    VMs it probes. A VM whose probe is answered has its [matchCount]
    replaced by the reported count, its [unreachableCount] reset to 0 and
    its [lastSeen] set to the instant of the answer. A VM whose probe fails
    has its [unreachableCount] incremented by one, unless it is removed.
    And when the failure is the [VM_UNREACHABLE_TERMINATE_THRESHOLD]-th in
    a row, the VM is at least [VM_AGE_TERMINATE_MINUTES] old, it is not the
    protected VM, and the registry holds more than [MIN_BACKUP_VMS] records
    even without the other VMs whose probe fails in the same call, the
    request path itself calls [TerminateInstances] for it and removes it
    from the registry, in whatever order the answers of the concurrent
    probes arrive. *)
Theorem allocation_probes_mutate_and_may_terminate
    (p : ProbeEnv) (l : LaunchEnv) (st : St) (instanceId : string) (vm : VM) :
  Pool.wf (vmPool st) ->
  In (instanceId, vm) (vmPool st) ->
  run_reply l <> Some instanceId ->
  let r := getAvailableVM cfg p l st in
  let record := Pool.get instanceId (vmPool (state_of r)) in
  (forall data, status p instanceId = Some data ->
     exists vm', record = Some vm' /\
       matchCount vm' = probe_matchCount data /\
       unreachableCount vm' = 0 /\
       lastSeen vm' = status_at p instanceId /\
       ip vm' = ip vm /\ launchedAt vm' = launchedAt vm) /\
  (status p instanceId = None ->
     record = None \/
     exists vm', record = Some vm' /\
       unreachableCount vm' = unreachableCount vm + 1 /\
       matchCount vm' = matchCount vm /\ lastSeen vm' = lastSeen vm /\
       ip vm' = ip vm /\ launchedAt vm' = launchedAt vm) /\
  (status p instanceId = None ->
   VM_UNREACHABLE_TERMINATE_THRESHOLD cfg <= unreachableCount vm + 1 ->
   (inject_Z (VM_AGE_TERMINATE_MINUTES cfg) <= ageMinutes (status_at p instanceId) vm)%Q ->
   protectedVM st <> Some instanceId ->
   MIN_BACKUP_VMS cfg + Z.of_nat (silent_others p instanceId (vmPool st))
     < Pool.size (vmPool st) ->
   record = None /\
   exists ev, In ev (log_of r) /\ call ev = TerminateInstances UnreachablePath instanceId).
Proof.
  intros Hwf Hin Hrun r record.
  assert (Hreg : Pool.get instanceId (vmPool st) <> None)
    by (eapply entry_registered; exact Hin).
  assert (Hrecord : record
                    = Pool.get instanceId (vmPool (state_of (probe_entries cfg p (vmPool st) st)))).
  { subst record r. unfold getAvailableVM. rewrite state_of_bind.
    rewrite refreshAll_eq. cbv beta. rewrite select_eq.
    destruct (candidates cfg _) as [|[id0 vm0] rest]; [|reflexivity].
    apply launchBackupVM_other; exact Hrun. }
  assert (Hlog : forall ev, In ev (log_of (probe_entries cfg p (vmPool st) st)) -> In ev (log_of r)).
  { intros ev Hev. subst r. unfold getAvailableVM. rewrite log_of_bind, refreshAll_eq.
    apply in_or_app. left; exact Hev. }
  rewrite Hrecord. splits.
  - intros data Hs.
    rewrite (probe_entries_answered p (vmPool st) st instanceId vm data Hwf Hin Hreg Hs).
    eexists. split; [reflexivity|]. splits; reflexivity.
  - intros Hs.
    destruct (probe_entries_unanswered p (vmPool st) st instanceId vm Hwf Hin Hreg Hs)
      as [H|H]; rewrite H; [right | left; reflexivity].
    eexists. split; [reflexivity|]. splits; reflexivity.
  - intros Hs Hth Hage Hprot Hmin.
    destruct (probe_entries_terminates p st instanceId vm)
      as (Hgone & ev & Hev & Hcall); try assumption.
    split; [exact Hgone|]. exists ev. split; [apply Hlog; exact Hev | exact Hcall].
Qed.

End Allocation.

(** C10, as stated, fails: reaching the threshold at a sufficient age does not
    suffice. ["B"] is the protected VM (and the only one); its probe fails for
    the second time in a row, ten minutes after its launch. The request path
    neither terminates it nor removes it; it even returns it as the VM to
    start the match on. *)
Lemma protected_vm_outlives_failed_probes :
  let r := getAvailableVM default_config only_A_answers (never_ready "ins-1") only_B in
  status only_A_answers "B" = None /\
  VM_UNREACHABLE_TERMINATE_THRESHOLD default_config <= unreachableCount (missed vmB) /\
  (inject_Z (VM_AGE_TERMINATE_MINUTES default_config)
     <= ageMinutes (status_at only_A_answers "B") vmB)%Q /\
  Pool.get "B" (vmPool (state_of r)) = Some (missed vmB) /\
  log_of r = [] /\
  result_of r = Some ("B", "10.0.0.2").
Proof.
  vm_compute. splits; try reflexivity; discriminate.
Qed.

(** Witness of [allocation_probes_mutate_and_may_terminate]: ["B"] and
    ["C"], next to the protected ["A"], both miss their second probe at the
    age of ten minutes; both are terminated. *)
Lemma allocation_probes_mutate_and_may_terminate_witness :
  Pool.wf (vmPool three_vms) /\
  In ("B", vmB) (vmPool three_vms) /\ In ("C", vmB) (vmPool three_vms) /\
  silent_others only_A_answers "B" (vmPool three_vms) = 1%nat /\
  let r := getAvailableVM default_config only_A_answers (never_ready "ins-1") three_vms in
  (Pool.get "B" (vmPool (state_of r)) = None /\
   exists ev, In ev (log_of r) /\ call ev = TerminateInstances UnreachablePath "B") /\
  (Pool.get "C" (vmPool (state_of r)) = None /\
   exists ev, In ev (log_of r) /\ call ev = TerminateInstances UnreachablePath "C").
Proof.
  assert (Hwf : Pool.wf (vmPool three_vms)).
  { repeat constructor; simpl; intuition discriminate. }
  assert (HB : In ("B", vmB) (vmPool three_vms)) by (right; left; reflexivity).
  assert (HC : In ("C", vmB) (vmPool three_vms)) by (right; right; left; reflexivity).
  assert (Hcount : silent_others only_A_answers "B" (vmPool three_vms) = 1%nat)
    by reflexivity.
  assert (HrunB : run_reply (never_ready "ins-1") <> Some "B") by discriminate.
  assert (HrunC : run_reply (never_ready "ins-1") <> Some "C") by discriminate.
  split; [exact Hwf|]. split; [exact HB|]. split; [exact HC|]. split; [exact Hcount|].
  cbn zeta. split.
  - apply (allocation_probes_mutate_and_may_terminate default_config
             only_A_answers (never_ready "ins-1") three_vms "B" vmB Hwf HB HrunB).
    + reflexivity.
    + vm_compute; discriminate.
    + vm_compute; discriminate.
    + discriminate.
    + vm_compute; reflexivity.
  - apply (allocation_probes_mutate_and_may_terminate default_config
             only_A_answers (never_ready "ins-1") three_vms "C" vmB Hwf HC HrunC).
    + reflexivity.
    + vm_compute; discriminate.
    + vm_compute; discriminate.
    + discriminate.
    + vm_compute; reflexivity.
Defined.

(** ** The selection of [getAvailableVM] *)

Section Selection.

Context (cfg : Config).

Lemma by_load_le (a b : string * VM) : by_load a b <> Gt <-> load_le a b.
Proof.
  unfold by_load, load_le.
  destruct (Qcompare (matchCount (snd a)) (matchCount (snd b))) eqn:E.
  - apply Qeq_alt in E. split.
    + intros H. right. split; [exact E|]. exact H.
    + intros [H|[_ H]]; [|exact H]. exfalso. rewrite E in H. apply (Qlt_irrefl _ H).
  - apply Qlt_alt in E. split; [auto | discriminate].
  - apply Qgt_alt in E. split; [congruence|].
    intros [H|[H _]]; exfalso.
    + apply (Qlt_irrefl (matchCount (snd a))). eapply Qlt_trans; eassumption.
    + rewrite H in E. apply (Qlt_irrefl _ E).
Qed.

Lemma load_le_total (a b : string * VM) : by_load a b = Gt -> load_le b a.
Proof.
  unfold by_load, load_le.
  destruct (Qcompare (matchCount (snd a)) (matchCount (snd b))) eqn:E; intros H.
  - apply Qeq_alt in E. right. split; [symmetry; exact E|].
    apply Z.compare_gt_iff in H. lia.
  - discriminate.
  - apply Qgt_alt in E. left; exact E.
Qed.

Lemma load_le_trans (a b c : string * VM) : load_le a b -> load_le b c -> load_le a c.
Proof.
  unfold load_le. intros [H1|[H1 H1']] [H2|[H2 H2']].
  - left. eapply Qlt_trans; eassumption.
  - left. rewrite <- H2. exact H1.
  - left. rewrite H1. exact H2.
  - right. split; [rewrite H1; exact H2 | lia].
Qed.

Lemma insert_sorted_keeps (x y : string * VM) (l : list (string * VM)) :
  In y (x :: l) -> In y (insert_sorted by_load x l).
Proof.
  induction l as [|z l IH]; simpl; [tauto|].
  destruct (by_load x z); simpl; try tauto.
  intros [H|[H|H]]; [right; apply IH; left; exact H | left; exact H
                    | right; apply IH; right; exact H].
Qed.

Lemma stable_sort_keeps (y : string * VM) (l : list (string * VM)) :
  In y l -> In y (stable_sort by_load l).
Proof.
  induction l as [|x l IH]; simpl; [tauto|].
  intros [H|H]; apply insert_sorted_keeps; [left; exact H | right; auto].
Qed.

Lemma insert_sorted_sorted (x : string * VM) (l : list (string * VM)) :
  StronglySorted load_le l -> StronglySorted load_le (insert_sorted by_load x l).
Proof.
  induction 1 as [|z l Hl IH Hz]; simpl.
  - repeat constructor.
  - destruct (by_load x z) eqn:E.
    + assert (Hxz : load_le x z) by (apply by_load_le; congruence).
      constructor; [constructor; assumption|].
      constructor; [exact Hxz|].
      eapply List.Forall_impl; [|exact Hz]. intros c Hc. eapply load_le_trans; eassumption.
    + assert (Hxz : load_le x z) by (apply by_load_le; congruence).
      constructor; [constructor; assumption|].
      constructor; [exact Hxz|].
      eapply List.Forall_impl; [|exact Hz]. intros c Hc. eapply load_le_trans; eassumption.
    + constructor; [exact IH|].
      apply List.Forall_forall. intros c Hc.
      apply insert_sorted_In in Hc as [->|Hc].
      * apply load_le_total; exact E.
      * rewrite List.Forall_forall in Hz. apply Hz; exact Hc.
Qed.

Lemma stable_sort_sorted (l : list (string * VM)) :
  StronglySorted load_le (stable_sort by_load l).
Proof.
  induction l as [|x l IH]; simpl; [constructor|].
  apply insert_sorted_sorted; exact IH.
Qed.

(** What the code computes at lines 246-256: the candidates are the
    registered VMs with [matchCount < FULL_MATCH_LIMIT], whatever their
    [unreachableCount]; the one returned sorts no later than any other by
    (matchCount, lastSeen); a launch is attempted only when there is no
    candidate. *)
Lemma select_spec (l : LaunchEnv) (st : St) :
  (forall entry, In entry (candidates cfg (vmPool st)) <->
     In entry (vmPool st) /\
     (matchCount (snd entry) < inject_Z (FULL_MATCH_LIMIT cfg))%Q) /\
  match candidates cfg (vmPool st) with
  | first :: _ =>
      select cfg l st = (Some (fst first, ip (snd first)), st, []) /\
      forall other, In other (candidates cfg (vmPool st)) -> load_le first other
  | [] => select cfg l st = launchBackupVM cfg l st
  end.
Proof.
  split.
  - intros entry. split; [apply candidates_In|].
    intros [Hin Hlt]. unfold candidates. apply stable_sort_keeps.
    apply List.filter_In. split; [exact Hin|]. apply Qlt_bool_true; exact Hlt.
  - rewrite select_eq.
    pose proof (stable_sort_sorted
                  (List.filter
                     (fun entry => Qlt_bool (matchCount (snd entry))
                                     (inject_Z (FULL_MATCH_LIMIT cfg)))
                     (vmPool st))) as Hsorted.
    fold (candidates cfg (vmPool st)) in Hsorted.
    destruct (candidates cfg (vmPool st)) as [|[id vm] rest]; [reflexivity|].
    split; [reflexivity|].
    intros other [<-|Hin].
    + right. split; [reflexivity | lia].
    + inversion Hsorted as [|? ? _ Hall]; subst.
      rewrite List.Forall_forall in Hall. apply Hall; exact Hin.
Qed.

End Selection.

(** ** The protected VM *)

Lemma oldest_In (ids : list string) (pool : list (string * VM)) (id : string) :
  oldest ids pool = Some id -> In id ids.
Proof.
  unfold oldest. intros H. apply (stable_sort_In (by_launchedAt pool)).
  destruct (stable_sort (by_launchedAt pool) ids) as [|x l]; [discriminate|].
  inversion H; subst. left; reflexivity.
Qed.

Lemma choose_protected_valid (st : St) :
  pointer_valid st -> pointer_valid (state_of (choose_protected st)).
Proof.
  unfold choose_protected. rewrite state_of_bind. simpl.
  destruct (oldest (Pool.keys (vmPool st)) (vmPool st)) as [id|] eqn:E; simpl; [|auto].
  intros _. unfold pointer_valid. simpl. right.
  apply get_in_keys. eapply oldest_In; exact E.
Qed.

(** The last step of a tick repairs the slot. *)
Lemma recomputeProtectedVM_valid (st : St) :
  pointer_valid (state_of (recomputeProtectedVM st)).
Proof.
  unfold recomputeProtectedVM. rewrite state_of_bind. simpl.
  destruct (Js.falsy_str (protectedVM st)) eqn:F.
  - apply choose_protected_valid. unfold pointer_valid.
    destruct (protectedVM st) as [q|]; [|exact I]. left.
    apply String.eqb_eq. exact F.
  - destruct (protectedVM st) as [q|] eqn:Hp; [|discriminate].
    destruct (Pool.get q (vmPool st)) as [current|] eqn:Hq.
    + rewrite state_of_bind. simpl.
      destruct (Qlt_bool _ _); simpl.
      * destruct (oldest _ (vmPool st)) as [id|] eqn:E; simpl.
        -- unfold pointer_valid. simpl. right. apply get_in_keys.
           apply oldest_In in E. apply List.filter_In in E. tauto.
        -- unfold pointer_valid. rewrite Hp. right. congruence.
      * unfold pointer_valid. rewrite Hp. right. congruence.
    + rewrite state_of_bind. apply choose_protected_valid. exact I.
Qed.

(** After a reconciler tick the slot is empty or names a registered VM,
    whatever the state before the tick. *)
Lemma updateVMs_valid (cfg : Config) (e : TickEnv) (st : St) :
  pointer_valid (state_of (updateVMs cfg e st)).
Proof.
  unfold updateVMs. repeat (rewrite state_of_bind; cbv beta).
  apply recomputeProtectedVM_valid.
Qed.

(** ** Validation of match requests *)

(** The guard of line 390 rejects exactly the requests whose [matchId] or
    [gameMode] is missing or empty, or whose [gameMode] names no property of
    [SCENE_MAP], own or inherited. *)
Lemma valid_request_none (rq : MatchRequest) :
  valid_request rq = None <->
  Js.falsy_str (matchId rq) = true \/
  Js.falsy_str (gameMode rq) = true \/
  exists gm, gameMode rq = Some gm /\ Js.truthy (SCENE_MAP_index gm) = false.
Proof.
  unfold valid_request, Js.falsy_str.
  destruct (matchId rq) as [mid|]; [|split; [auto | reflexivity]].
  destruct (gameMode rq) as [gm|]; [|split; [auto | reflexivity]].
  destruct (String.eqb mid ""); simpl; [split; [auto | reflexivity]|].
  destruct (String.eqb gm ""); simpl; [split; [auto | reflexivity]|].
  destruct (Js.truthy (SCENE_MAP_index gm)) eqn:E; simpl.
  - split; [discriminate|].
    intros [H|[H|(gm' & Hgm & Ht)]]; try discriminate. congruence.
  - split; [|reflexivity]. intros _. right; right. exists gm; auto.
Qed.

(** A property lookup on [SCENE_MAP] is truthy for the three scene keys and
    for the names inherited from [Object.prototype]. *)
Lemma scene_lookup_truthy (gm : string) :
  Js.truthy (SCENE_MAP_index gm) = true <->
  is_scene_key gm = true \/ In gm Object_prototype_functions \/ gm = "__proto__".
Proof.
  unfold SCENE_MAP_index, is_scene_key.
  destruct (own_scene gm SCENE_MAP) as [scene|] eqn:Hown.
  - split; [auto|]. intros _.
    unfold SCENE_MAP in Hown. simpl in Hown.
    repeat match type of Hown with
           | (if ?b then _ else _) = _ => destruct b
           end; inversion Hown; reflexivity.
  - destruct (existsb (String.eqb gm) Object_prototype_functions) eqn:Hproto.
    + split; [|reflexivity]. intros _. right; left.
      apply List.existsb_exists in Hproto as (k & Hk & Heq).
      apply String.eqb_eq in Heq. subst k. exact Hk.
    + destruct (String.eqb_spec gm "__proto__") as [->|Hne]; simpl.
      * split; auto.
      * split; [discriminate|]. intros [H|[H|H]]; [discriminate| |congruence].
        exfalso. assert (Hex : existsb (String.eqb gm) Object_prototype_functions = true).
        { apply List.existsb_exists. exists gm. split; [exact H | apply String.eqb_refl]. }
        congruence.
Qed.

(** A request that the guard rejects is answered 400 and changes nothing:
    the state is the same and no cloud call is made. *)
Lemma rejected_request_changes_nothing
    (cfg : Config) (matchPrivacy : string) (rq : MatchRequest) (e : RequestEnv) (st : St) :
  valid_request rq = None ->
  handleMatchRequest cfg matchPrivacy rq e st =
  ({| code := 400; body := ErrorBody "Missing or invalid matchId/gameMode" |}, st, []).
Proof. intros H. rewrite handleMatchRequest_eq, H. reflexivity. Qed.

(** ** Witnesses and counterexamples *)

(** Witness of [reconciler_terminations_are_guarded]: the tick that loses
    ["B"]. *)
Lemma reconciler_terminations_are_guarded_witness :
  Pool.wf (vmPool two_vms) /\
  In B_terminated (log_of (updateVMs default_config B_lost_tick two_vms)) /\
  reconciler_terminates (call B_terminated) "B" /\
  protectedVM (at_state B_terminated) <> Some "B" /\
  ~ Pool.size (vmPool (at_state B_terminated)) <= MIN_BACKUP_VMS default_config /\
  exists vm, Pool.get "B" (vmPool (at_state B_terminated)) = Some vm /\
             ~ (ageMinutes (clock (at_state B_terminated)) vm
                  < inject_Z (VM_AGE_TERMINATE_MINUTES default_config))%Q.
Proof.
  assert (Hwf : Pool.wf (vmPool two_vms)).
  { repeat constructor; simpl; intuition discriminate. }
  assert (Hin : In B_terminated (log_of (updateVMs default_config B_lost_tick two_vms))).
  { vm_compute. left; reflexivity. }
  assert (Hcall : reconciler_terminates (call B_terminated) "B") by (left; reflexivity).
  splits; try assumption;
    apply (reconciler_terminations_are_guarded default_config B_lost_tick two_vms
             B_terminated "B" Hwf Hin Hcall).
Defined.

(** Witness of [matchCount_bumped_iff_start_accepted]: ["A"] accepts
    ["m1"] and its count goes from 0 to 1; a worker that refuses leaves the
    state as it is and the answer is 500. *)
Lemma matchCount_bumped_iff_start_accepted_witness :
  let rq := request "m1" "VersusMen_Online" in
  let alloc := getAvailableVM default_config (rq_probes (healthy 0 7001))
                 (rq_launch (healthy 0 7001)) one_vm in
  let r := Interleaved.startOnTarget nothing_else default_config "Public" rq
             (healthy 0 7001) "m1" "VersusMen_Online" ("A", "10.0.0.1") (state_of alloc) in
  let r' := Interleaved.startOnTarget nothing_else default_config "Public" rq
              outage "m1" "VersusMen_Online" ("A", "10.0.0.1") one_vm in
  (start_accepted default_config (healthy 0 7001) "Public" rq
     "m1" "VersusMen_Online" "10.0.0.1" = true /\
   result_of alloc = Some ("A", "10.0.0.1") /\
   code (result_of r) = 200 /\
   exists vm', Pool.get "A" (vmPool (state_of r)) = Some vm' /\
               (matchCount vm' == 1)%Q) /\
  (start_accepted default_config outage "Public" rq
     "m1" "VersusMen_Online" "10.0.0.1" = false /\
   code (result_of r') = 500 /\
   state_of r' = set_clock 2000 one_vm).
Proof.
  intros rq alloc r r'.
  assert (H1 : start_accepted default_config (healthy 0 7001) "Public" rq
                 "m1" "VersusMen_Online" "10.0.0.1" = true) by reflexivity.
  assert (H2 : start_accepted default_config outage "Public" rq
                 "m1" "VersusMen_Online" "10.0.0.1" = false) by reflexivity.
  assert (H3 : Pool.get "A" (vmPool (set_clock (start_at (healthy 0 7001))
                                      (nothing_else StartReturns (state_of alloc))))
               = Some (probed 0 1000 vmA)) by reflexivity.
  assert (H4 : (matchCount (probed 0 1000 vmA) == inject_Z 0)%Q) by reflexivity.
  destruct (matchCount_bumped_iff_start_accepted default_config nothing_else "Public" rq
              (healthy 0 7001) "m1" "VersusMen_Online" "A" "10.0.0.1" (state_of alloc))
    as (Hyes & _).
  destruct (Hyes H1) as (Hcode & Hbump & _).
  destruct (Hbump _ H3) as (vm' & Hget & _ & Hexact & _).
  destruct (matchCount_bumped_iff_start_accepted default_config nothing_else "Public" rq
              outage "m1" "VersusMen_Online" "A" "10.0.0.1" one_vm)
    as (_ & Hno & _).
  destruct (Hno H2) as (Hcode' & Hstate').
  split; [split; [exact H1|split; [reflexivity|split; [exact Hcode|]]]
         |split; [exact H2|split; [exact Hcode'|exact Hstate']]].
  exists vm'. split; [exact Hget|].
  exact (Hexact 0 ltac:(lia) H4).
Defined.

(** The increment of a count of 2^53 leaves it as it is. *)
Lemma matchCount_stays_at_two_to_the_53 (vm : VM) :
  matchCount vm = inject_Z (2 ^ 53) ->
  matchCount (bump vm) = inject_Z (2 ^ 53).
Proof. intros H. unfold bump. simpl. rewrite H. vm_compute. reflexivity. Qed.

(** C6, as stated, fails. ["A"] and ["B"] are registered; a request is
    allocated ["A"] and posts [/start-match] to it. While the handler
    waits, the [syncWithCloud] of a reconciler tick removes ["A"], which
    the cloud no longer lists as RUNNING. The worker accepts the match and
    the handler answers 200, but the guard of line 410 finds no record:
    the start succeeded and no [matchCount] was incremented. *)
Lemma vm_removed_during_start_is_not_counted :
  let rq := request "m1" "VersusMen_Online" in
  let e := healthy 0 7001 in
  let alloc := getAvailableVM default_config (rq_probes e) (rq_launch e) two_vms in
  let r := Interleaved.startOnTarget A_leaves_meanwhile default_config "Public" rq e
             "m1" "VersusMen_Online" ("A", "10.0.0.1") (state_of alloc) in
  valid_request rq = Some ("m1", "VersusMen_Online") /\
  result_of alloc = Some ("A", "10.0.0.1") /\
  start_accepted default_config e "Public" rq "m1" "VersusMen_Online" "10.0.0.1" = true /\
  code (result_of r) = 200 /\
  option_map vmInstanceId (matches (state_of r) !! "m1") = Some "A" /\
  Pool.get "A" (vmPool (state_of r)) = None /\
  vmPool (state_of r) = Pool.delete "A" (vmPool (state_of alloc)).
Proof. vm_compute. splits; reflexivity. Qed.

(** C5, as stated, fails: a second successful request with the same
    [matchId] replaces the record, so two lookups of a created match return
    different bodies. *)
Lemma second_start_replaces_match_record :
  let answers := result_of (run default_config m1_twice one_vm) in
  option_map (option_map code) (nth_error answers 1) = Some (Some 200) /\
  option_map (option_map code) (nth_error answers 3) = Some (Some 200) /\
  nth_error answers 1 <> nth_error answers 3.
Proof.
  vm_compute. splits; try reflexivity. discriminate.
Qed.

(** Witness of [match_record_is_stable_absent_same_id_requests]: the record
    of ["m1"] across a tick, a lookup and a request for ["m2"]. *)
Lemma match_record_is_stable_absent_same_id_requests_witness :
  "m1" <> "" /\
  matches serving_m1 !! "m1" = Some m1_record /\
  (forall matchPrivacy rq e, In (RequestMatch matchPrivacy rq e) busy_day ->
     matchId rq <> Some "m1") /\
  let st' := state_of (run default_config busy_day serving_m1) in
  matches st' !! "m1" = Some m1_record /\
  matchDetails "m1" st' = ({| code := 200; body := RecordBody m1_record |}, st', []).
Proof.
  assert (H1 : "m1" <> "") by discriminate.
  assert (H2 : matches serving_m1 !! "m1" = Some m1_record) by reflexivity.
  assert (H3 : forall matchPrivacy rq e, In (RequestMatch matchPrivacy rq e) busy_day ->
                 matchId rq <> Some "m1").
  { intros matchPrivacy rq e [H|[H|[H|[]]]]; try discriminate.
    inversion H; subst. discriminate. }
  split; [exact H1|]. split; [exact H2|]. split; [exact H3|].
  destruct (match_record_is_stable_absent_same_id_requests default_config
              busy_day serving_m1 "m1" m1_record H1 H2 H3) as (Hrec & Hget & _).
  split; [exact Hrec | exact Hget].
Defined.

(** * Further properties *)

(** ** Synchronisation with the cloud *)

Lemma cloudMap_get_In (id : string) (allInstances : list Instance) (inst : Instance) :
  cloudMap_get id allInstances = Some inst ->
  In inst allInstances /\ InstanceId inst = id.
Proof.
  induction allInstances as [|i0 rest IH]; simpl; [discriminate|].
  destruct (cloudMap_get id rest) as [later|].
  - intros H; inversion H; subst. destruct (IH eq_refl). auto.
  - destruct (String.eqb_spec id (InstanceId i0)); [|discriminate].
    intros H; inversion H; subst. auto.
Qed.

(** The registry after one iteration of the removal loop. *)
Lemma sync_remove_pool (allInstances : list Instance) (id0 : string) (st : St) :
  ((exists inst, cloudMap_get id0 allInstances = Some inst /\ is_running inst = true) /\
   (vmPool (state_of (sync_remove allInstances id0 st)) = vmPool st \/
    exists vm ip0,
      Pool.get id0 (vmPool st) = Some vm /\ ip0 <> "" /\
      vmPool (state_of (sync_remove allInstances id0 st))
        = Pool.update id0 (with_ip ip0 vm) (vmPool st))) \/
  ((forall inst, cloudMap_get id0 allInstances = Some inst -> is_running inst = false) /\
   vmPool (state_of (sync_remove allInstances id0 st)) = Pool.delete id0 (vmPool st)).
Proof.
  unfold sync_remove.
  destruct (cloudMap_get id0 allInstances) as [inst|] eqn:Hc.
  - destruct (is_running inst) eqn:Hr.
    + left. split; [exists inst; auto|].
      destruct (hd_error (PublicIpAddresses inst)) as [ip0|] eqn:Hip; [|left; reflexivity].
      rewrite state_of_bind. simpl.
      destruct (Pool.get id0 (vmPool st)) as [vm|] eqn:Hg; [|left; reflexivity].
      destruct (String.eqb_spec ip0 ""); simpl; [left; reflexivity|].
      destruct (String.eqb (ip vm) ip0); simpl; [left; reflexivity|].
      right. exists vm, ip0. splits; try reflexivity; assumption.
    + right. split.
      * intros inst' H; inversion H; subst; exact Hr.
      * rewrite !state_of_bind. simpl.
        destruct (is_protected _ id0); reflexivity.
  - right. split; [discriminate|].
    rewrite !state_of_bind. simpl.
    destruct (is_protected _ id0); reflexivity.
Qed.

(** The registry after one iteration of the insertion loop. *)
Lemma sync_add_pool (inst : Instance) (st : St) :
  (vmPool (state_of (sync_add inst st)) = vmPool st /\
   (trackable inst -> Pool.get (InstanceId inst) (vmPool st) <> None)) \/
  (trackable inst /\ Pool.get (InstanceId inst) (vmPool st) = None /\
   exists ip0, hd_error (PublicIpAddresses inst) = Some ip0 /\
     vmPool (state_of (sync_add inst st))
       = Pool.set (InstanceId inst) (fresh_vm ip0 (clock st)) (vmPool st)).
Proof.
  unfold sync_add, trackable.
  destruct (is_running inst) eqn:Hr; simpl.
  - destruct (hd_error (PublicIpAddresses inst)) as [ip0|] eqn:Hip.
    + destruct (String.eqb_spec ip0 "") as [->|Hne].
      * left. split; [reflexivity|]. intros (_ & ip1 & H1 & H2). congruence.
      * rewrite state_of_bind. simpl. unfold Pool.has.
        destruct (Pool.get (InstanceId inst) (vmPool st)) eqn:Hg.
        -- left. split; [reflexivity|]. intros _; discriminate.
        -- right. split; [split; [reflexivity|]; exists ip0; auto|].
           split; [reflexivity|]. exists ip0. split; [reflexivity|].
           rewrite !state_of_bind. reflexivity.
    + left. split; [reflexivity|]. intros (_ & ip1 & H1 & _). discriminate.
  - left. split; [reflexivity|]. intros (H & _). discriminate.
Qed.

Lemma sync_remove_keys (allInstances : list Instance) (id0 id : string) (st : St) :
  In id (Pool.keys (vmPool (state_of (sync_remove allInstances id0 st)))) ->
  In id (Pool.keys (vmPool st)) /\ (id = id0 -> cloud_running allInstances id).
Proof.
  destruct (sync_remove_pool allInstances id0 st)
    as [((inst & Hc & Hr) & [-> | (vm & ip0 & _ & _ & ->)]) | (_ & ->)].
  - intros H. split; [exact H|]. intros ->.
    apply cloudMap_get_In in Hc as [Hin Hid]. exists inst; auto.
  - rewrite keys_update. intros H. split; [exact H|]. intros ->.
    apply cloudMap_get_In in Hc as [Hin Hid]. exists inst; auto.
  - rewrite keys_delete. intros H. apply List.filter_In in H as [H Hne].
    split; [exact H|]. intros ->. rewrite String.eqb_refl in Hne. discriminate.
Qed.

Lemma remove_loop_sound (allInstances : list Instance) (ids : list string) (st : St) :
  (forall id, In id (Pool.keys (vmPool st)) -> In id ids \/ cloud_running allInstances id) ->
  forall id,
    In id (Pool.keys (vmPool (state_of (forEach ids (sync_remove allInstances) st)))) ->
    cloud_running allInstances id.
Proof.
  revert st. induction ids as [|id0 rest IH]; intros st H id Hin.
  - destruct (H id Hin) as [[]|]; assumption.
  - simpl in Hin. rewrite state_of_bind in Hin.
    apply (IH (state_of (sync_remove allInstances id0 st))); [|exact Hin].
    intros id' Hin'. apply sync_remove_keys in Hin' as [Hk Hrun].
    destruct (String.eqb_spec id' id0) as [Heq|Hne]; [right; auto|].
    destruct (H id' Hk) as [[Heq|Hr]|Hr]; [congruence | left; exact Hr | right; exact Hr].
Qed.

Lemma sync_add_keys (allInstances : list Instance) (inst : Instance) (id : string) (st : St) :
  In inst allInstances ->
  In id (Pool.keys (vmPool (state_of (sync_add inst st)))) ->
  In id (Pool.keys (vmPool st)) \/ cloud_running allInstances id.
Proof.
  intros Hall.
  destruct (sync_add_pool inst st) as [(-> & _) | ((Hr & _) & Hnone & ip0 & _ & ->)].
  - auto.
  - rewrite keys_set. unfold Pool.has. rewrite Hnone.
    intros H. apply in_app_or in H as [H|[<-|[]]]; [left; exact H|].
    right. exists inst; auto.
Qed.

Lemma add_loop_sound (allInstances insts : list Instance) (st : St) :
  (forall inst, In inst insts -> In inst allInstances) ->
  (forall id, In id (Pool.keys (vmPool st)) -> cloud_running allInstances id) ->
  forall id,
    In id (Pool.keys (vmPool (state_of (forEach insts sync_add st)))) ->
    cloud_running allInstances id.
Proof.
  revert st. induction insts as [|inst rest IH]; intros st Hsub H id Hin.
  - apply H; exact Hin.
  - simpl in Hin. rewrite state_of_bind in Hin.
    apply (IH (state_of (sync_add inst st))); [| |exact Hin].
    + intros i Hi. apply Hsub. right; exact Hi.
    + intros id' Hin'.
      apply (sync_add_keys allInstances) in Hin' as [Hk|Hr]; auto.
      apply Hsub. left; reflexivity.
Qed.

(** The registry that [syncWithCloud] leaves when [DescribeInstances]
    answers: the removal loop, then the insertion loop. *)
Lemma syncWithCloud_pool (e : SyncEnv) (allInstances : list Instance) (st : St) :
  describe e = Some allInstances ->
  vmPool (state_of (syncWithCloud e st))
  = vmPool (state_of (forEach allInstances sync_add
              (state_of (forEach (Pool.keys (vmPool st)) (sync_remove allInstances)
                 (set_clock (describe_at e) st))))).
Proof.
  intros H. unfold syncWithCloud. rewrite H.
  repeat (rewrite state_of_bind; cbv beta). simpl.
  set (s2 := state_of (forEach allInstances sync_add _)).
  destruct (Js.falsy_str (protectedVM s2)); [apply choose_protected_pool|].
  destruct (negb (is_protected_registered s2)); reflexivity.
Qed.

(** X1. After a [syncWithCloud] whose [DescribeInstances] answered, every VM
    in the registry is an instance that the answer lists as RUNNING: the VMs
    that the cloud no longer lists, or lists in another state, are gone. *)
Theorem sync_keeps_only_running_instances
    (e : SyncEnv) (allInstances : list Instance) (st : St) (id : string) :
  describe e = Some allInstances ->
  In id (Pool.keys (vmPool (state_of (syncWithCloud e st)))) ->
  cloud_running allInstances id.
Proof.
  intros H. rewrite (syncWithCloud_pool e allInstances st H).
  apply add_loop_sound; [auto|].
  apply remove_loop_sound. intros id' Hin. left. exact Hin.
Qed.

Lemma sync_add_registered (inst : Instance) (id : string) (st : St) :
  Pool.get id (vmPool st) <> None ->
  Pool.get id (vmPool (state_of (sync_add inst st))) <> None.
Proof.
  intros H.
  destruct (sync_add_pool inst st) as [(-> & _) | (_ & _ & ip0 & _ & ->)]; [exact H|].
  destruct (String.eqb_spec (InstanceId inst) id) as [<-|Hne].
  - rewrite get_set_same. discriminate.
  - rewrite get_set_other by exact Hne. exact H.
Qed.

Lemma add_loop_registered (insts : list Instance) (id : string) (st : St) :
  Pool.get id (vmPool st) <> None ->
  Pool.get id (vmPool (state_of (forEach insts sync_add st))) <> None.
Proof.
  revert st. induction insts as [|inst rest IH]; intros st H; [exact H|].
  simpl. rewrite state_of_bind. apply IH. apply sync_add_registered. exact H.
Qed.

Lemma add_loop_complete (insts : list Instance) (inst : Instance) (st : St) :
  In inst insts -> trackable inst ->
  Pool.get (InstanceId inst) (vmPool (state_of (forEach insts sync_add st))) <> None.
Proof.
  revert st. induction insts as [|i0 rest IH]; intros st Hin Ht; [destruct Hin|].
  simpl. rewrite state_of_bind. destruct Hin as [->|Hin]; [|apply IH; assumption].
  apply add_loop_registered.
  destruct (sync_add_pool inst st) as [(-> & Hreg) | (_ & _ & ip0 & _ & ->)].
  - apply Hreg; exact Ht.
  - rewrite get_set_same. discriminate.
Qed.

(** X2. After a [syncWithCloud] whose [DescribeInstances] answered, every
    instance of the answer that is RUNNING and whose first public address is
    a non-empty string is in the registry, whether or not it was tracked
    before. *)
Theorem sync_tracks_every_running_instance
    (e : SyncEnv) (allInstances : list Instance) (st : St) (inst : Instance) :
  describe e = Some allInstances ->
  In inst allInstances ->
  trackable inst ->
  Pool.get (InstanceId inst) (vmPool (state_of (syncWithCloud e st))) <> None.
Proof.
  intros H Hin Ht. rewrite (syncWithCloud_pool e allInstances st H).
  apply add_loop_complete; assumption.
Qed.

Lemma sync_remove_clock (allInstances : list Instance) (id0 : string) :
  preserves clock (sync_remove allInstances id0).
Proof. unfold sync_remove. frame. Qed.

Lemma sync_add_clock (inst : Instance) : preserves clock (sync_add inst).
Proof. unfold sync_add. frame. Qed.

Lemma remove_loop_unregistered (allInstances : list Instance) (ids : list string)
    (id : string) (st : St) :
  Pool.get id (vmPool st) = None ->
  Pool.get id (vmPool (state_of (forEach ids (sync_remove allInstances) st))) = None.
Proof.
  revert st. induction ids as [|id0 rest IH]; intros st H; [exact H|].
  simpl. rewrite state_of_bind. apply IH.
  destruct (Pool.get id (vmPool (state_of (sync_remove allInstances id0 st)))) eqn:E;
    [|reflexivity].
  exfalso. assert (Hin : In id (Pool.keys (vmPool (state_of (sync_remove allInstances id0 st))))).
  { apply get_in_keys. congruence. }
  apply sync_remove_keys in Hin as [Hin _]. apply get_in_keys in Hin. congruence.
Qed.

Lemma add_loop_fresh (insts : list Instance) (id : string) (st : St) :
  (forall vm, Pool.get id (vmPool st) = Some vm -> tracked_at (clock st) vm) ->
  forall vm, Pool.get id (vmPool (state_of (forEach insts sync_add st))) = Some vm ->
             tracked_at (clock st) vm.
Proof.
  revert st. induction insts as [|inst rest IH]; intros st H vm Hvm; [auto|].
  simpl in Hvm. rewrite state_of_bind in Hvm.
  rewrite <- (sync_add_clock inst st). apply (IH (state_of (sync_add inst st))); [|exact Hvm].
  rewrite (sync_add_clock inst st).
  intros vm' Hvm'.
  destruct (sync_add_pool inst st)
    as [(Heq & _) | ((_ & ip1 & Hip1 & Hne1) & _ & ip0 & Hip0 & Heq)];
    rewrite Heq in Hvm'; [auto|].
  destruct (String.eqb_spec (InstanceId inst) id) as [<-|Hne].
  - rewrite get_set_same in Hvm'. inversion Hvm'; subst vm'.
    unfold tracked_at; simpl. splits; try reflexivity. congruence.
  - rewrite get_set_other in Hvm' by exact Hne. auto.
Qed.

(** X3. A VM that [syncWithCloud] starts tracking is registered with no
    match, no failed probe, a non-empty address, and the instant of the
    [DescribeInstances] answer both as [launchedAt] and as [lastSeen]. *)
Theorem sync_registers_fresh_records
    (e : SyncEnv) (allInstances : list Instance) (st : St) (id : string) (vm : VM) :
  describe e = Some allInstances ->
  Pool.get id (vmPool st) = None ->
  Pool.get id (vmPool (state_of (syncWithCloud e st))) = Some vm ->
  matchCount vm = 0%Q /\ unreachableCount vm = 0 /\
  launchedAt vm = describe_at e /\ lastSeen vm = describe_at e /\ ip vm <> "".
Proof.
  intros H Hnone. rewrite (syncWithCloud_pool e allInstances st H).
  set (s1 := state_of (forEach (Pool.keys (vmPool st)) (sync_remove allInstances)
                         (set_clock (describe_at e) st))).
  assert (Hclock : clock s1 = describe_at e).
  { subst s1. rewrite (preserves_forEach clock _ _ (sync_remove_clock allInstances)).
    reflexivity. }
  intros Hvm. rewrite <- Hclock. apply (add_loop_fresh allInstances id s1); [|exact Hvm].
  intros vm' Hvm'. exfalso.
  assert (Hs1 : Pool.get id (vmPool s1) = None).
  { subst s1. apply remove_loop_unregistered. exact Hnone. }
  congruence.
Qed.

Lemma sync_remove_protected (allInstances : list Instance) (id0 : string) (st : St) :
  pointer_valid st -> pointer_valid (state_of (sync_remove allInstances id0 st)).
Proof.
  intros Hv.
  assert (Hdel : pointer_valid
                   (state_of ((modify (set_pool (Pool.delete id0)) ;;
                               st0 <- get_state ;;
                               if is_protected st0 id0 then modify (set_protected None)
                               else ret tt) st))).
  { rewrite !state_of_bind. simpl.
    destruct (is_protected (set_pool (Pool.delete id0) st) id0) eqn:E; simpl; [exact I|].
    unfold pointer_valid, is_protected in *. simpl in *.
    destruct (protectedVM st) as [p|]; [|exact I].
    destruct Hv as [->|Hreg]; [left; reflexivity|]. right.
    rewrite get_delete_other; [exact Hreg|]. apply String.eqb_neq. exact E. }
  unfold sync_remove.
  destruct (cloudMap_get id0 allInstances) as [inst|]; [|exact Hdel].
  destruct (is_running inst); [|exact Hdel].
  destruct (hd_error (PublicIpAddresses inst)) as [ip0|]; [|exact Hv].
  rewrite state_of_bind. simpl.
  destruct (Pool.get id0 (vmPool st)) as [vm|] eqn:Hg; [|exact Hv].
  destruct (negb (String.eqb ip0 "") && negb (String.eqb (ip vm) ip0)); [|exact Hv].
  simpl. unfold pointer_valid in *. simpl.
  destruct (protectedVM st) as [p|]; [|exact I].
  destruct Hv as [->|Hreg]; [left; reflexivity|]. right.
  destruct (String.eqb_spec id0 p) as [->|Hne].
  - rewrite (get_update_same p _ vm) by exact Hg. discriminate.
  - rewrite get_update_other by exact Hne. exact Hreg.
Qed.

Lemma sync_add_protected (inst : Instance) (st : St) :
  pointer_valid st -> pointer_valid (state_of (sync_add inst st)).
Proof.
  intros Hv. pose proof (sync_add_registered inst) as Hreg.
  assert (Hp : protectedVM (state_of (sync_add inst st)) = protectedVM st).
  { unfold sync_add.
    assert (H : preserves protectedVM
                  (if negb (is_running inst) then ret tt
                   else match hd_error (PublicIpAddresses inst) with
                        | Some ip0 =>
                            if String.eqb ip0 "" then ret tt
                            else st0 <- get_state ;;
                                 if Pool.has (InstanceId inst) (vmPool st0) then ret tt
                                 else now <- nowMs ;;
                                      modify (set_pool
                                                (Pool.set (InstanceId inst) (fresh_vm ip0 now)))
                        | None => ret tt
                        end)) by frame.
    apply H. }
  unfold pointer_valid in *. rewrite Hp.
  destruct (protectedVM st) as [p|]; [|exact I].
  destruct Hv as [->|H]; [left; reflexivity | right; apply Hreg; exact H].
Qed.

Lemma stable_sort_nonempty {A : Type} (cmp : A -> A -> comparison) (l : list A) :
  l <> [] -> stable_sort cmp l <> [].
Proof.
  destruct l as [|x l]; [congruence|]. intros _. simpl.
  destruct (stable_sort cmp l) as [|y s]; simpl; [discriminate|].
  destruct (cmp x y); discriminate.
Qed.

(** With a VM to choose from, [choose_protected] fills the slot with a
    registered VM. *)
Lemma choose_protected_sets (st : St) :
  vmPool st <> [] ->
  exists p, protectedVM (state_of (choose_protected st)) = Some p /\
            Pool.get p (vmPool (state_of (choose_protected st))) <> None.
Proof.
  intros Hne. rewrite choose_protected_pool.
  unfold choose_protected. rewrite state_of_bind. simpl.
  destruct (oldest (Pool.keys (vmPool st)) (vmPool st)) as [id|] eqn:E.
  - exists id. split; [reflexivity|]. apply get_in_keys. eapply oldest_In; exact E.
  - exfalso. unfold oldest in E.
    destruct (stable_sort (by_launchedAt (vmPool st)) (Pool.keys (vmPool st))) eqn:Es;
      [|discriminate].
    apply (stable_sort_nonempty (by_launchedAt (vmPool st)) (Pool.keys (vmPool st)));
      [|exact Es].
    unfold Pool.keys. destruct (vmPool st); [congruence | discriminate].
Qed.

(** X4. After a [syncWithCloud] whose [DescribeInstances] answered, the
    protected-VM slot never names a VM that is missing from the registry,
    whatever it held before. If it was valid before and the registry is not
    empty after the synchronisation, it names a registered VM: a protected VM
    that the synchronisation removes is replaced at once. *)
Theorem sync_restores_protected_slot
    (e : SyncEnv) (allInstances : list Instance) (st : St) :
  describe e = Some allInstances ->
  let st' := state_of (syncWithCloud e st) in
  pointer_valid st' /\
  (pointer_valid st -> vmPool st' <> [] ->
   exists p, protectedVM st' = Some p /\ Pool.get p (vmPool st') <> None).
Proof.
  intros H. cbn zeta. unfold syncWithCloud. rewrite H.
  repeat (rewrite state_of_bind; cbv beta). simpl.
  set (s1 := state_of (forEach (Pool.keys (vmPool st)) (sync_remove allInstances)
                         (set_clock (describe_at e) st))).
  set (s2 := state_of (forEach allInstances sync_add s1)).
  assert (Hinv : pointer_valid st -> pointer_valid s2).
  { intros Hv. subst s2 s1.
    apply (keeps_forEach pointer_valid allInstances sync_add sync_add_protected).
    apply (keeps_forEach pointer_valid _ _ (sync_remove_protected allInstances)).
    exact Hv. }
  destruct (Js.falsy_str (protectedVM s2)) eqn:F.
  - split.
    + apply choose_protected_valid. unfold pointer_valid.
      destruct (protectedVM s2) as [p|]; [|exact I]. left. apply String.eqb_eq. exact F.
    + intros _ Hne. apply choose_protected_sets.
      rewrite choose_protected_pool in Hne. exact Hne.
  - destruct (protectedVM s2) as [p|] eqn:Hp; [|discriminate].
    unfold is_protected_registered, Pool.has. rewrite Hp.
    destruct (Pool.get p (vmPool s2)) eqn:Hg; simpl.
    + split.
      * unfold pointer_valid. rewrite Hp. right. congruence.
      * intros _ _. exists p. split; [exact Hp | congruence].
    + split; [exact I|]. intros Hv _. exfalso.
      specialize (Hinv Hv). unfold pointer_valid in Hinv. rewrite Hp in Hinv.
      destruct Hinv as [->|Hreg]; [discriminate | congruence].
Qed.

Lemma with_ip_same (vm : VM) : with_ip (ip vm) vm = vm.
Proof. destruct vm; reflexivity. Qed.

Lemma with_ip_synced (inst : Instance) (vm : VM) :
  with_ip (synced_ip inst (with_ip (synced_ip inst vm) vm)) (with_ip (synced_ip inst vm) vm)
  = with_ip (synced_ip inst vm) vm.
Proof.
  unfold synced_ip. destruct (hd_error (PublicIpAddresses inst)) as [ip0|]; [|reflexivity].
  destruct (String.eqb ip0 ""); reflexivity.
Qed.

Lemma sync_remove_running (allInstances : list Instance) (id0 : string) (st : St)
    (inst : Instance) (vm : VM) :
  cloudMap_get id0 allInstances = Some inst -> is_running inst = true ->
  Pool.get id0 (vmPool st) = Some vm ->
  Pool.get id0 (vmPool (state_of (sync_remove allInstances id0 st)))
  = Some (with_ip (synced_ip inst vm) vm).
Proof.
  intros Hc Hr Hg. unfold sync_remove, synced_ip. rewrite Hc, Hr.
  destruct (hd_error (PublicIpAddresses inst)) as [ip0|];
    [|simpl; rewrite with_ip_same; exact Hg].
  rewrite state_of_bind. simpl. rewrite Hg.
  destruct (String.eqb ip0 ""); simpl; [rewrite with_ip_same; exact Hg|].
  destruct (String.eqb_spec (ip vm) ip0) as [<-|Hne]; simpl.
  - rewrite with_ip_same; exact Hg.
  - eapply get_update_same; exact Hg.
Qed.

Lemma sync_remove_other (allInstances : list Instance) (id0 id : string) (st : St) :
  id <> id0 ->
  Pool.get id (vmPool (state_of (sync_remove allInstances id0 st))) = Pool.get id (vmPool st).
Proof.
  intros Hne.
  destruct (sync_remove_pool allInstances id0 st)
    as [(_ & [-> | (vm & ip0 & _ & _ & ->)]) | (_ & ->)].
  - reflexivity.
  - apply get_update_other; congruence.
  - apply get_delete_other; congruence.
Qed.

Lemma remove_loop_keeps (allInstances : list Instance) (ids : list string) (st : St)
    (id : string) (inst : Instance) (vm : VM) :
  cloudMap_get id allInstances = Some inst -> is_running inst = true ->
  let synced := with_ip (synced_ip inst vm) vm in
  let st' := state_of (forEach ids (sync_remove allInstances) st) in
  (Pool.get id (vmPool st) = Some synced -> Pool.get id (vmPool st') = Some synced) /\
  (Pool.get id (vmPool st) = Some vm -> In id ids -> Pool.get id (vmPool st') = Some synced).
Proof.
  intros Hc Hr. cbn zeta. revert st.
  induction ids as [|id0 rest IH]; intros st; [split; [auto | intros _ []]|].
  simpl forEach. rewrite state_of_bind.
  destruct (IH (state_of (sync_remove allInstances id0 st))) as [IH1 IH2].
  destruct (String.eqb_spec id id0) as [<-|Hne].
  - split.
    + intros Hg. apply IH1.
      rewrite (sync_remove_running _ _ _ inst _ Hc Hr Hg). f_equal. apply with_ip_synced.
    + intros Hg _. apply IH1. apply (sync_remove_running _ _ _ inst _ Hc Hr Hg).
  - rewrite (sync_remove_other allInstances id0 id st Hne) in IH1, IH2.
    split; [exact IH1|]. intros Hg [Heq|Hin]; [congruence|]. apply IH2; assumption.
Qed.

Lemma add_loop_keeps (insts : list Instance) (id : string) (vm : VM) (st : St) :
  Pool.get id (vmPool st) = Some vm ->
  Pool.get id (vmPool (state_of (forEach insts sync_add st))) = Some vm.
Proof.
  revert st. induction insts as [|inst rest IH]; intros st H; [exact H|].
  simpl. rewrite state_of_bind. apply IH.
  destruct (sync_add_pool inst st) as [(-> & _) | (_ & Hnone & ip0 & _ & ->)]; [exact H|].
  rewrite get_set_other; [exact H|]. intros Heq. subst id. congruence.
Qed.

(** X5. A [syncWithCloud] whose [DescribeInstances] answered keeps the record
    of every registered VM that the answer lists as RUNNING: its
    [matchCount], [unreachableCount], [launchedAt] and [lastSeen] are
    untouched, and its [ip] becomes the first public address of the answer
    when that is a non-empty string (and is kept otherwise). *)
Theorem sync_keeps_running_records
    (e : SyncEnv) (allInstances : list Instance) (st : St)
    (id : string) (inst : Instance) (vm : VM) :
  describe e = Some allInstances ->
  Pool.get id (vmPool st) = Some vm ->
  cloudMap_get id allInstances = Some inst ->
  is_running inst = true ->
  Pool.get id (vmPool (state_of (syncWithCloud e st)))
  = Some {| ip := synced_ip inst vm; matchCount := matchCount vm;
            unreachableCount := unreachableCount vm;
            launchedAt := launchedAt vm; lastSeen := lastSeen vm |}.
Proof.
  intros H Hg Hc Hr. rewrite (syncWithCloud_pool e allInstances st H).
  apply add_loop_keeps.
  apply (remove_loop_keeps allInstances (Pool.keys (vmPool st))
           (set_clock (describe_at e) st) id inst vm Hc Hr).
  - exact Hg.
  - apply get_in_keys. simpl. congruence.
Qed.

(** ** The protection policy *)

(** The first element of a stably sorted list is a least one, when the
    comparator orders the elements of the list by an integer key. *)
Lemma stable_sort_head_min {A : Type} (cmp : A -> A -> comparison) (k : A -> Z)
    (l : list A) (x : A) :
  (forall a b, In a l -> In b l -> cmp a b = Z.compare (k a) (k b)) ->
  hd_error (stable_sort cmp l) = Some x ->
  forall y, In y l -> k x <= k y.
Proof.
  revert x. induction l as [|a l IH]; intros x Hcmp Hhd y Hy; [destruct Hy|].
  simpl in Hhd.
  destruct (stable_sort cmp l) as [|z s] eqn:Es.
  - destruct l as [|b l'].
    + simpl in Hhd. inversion Hhd; subst x. destruct Hy as [Hy|[]]. subst y. lia.
    + exfalso. apply (stable_sort_nonempty cmp (b :: l')); [discriminate | exact Es].
  - assert (Hz : In z l).
    { apply (stable_sort_In cmp). rewrite Es. left; reflexivity. }
    assert (IHz : forall y0, In y0 l -> k z <= k y0).
    { apply IH; [|reflexivity]. intros a0 b0 Ha Hb. apply Hcmp; right; assumption. }
    simpl in Hhd.
    assert (Haz : cmp a z = Z.compare (k a) (k z)).
    { apply Hcmp; [left; reflexivity | right; exact Hz]. }
    destruct (cmp a z) eqn:E; inversion Hhd; subst x; symmetry in Haz.
    + rewrite Z.compare_eq_iff in Haz.
      destruct Hy as [Hy|Hy]; [subst y; lia|]. specialize (IHz y Hy). lia.
    + rewrite Z.compare_lt_iff in Haz.
      destruct Hy as [Hy|Hy]; [subst y; lia|]. specialize (IHz y Hy). lia.
    + rewrite Z.compare_gt_iff in Haz.
      destruct Hy as [Hy|Hy]; [subst y; lia|]. apply IHz; exact Hy.
Qed.

(** [oldest] returns a registered VM launched no later than any other of the
    given registered VMs. *)
Lemma oldest_min (ids : list string) (pool : list (string * VM)) (id : string) :
  (forall a, In a ids -> Pool.get a pool <> None) ->
  oldest ids pool = Some id ->
  In id ids /\
  forall other, In other ids -> launchedAt_of pool id <= launchedAt_of pool other.
Proof.
  intros Hreg H. split; [eapply oldest_In; exact H|].
  apply (stable_sort_head_min (by_launchedAt pool) (launchedAt_of pool) ids id); [|exact H].
  intros a b Ha Hb. unfold by_launchedAt, launchedAt_of.
  specialize (Hreg a Ha) as Hra. specialize (Hreg b Hb) as Hrb.
  destruct (Pool.get a pool); [|congruence].
  destruct (Pool.get b pool); [|congruence]. reflexivity.
Qed.

Lemma oldest_some (ids : list string) (pool : list (string * VM)) :
  ids <> [] -> oldest ids pool <> None.
Proof.
  intros Hne. unfold oldest.
  pose proof (stable_sort_nonempty (by_launchedAt pool) ids Hne) as H.
  destruct (stable_sort (by_launchedAt pool) ids); [congruence | discriminate].
Qed.

Lemma recomputeProtectedVM_eq_unset (st : St) :
  Js.falsy_str (protectedVM st) = true ->
  state_of (recomputeProtectedVM st) = state_of (choose_protected st).
Proof.
  intros F. unfold recomputeProtectedVM. rewrite state_of_bind. simpl. rewrite F.
  reflexivity.
Qed.

Lemma choose_protected_eq (st : St) :
  state_of (choose_protected st)
  = match oldest (Pool.keys (vmPool st)) (vmPool st) with
    | Some id => set_protected (Some id) st
    | None => st
    end.
Proof.
  unfold choose_protected. rewrite state_of_bind. simpl.
  destruct (oldest _ _); reflexivity.
Qed.

(** X6. When the protected-VM slot is empty and the registry is not,
    [recomputeProtectedVM] protects a registered VM whose [launchedAt] is the
    least of the registry: the oldest VM. *)
Theorem empty_slot_is_filled_with_the_oldest_vm (st : St) :
  Js.falsy_str (protectedVM st) = true ->
  vmPool st <> [] ->
  let st' := state_of (recomputeProtectedVM st) in
  vmPool st' = vmPool st /\
  exists p vp,
    protectedVM st' = Some p /\ Pool.get p (vmPool st) = Some vp /\
    forall id vm, Pool.get id (vmPool st) = Some vm -> launchedAt vp <= launchedAt vm.
Proof.
  intros F Hne. cbn zeta. rewrite (recomputeProtectedVM_eq_unset st F).
  split; [apply choose_protected_pool|].
  rewrite choose_protected_eq.
  destruct (oldest (Pool.keys (vmPool st)) (vmPool st)) as [p|] eqn:E.
  - destruct (oldest_min _ _ _ (fun a Ha => proj2 (get_in_keys a (vmPool st)) Ha) E)
      as [Hin Hmin].
    apply get_in_keys in Hin.
    destruct (Pool.get p (vmPool st)) as [vp|] eqn:Hp; [|congruence].
    exists p, vp. splits; [reflexivity | exact Hp |].
    intros id vm Hg.
    assert (Hid : In id (Pool.keys (vmPool st))) by (apply get_in_keys; congruence).
    specialize (Hmin id Hid). unfold launchedAt_of in Hmin. rewrite Hp, Hg in Hmin.
    exact Hmin.
  - exfalso. apply (oldest_some (Pool.keys (vmPool st)) (vmPool st)); [|exact E].
    unfold Pool.keys. destruct (vmPool st); [congruence | discriminate].
Qed.

Lemma recomputeProtectedVM_eq_set (st : St) (p : string) (current : VM) :
  protectedVM st = Some p -> p <> "" -> Pool.get p (vmPool st) = Some current ->
  state_of (recomputeProtectedVM st)
  = if Qlt_bool 60 (idleForMinutes (clock st) current)
    then match oldest (List.filter (fun id => negb (String.eqb id p)) (Pool.keys (vmPool st)))
                      (vmPool st) with
         | Some q => set_protected (Some q) st
         | None => st
         end
    else st.
Proof.
  intros Hp Hne Hg. unfold recomputeProtectedVM. rewrite state_of_bind. simpl.
  rewrite Hp. simpl. apply String.eqb_neq in Hne. rewrite Hne, Hg.
  rewrite state_of_bind. simpl. unfold idleForMinutes.
  destruct (Qlt_bool 60 _); [|reflexivity].
  destruct (oldest _ _); reflexivity.
Qed.

(** X7. Rotation of the protected VM. While the protected VM has been seen
    within the last 60 minutes, [recomputeProtectedVM] keeps it. Once it has
    been idle for more than 60 minutes and another VM is registered, the
    protection moves to another registered VM, the oldest of the others; when
    it is the only VM it stays protected. *)
Theorem protection_rotates_after_an_idle_hour (st : St) (p : string) (current : VM) :
  protectedVM st = Some p -> p <> "" -> Pool.get p (vmPool st) = Some current ->
  let st' := state_of (recomputeProtectedVM st) in
  let idle := idleForMinutes (clock st) current in
  ((idle <= 60)%Q -> st' = st) /\
  ((60 < idle)%Q -> (forall id, In id (Pool.keys (vmPool st)) -> id = p) -> st' = st) /\
  ((60 < idle)%Q ->
   forall other, other <> p -> Pool.get other (vmPool st) <> None ->
   exists q vq,
     st' = set_protected (Some q) st /\ q <> p /\ Pool.get q (vmPool st) = Some vq /\
     forall id vm, id <> p -> Pool.get id (vmPool st) = Some vm ->
                   launchedAt vq <= launchedAt vm).
Proof.
  intros Hp Hne Hg. cbn zeta. rewrite (recomputeProtectedVM_eq_set st p current Hp Hne Hg).
  set (others := List.filter (fun id => negb (String.eqb id p)) (Pool.keys (vmPool st))).
  assert (Hothers : forall id, In id others <-> In id (Pool.keys (vmPool st)) /\ id <> p).
  { intros id. subst others. rewrite List.filter_In, negb_true_iff, String.eqb_neq. tauto. }
  splits.
  - intros Hidle. apply Qlt_bool_false in Hidle. rewrite Hidle. reflexivity.
  - intros Hidle Honly. apply Qlt_bool_true in Hidle. rewrite Hidle.
    destruct (oldest others (vmPool st)) as [q|] eqn:E; [|reflexivity].
    exfalso. apply oldest_In in E. apply Hothers in E as [Hin Hq]. auto.
  - intros Hidle other Hother Hreg. apply Qlt_bool_true in Hidle. rewrite Hidle.
    destruct (oldest others (vmPool st)) as [q|] eqn:E.
    + assert (Hall : forall a, In a others -> Pool.get a (vmPool st) <> None).
      { intros a Ha. apply get_in_keys. apply Hothers in Ha. tauto. }
      destruct (oldest_min others (vmPool st) q Hall E) as [Hin Hmin].
      destruct (Pool.get q (vmPool st)) as [vq|] eqn:Hq;
        [|exfalso; apply (Hall q Hin); exact Hq].
      exists q, vq. splits; [reflexivity | apply Hothers in Hin; tauto | exact Hq |].
      intros id vm Hid Hget.
      assert (Ho : In id others).
      { apply Hothers. split; [apply get_in_keys; congruence | exact Hid]. }
      specialize (Hmin id Ho). unfold launchedAt_of in Hmin. rewrite Hq, Hget in Hmin.
      exact Hmin.
    + exfalso. apply (oldest_some others (vmPool st)); [|exact E].
      intros Hnil. assert (Ho : In other others).
      { apply Hothers. split; [apply get_in_keys; exact Hreg | exact Hother]. }
      rewrite Hnil in Ho. destruct Ho.
Qed.

Lemma slot_in_place (s : St) (p : string) :
  protectedVM s = Some p -> Pool.get p (vmPool s) <> None ->
  match vmPool s with
  | [] => Js.falsy_str (protectedVM s) = true
  | _ :: _ => exists p, protectedVM s = Some p /\ Pool.get p (vmPool s) <> None
  end.
Proof.
  intros Hp Hreg. destruct (vmPool s) as [|x l] eqn:E.
  - exfalso. apply Hreg. reflexivity.
  - exists p. split; [exact Hp | exact Hreg].
Qed.

(** What [recomputeProtectedVM] guarantees about the slot, whatever the
    state it starts from. *)
Lemma recomputeProtectedVM_ensures (st : St) :
  let st' := state_of (recomputeProtectedVM st) in
  match vmPool st' with
  | [] => Js.falsy_str (protectedVM st') = true
  | _ :: _ => exists p, protectedVM st' = Some p /\ Pool.get p (vmPool st') <> None
  end.
Proof.
  cbn zeta.
  assert (Hchoose : forall s, Js.falsy_str (protectedVM s) = true ->
            match vmPool (state_of (choose_protected s)) with
            | [] => Js.falsy_str (protectedVM (state_of (choose_protected s))) = true
            | _ :: _ => exists p, protectedVM (state_of (choose_protected s)) = Some p /\
                                  Pool.get p (vmPool (state_of (choose_protected s))) <> None
            end).
  { intros s F. destruct (vmPool (state_of (choose_protected s))) as [|x l] eqn:E.
    - rewrite choose_protected_pool in E. rewrite choose_protected_eq.
      rewrite E. exact F.
    - rewrite <- E. apply choose_protected_sets.
      rewrite choose_protected_pool in E. congruence. }
  destruct (Js.falsy_str (protectedVM st)) eqn:F.
  - rewrite (recomputeProtectedVM_eq_unset st F). apply Hchoose; exact F.
  - destruct (protectedVM st) as [p|] eqn:Hp; [|discriminate].
    simpl in F. apply String.eqb_neq in F.
    destruct (Pool.get p (vmPool st)) as [current|] eqn:Hg.
    + rewrite (recomputeProtectedVM_eq_set st p current Hp F Hg).
      destruct (Qlt_bool 60 _);
        [destruct (oldest _ (vmPool st)) as [q|] eqn:E|].
      * apply (slot_in_place _ q); [reflexivity|]. simpl.
        apply get_in_keys. apply oldest_In in E. apply List.filter_In in E. tauto.
      * apply (slot_in_place _ p); [exact Hp | congruence].
      * apply (slot_in_place _ p); [exact Hp | congruence].
    + unfold recomputeProtectedVM. rewrite state_of_bind. simpl.
      rewrite Hp. simpl. apply String.eqb_neq in F. rewrite F, Hg.
      rewrite state_of_bind. apply Hchoose. reflexivity.
Qed.

(** X8. Every reconciler tick ends with the protection in place: when the
    registry is not empty the protected-VM slot names a registered VM, and
    when it is empty the slot is empty too. *)
Theorem tick_ends_with_a_protected_vm (cfg : Config) (e : TickEnv) (st : St) :
  let st' := state_of (updateVMs cfg e st) in
  match vmPool st' with
  | [] => Js.falsy_str (protectedVM st') = true
  | _ :: _ => exists p, protectedVM st' = Some p /\ Pool.get p (vmPool st') <> None
  end.
Proof.
  cbn zeta. unfold updateVMs. repeat (rewrite state_of_bind; cbv beta).
  apply recomputeProtectedVM_ensures.
Qed.

(** ** More on launching *)

Section LaunchOutcome.

Context (cfg : Config).

Lemma pollLoop_step (e : LaunchEnv) (instanceId : string) (n i : nat) (st : St) :
  pollLoop e instanceId (S n) i st =
  match poll_finds (poll e i) with
  | Some ip0 =>
      (Some ip0,
       set_pool (Pool.set instanceId (fresh_vm ip0 (poll_at e i)))
         (set_clock (poll_at e i) st), [])
  | None => pollLoop e instanceId n (S i) (set_clock (poll_at e i) st)
  end.
Proof.
  simpl pollLoop. rewrite bind_unfold. simpl. unfold poll_finds.
  destruct (poll e i) as [inst|]; [|symmetry; apply triple_eta].
  destruct (PublicIpAddresses inst) as [|ip0 ips]; [symmetry; apply triple_eta|].
  destruct (is_running inst); [reflexivity | symmetry; apply triple_eta].
Qed.

Lemma pollLoop_times_out (e : LaunchEnv) (instanceId : string) (n i : nat) (st : St) :
  (forall k, (i <= k < i + n)%nat -> poll_finds (poll e k) = None) ->
  result_of (pollLoop e instanceId n i st) = None.
Proof.
  revert i st. induction n as [|n IH]; intros i st H; [reflexivity|].
  rewrite pollLoop_step, (H i) by lia. apply IH. intros k Hk. apply H. lia.
Qed.

Lemma pollLoop_finds (e : LaunchEnv) (instanceId : string) (n i j : nat) (st : St)
    (ip1 : string) :
  (i <= j < i + n)%nat ->
  poll_finds (poll e j) = Some ip1 ->
  (forall k, (i <= k < j)%nat -> poll_finds (poll e k) = None) ->
  result_of (pollLoop e instanceId n i st) = Some ip1 /\
  clock (state_of (pollLoop e instanceId n i st)) = poll_at e j.
Proof.
  revert i st. induction n as [|n IH]; intros i st Hj Hfound Hbefore; [lia|].
  rewrite pollLoop_step.
  destruct (Nat.eq_dec i j) as [->|Hne].
  - rewrite Hfound. simpl. split; reflexivity.
  - rewrite (Hbefore i) by lia. apply IH; [lia | exact Hfound |].
    intros k Hk. apply Hbefore. lia.
Qed.

(** The outcome of a launch that went as far as [RunInstances] returning an
    instance id. *)
Lemma launch_outcome (l : LaunchEnv) (st : St) (instanceId : string) :
  launching st = false ->
  Pool.size (vmPool st) < MAX_BACKUP_VMS cfg ->
  run_reply l = Some instanceId -> instanceId <> "" ->
  let r := launchBackupVM cfg l st in
  let polled := pollLoop l instanceId maxPoll 0 (set_launching true st) in
  match result_of polled with
  | Some ip1 =>
      if String.eqb ip1 "" then
        result_of r = None /\
        Pool.get instanceId (vmPool (state_of r)) = None /\
        List.map call (log_of r)
          = [RunInstances (Some instanceId); TerminateInstances LaunchCleanup instanceId]
      else
        result_of r = Some (instanceId, ip1) /\
        Pool.get instanceId (vmPool (state_of r))
          = Some (fresh_vm ip1 (clock (state_of polled))) /\
        List.map call (log_of r) = [RunInstances (Some instanceId)]
  | None =>
      result_of r = None /\
      Pool.get instanceId (vmPool (state_of r)) = None /\
      List.map call (log_of r)
        = [RunInstances (Some instanceId); TerminateInstances LaunchCleanup instanceId]
  end.
Proof.
  intros Hl Hmax Hrun Hne. cbn zeta.
  rewrite launchBackupVM_eq, Hl.
  apply Z.leb_gt in Hmax. rewrite Hmax. cbn zeta.
  rewrite launch_attempt_eq, Hrun. apply String.eqb_neq in Hne. rewrite Hne. cbn zeta.
  pose proof (pollLoop_spec l instanceId maxPoll 0 (set_launching true st)) as H.
  cbn zeta in H.
  destruct (pollLoop l instanceId maxPoll 0 (set_launching true st)) as [[res s1] plog].
  simpl in H. destruct H as (_ & _ & _ & _ & Hpool).
  assert (Hap : vmPool (after_protect instanceId s1) = vmPool s1).
  { unfold after_protect. destruct (Js.falsy_str _); reflexivity. }
  simpl.
  destruct res as [ip1|]; [destruct (String.eqb ip1 "")|]; simpl; rewrite Hap;
    splits; try reflexivity; try apply get_delete_same.
  rewrite Hpool. apply get_set_same.
Qed.

(** X9. A launch never leaks an instance. When [launchBackupVM] is entered
    with no launch in flight and room under [MAX_BACKUP_VMS], and
    [RunInstances] returns an instance id, then either the call returns that
    id with a non-empty address, the VM is registered with no match and no
    failed probe, and no [TerminateInstances] is issued; or the call returns
    [null], a [TerminateInstances] is issued for that id and the id is not in
    the registry. In both cases the [launching] flag is cleared. *)
Theorem launch_registers_or_cleans_up (l : LaunchEnv) (st : St) (instanceId : string) :
  launching st = false ->
  Pool.size (vmPool st) < MAX_BACKUP_VMS cfg ->
  run_reply l = Some instanceId -> instanceId <> "" ->
  let r := launchBackupVM cfg l st in
  launching (state_of r) = false /\
  ((exists ip1 vm,
      result_of r = Some (instanceId, ip1) /\ ip1 <> "" /\
      Pool.get instanceId (vmPool (state_of r)) = Some vm /\
      ip vm = ip1 /\ matchCount vm = 0%Q /\ unreachableCount vm = 0 /\
      List.map call (log_of r) = [RunInstances (Some instanceId)]) \/
   (result_of r = None /\
    Pool.get instanceId (vmPool (state_of r)) = None /\
    List.map call (log_of r)
      = [RunInstances (Some instanceId); TerminateInstances LaunchCleanup instanceId])).
Proof.
  intros Hl Hmax Hrun Hne. cbn zeta.
  split.
  { destruct (launchBackupVM_props cfg l st) as (_ & _ & _ & _ & _ & Hflag & _).
    cbn zeta in Hflag. rewrite Hflag. exact Hl. }
  pose proof (launch_outcome l st instanceId Hl Hmax Hrun Hne) as H. cbn zeta in H.
  destruct (result_of (pollLoop l instanceId maxPoll 0 (set_launching true st)))
    as [ip1|]; [destruct (String.eqb ip1 "") eqn:Hip|].
  - right. exact H.
  - left. destruct H as (Hres & Hget & Hlog). apply String.eqb_neq in Hip.
    exists ip1, (fresh_vm ip1 (clock (state_of
                   (pollLoop l instanceId maxPoll 0 (set_launching true st))))).
    splits; try assumption; reflexivity.
  - right. exact H.
Qed.

(** X10. The poll budget. Under the same entry conditions, if none of the
    polls 0 to 39 finds the instance RUNNING with a public address, the
    launch times out: [launchBackupVM] returns [null] and the instance is
    terminated, whatever a further poll would have found. If poll [j] (with
    [j < 40]) is the first to find it, with a non-empty address, the launch
    succeeds with that address and the VM is registered with the instant of
    that poll as [launchedAt] and [lastSeen]. *)
Theorem launch_succeeds_within_forty_polls (l : LaunchEnv) (st : St) (instanceId : string) :
  launching st = false ->
  Pool.size (vmPool st) < MAX_BACKUP_VMS cfg ->
  run_reply l = Some instanceId -> instanceId <> "" ->
  let r := launchBackupVM cfg l st in
  ((forall k, (k < 40)%nat -> poll_finds (poll l k) = None) ->
   result_of r = None /\
   In (TerminateInstances LaunchCleanup instanceId) (List.map call (log_of r))) /\
  (forall j ip1,
     (j < 40)%nat -> poll_finds (poll l j) = Some ip1 -> ip1 <> "" ->
     (forall k, (k < j)%nat -> poll_finds (poll l k) = None) ->
     result_of r = Some (instanceId, ip1) /\
     Pool.get instanceId (vmPool (state_of r)) = Some (fresh_vm ip1 (poll_at l j))).
Proof.
  intros Hl Hmax Hrun Hne. cbn zeta.
  pose proof (launch_outcome l st instanceId Hl Hmax Hrun Hne) as H. cbn zeta in H.
  assert (Hforty : maxPoll = 40%nat) by reflexivity.
  split.
  - intros Hnone.
    rewrite (pollLoop_times_out l instanceId maxPoll 0 (set_launching true st)) in H.
    + destruct H as (Hres & _ & Hlog). split; [exact Hres|].
      rewrite Hlog. right; left; reflexivity.
    + intros k Hk. apply Hnone. rewrite Hforty in Hk. lia.
  - intros j ip1 Hj Hfound Hip Hbefore.
    destruct (pollLoop_finds l instanceId maxPoll 0 j (set_launching true st) ip1)
      as [Hres Hclock].
    + rewrite Hforty. lia.
    + exact Hfound.
    + intros k Hk. apply Hbefore. lia.
    + rewrite Hres, Hclock in H. apply String.eqb_neq in Hip. rewrite Hip in H.
      destruct H as (Hr & Hget & _). split; assumption.
Qed.

(** X11. The single-flight flag. A call of [launchBackupVM] made while a
    launch is in flight returns [null] at once: it changes nothing and calls
    nothing. And every call returns with the flag as it found it, so a call
    made with the flag clear leaves it clear on every exit path
    ([RunInstances] failing, timeout, success), and issues at most one
    [RunInstances]. *)
Theorem launch_is_single_flight (l : LaunchEnv) (st : St) :
  let r := launchBackupVM cfg l st in
  (if launching st then r = (None, st, []) else launching (state_of r) = false) /\
  (launches (log_of r) <= 1)%nat.
Proof.
  cbn zeta. split.
  - destruct (launching st) eqn:Hl.
    + rewrite launchBackupVM_eq, Hl. reflexivity.
    + destruct (launchBackupVM_props cfg l st) as (_ & _ & _ & _ & _ & Hflag & _).
      cbn zeta in Hflag. rewrite Hflag. exact Hl.
  - apply (launchBackupVM_props cfg l st).
Qed.

End LaunchOutcome.

(** ** More on allocation and match requests *)

Section AllocationOutcome.

Context (cfg : Config).

Lemma get_of_entry (id : string) (vm : VM) (p : list (string * VM)) :
  Pool.wf p -> In (id, vm) p -> Pool.get id p = Some vm.
Proof.
  unfold Pool.wf, Pool.keys.
  induction p as [|[k v] p IH]; simpl; intros Hnd Hin; [destruct Hin|].
  inversion Hnd as [|? ? Hfresh Hnd']; subst.
  destruct Hin as [Hin|Hin].
  - inversion Hin; subst. rewrite String.eqb_refl. reflexivity.
  - destruct (String.eqb_spec id k) as [->|Hne]; [|apply IH; assumption].
    exfalso. apply Hfresh. change k with (fst (k, vm)). apply in_map; exact Hin.
Qed.

Lemma refreshAll_emits (p : ProbeEnv) : emits health_call (refreshAll cfg p).
Proof.
  unfold refreshAll, probe_entries. emits_auto. apply emits_probe_loop.
  - intros id vm. unfold refresh_resumes. emits_auto.
    exists id; left; reflexivity.
  - intros id. unfold refresh_deletes. emits_auto.
Qed.

Lemma refreshAll_wf (p : ProbeEnv) : keeps wf_state (refreshAll cfg p).
Proof.
  unfold refreshAll. keeps_auto. apply probe_entries_wf.
Qed.

Lemma launch_result_logged (l : LaunchEnv) (st : St) (id ip1 : string) :
  result_of (launchBackupVM cfg l st) = Some (id, ip1) ->
  launches (log_of (launchBackupVM cfg l st)) = 1%nat /\
  run_reply l = Some id /\
  Pool.get id (vmPool (state_of (launchBackupVM cfg l st)))
    = Some (fresh_vm ip1 (clock (state_of (launchBackupVM cfg l st)))).
Proof.
  intros Hres. split; [|split].
  - revert Hres. rewrite launchBackupVM_eq.
    destruct (launching st); [discriminate|].
    destruct (MAX_BACKUP_VMS cfg <=? Pool.size (vmPool st)); [discriminate|].
    intros _. cbn zeta. simpl. apply launch_attempt_props.
  - revert Hres. rewrite launchBackupVM_eq.
    destruct (launching st); [discriminate|].
    destruct (MAX_BACKUP_VMS cfg <=? Pool.size (vmPool st)); [discriminate|].
    cbn zeta. simpl. rewrite launch_attempt_eq. cbn zeta.
    destruct (run_reply l) as [instanceId|]; [|discriminate].
    destruct (String.eqb instanceId ""); [discriminate|].
    destruct (result_of (pollLoop l instanceId maxPoll 0 (set_launching true st)))
      as [ip2|]; [destruct (String.eqb ip2 "")|]; simpl; congruence.
  - apply (launchBackupVM_props cfg l st). exact Hres.
Qed.


(** X13. [getAvailableVM] launches a VM only when, after the probes, every
    registered VM is at or above [FULL_MATCH_LIMIT] and the registry is
    below [MAX_BACKUP_VMS]; it then launches one VM only, and the VM it
    returns, if any, is the one [RunInstances] created, registered with no
    match. *)
Theorem allocation_launches_only_when_all_full (p : ProbeEnv) (l : LaunchEnv) (st : St) :
  let r := getAvailableVM cfg p l st in
  let probed_state := state_of (refreshAll cfg p st) in
  launches (log_of r) <> 0%nat ->
  launches (log_of r) = 1%nat /\
  (forall entry, In entry (vmPool probed_state) ->
     (inject_Z (FULL_MATCH_LIMIT cfg) <= matchCount (snd entry))%Q) /\
  Pool.size (vmPool probed_state) < MAX_BACKUP_VMS cfg /\
  forall id ip1, result_of r = Some (id, ip1) ->
    run_reply l = Some id /\
    Pool.get id (vmPool (state_of r)) = Some (fresh_vm ip1 (clock (state_of r))).
Proof.
  cbn zeta. unfold getAvailableVM.
  rewrite result_of_bind, state_of_bind, log_of_bind, launches_app.
  set (s1 := state_of (refreshAll cfg p st)).
  generalize (result_of (refreshAll cfg p st)); intros [].
  rewrite (health_call_no_launch _ (refreshAll_emits p st)). simpl Nat.add.
  destruct (select_spec cfg l s1) as [Hcand Hsel].
  destruct (candidates cfg (vmPool s1)) as [|[id vm] rest].
  - rewrite Hsel. intros Hn.
    destruct (launchBackupVM_props cfg l s1) as (Hle & _ & _ & Hmax & _).
    cbn zeta in Hle, Hmax. splits.
    + lia.
    + intros entry Hin. apply Qnot_lt_le. intros Hlt.
      apply (proj2 (Hcand entry)). split; assumption.
    + apply Hmax; exact Hn.
    + intros id ip1 Hres. apply launch_result_logged in Hres. tauto.
  - destruct Hsel as [Hsel _]. rewrite Hsel. simpl. intros Hn. exfalso. apply Hn.
    reflexivity.
Qed.

(** The probes of a fleet in which every worker answers. *)
Lemma probe_loop_all_answer (p : ProbeEnv) (answers : list (string * VM)) (st : St) :
  (forall id vm, In (id, vm) answers -> status p id <> None) ->
  log_of (probe_loop cfg p answers [] st) = [] /\
  Pool.keys (vmPool (state_of (probe_loop cfg p answers [] st))) = Pool.keys (vmPool st) /\
  launching (state_of (probe_loop cfg p answers [] st)) = launching st /\
  matches (state_of (probe_loop cfg p answers [] st)) = matches st /\
  protectedVM (state_of (probe_loop cfg p answers [] st)) = protectedVM st.
Proof.
  revert st. induction answers as [|[instanceId vm] rest IH]; intros st Hall.
  - splits; reflexivity.
  - rewrite probe_loop_cons. cbn zeta.
    destruct (status p instanceId) as [data|] eqn:Hs;
      [|exfalso; apply (Hall instanceId vm); [left; reflexivity | exact Hs]].
    rewrite (resumes_success cfg _ _ _ _ _ Hs). simpl.
    match goal with
    | |- context [probe_loop cfg p rest [] ?s] => destruct (IH s) as (H1 & H2 & H3 & H4 & H5)
    end.
    { intros id' vm' Hin. apply (Hall id' vm'). right; exact Hin. }
    splits; [exact H1 | | exact H3 | exact H4 | exact H5].
    rewrite H2. simpl. apply keys_update.
Qed.

Lemma probe_entries_all_answer (p : ProbeEnv) (entries : list (string * VM)) (st : St) :
  (forall id vm, In (id, vm) entries -> status p id <> None) ->
  log_of (probe_entries cfg p entries st) = [] /\
  Pool.keys (vmPool (state_of (probe_entries cfg p entries st))) = Pool.keys (vmPool st) /\
  launching (state_of (probe_entries cfg p entries st)) = launching st /\
  matches (state_of (probe_entries cfg p entries st)) = matches st /\
  protectedVM (state_of (probe_entries cfg p entries st)) = protectedVM st.
Proof.
  intros Hall. apply probe_loop_all_answer.
  intros id vm Hin. apply (Hall id vm).
  eapply Permutation_in; [apply Permutation_sym, stable_sort_perm | exact Hin].
Qed.

Lemma filter_none {A : Type} (f : A -> bool) (l : list A) :
  (forall x, In x l -> f x = false) -> List.filter f l = [].
Proof.
  induction l as [|a l IH]; simpl; intros H; [reflexivity|].
  rewrite (H a) by (left; reflexivity). apply IH. intros x Hx. apply H. right; exact Hx.
Qed.

(** A fleet in which every worker answers and reports [FULL_MATCH_LIMIT]
    matches or more: the allocation goes to [launchBackupVM]. *)
Lemma full_fleet_goes_to_launch (p : ProbeEnv) (l : LaunchEnv) (st : St) :
  Pool.wf (vmPool st) ->
  (forall id vm, In (id, vm) (vmPool st) ->
     exists data, status p id = Some data /\
       (inject_Z (FULL_MATCH_LIMIT cfg) <= probe_matchCount data)%Q) ->
  let s1 := state_of (refreshAll cfg p st) in
  getAvailableVM cfg p l st
    = (result_of (launchBackupVM cfg l s1), state_of (launchBackupVM cfg l s1),
       log_of (launchBackupVM cfg l s1)) /\
  Pool.keys (vmPool s1) = Pool.keys (vmPool st) /\
  launching s1 = launching st /\ matches s1 = matches st /\
  protectedVM s1 = protectedVM st.
Proof.
  intros Hwf Hfull. cbn zeta.
  assert (Hans : forall id vm, In (id, vm) (vmPool st) -> status p id <> None).
  { intros id vm Hin. destruct (Hfull id vm Hin) as (data & Hs & _). congruence. }
  pose proof (probe_entries_all_answer p (vmPool st) st Hans) as (Hlog & Hkeys & Hl & Hm & Hp).
  rewrite <- refreshAll_eq in Hlog, Hkeys, Hl, Hm, Hp.
  assert (Hcand : candidates cfg (vmPool (state_of (refreshAll cfg p st))) = []).
  { unfold candidates.
    replace (List.filter _ _) with (@nil (string * VM)); [reflexivity|].
    symmetry. apply filter_none. intros [id vm'] Hin. simpl.
    apply Qlt_bool_false.
    assert (Hkey : In id (Pool.keys (vmPool st))).
    { rewrite <- Hkeys. change id with (fst (id, vm')). apply in_map; exact Hin. }
    unfold Pool.keys in Hkey. apply in_map_iff in Hkey as ([id0 vm0] & Hfst & Hin0).
    simpl in Hfst; subst id0.
    destruct (Hfull id vm0 Hin0) as (data & Hs & Hge).
    assert (Hget : Pool.get id (vmPool (state_of (refreshAll cfg p st)))
                   = Some (probed (probe_matchCount data) (status_at p id) vm0)).
    { rewrite refreshAll_eq. apply probe_entries_answered; try assumption.
      eapply entry_registered; exact Hin0. }
    rewrite (get_of_entry id vm') in Hget.
    - inversion Hget; subst. exact Hge.
    - apply (refreshAll_wf p st). exact Hwf.
    - exact Hin. }
  splits; try assumption.
  unfold getAvailableVM. rewrite bind_unfold, Hlog.
  rewrite select_eq, Hcand. reflexivity.
Qed.

(** X14. A full fleet at the ceiling. For a request that passes
    validation, when every registered worker answers its probe and reports
    [FULL_MATCH_LIMIT] matches or more, and the registry holds
    [MAX_BACKUP_VMS] records or a launch is already in flight, the answer
    is 503: no cloud call is made, no match is recorded and no VM is
    added or removed. *)
Theorem full_fleet_at_ceiling_is_refused
    (matchPrivacy : string) (rq : MatchRequest) (e : RequestEnv) (st : St) :
  valid_request rq <> None ->
  Pool.wf (vmPool st) ->
  (forall id vm, In (id, vm) (vmPool st) ->
     exists data, status (rq_probes e) id = Some data /\
       (inject_Z (FULL_MATCH_LIMIT cfg) <= probe_matchCount data)%Q) ->
  MAX_BACKUP_VMS cfg <= Pool.size (vmPool st) \/ launching st = true ->
  let r := handleMatchRequest cfg matchPrivacy rq e st in
  code (result_of r) = 503 /\ log_of r = [] /\
  matches (state_of r) = matches st /\
  Pool.keys (vmPool (state_of r)) = Pool.keys (vmPool st).
Proof.
  intros Hvalid Hwf Hfull Hceil. cbn zeta.
  rewrite handleMatchRequest_eq.
  destruct (valid_request rq) as [[mid gm]|]; [|congruence]. cbn zeta.
  destruct (full_fleet_goes_to_launch (rq_probes e) (rq_launch e) st Hwf Hfull)
    as (Heq & Hkeys & Hl & Hm & _).
  cbn zeta in Heq. rewrite Heq.
  set (s1 := state_of (refreshAll cfg (rq_probes e) st)) in *.
  assert (Hrefused : launchBackupVM cfg (rq_launch e) s1 = (None, s1, [])).
  { rewrite launchBackupVM_eq. destruct Hceil as [Hmax|Hflag].
    - destruct (launching s1); [reflexivity|].
      rewrite (size_of_keys _ _ Hkeys).
      apply Z.leb_le in Hmax. rewrite Hmax. reflexivity.
    - rewrite Hl, Hflag. reflexivity. }
  rewrite Hrefused. simpl. splits; [reflexivity | reflexivity | exact Hm | exact Hkeys].
Qed.

(** X15. A full fleet below the ceiling. Under the same conditions on the
    request and the workers, when the registry holds fewer than
    [MAX_BACKUP_VMS] records and no launch is in flight, the request issues
    exactly one [RunInstances]; the answer is 200 only if that launch
    succeeded, and the match is then recorded against the instance that
    [RunInstances] created. *)
Theorem full_fleet_below_ceiling_launches_one
    (matchPrivacy : string) (rq : MatchRequest) (e : RequestEnv) (st : St) :
  valid_request rq <> None ->
  Pool.wf (vmPool st) ->
  (forall id vm, In (id, vm) (vmPool st) ->
     exists data, status (rq_probes e) id = Some data /\
       (inject_Z (FULL_MATCH_LIMIT cfg) <= probe_matchCount data)%Q) ->
  Pool.size (vmPool st) < MAX_BACKUP_VMS cfg ->
  launching st = false ->
  let r := handleMatchRequest cfg matchPrivacy rq e st in
  launches (log_of r) = 1%nat /\
  (code (result_of r) = 200 ->
   exists mid record,
     matchId rq = Some mid /\ matches (state_of r) !! mid = Some record /\
     run_reply (rq_launch e) = Some (vmInstanceId record)).
Proof.
  intros Hvalid Hwf Hfull Hroom Hflag. cbn zeta.
  rewrite handleMatchRequest_eq.
  destruct (valid_request rq) as [[mid gm]|] eqn:Hv; [|congruence]. cbn zeta.
  assert (Hmid : matchId rq = Some mid).
  { unfold valid_request in Hv.
    destruct (matchId rq) as [m|]; [|discriminate].
    destruct (gameMode rq) as [g|]; [|discriminate].
    destruct (_ || _); [discriminate|]. congruence. }
  destruct (full_fleet_goes_to_launch (rq_probes e) (rq_launch e) st Hwf Hfull)
    as (Heq & Hkeys & Hl & _).
  cbn zeta in Heq. rewrite Heq.
  set (s1 := state_of (refreshAll cfg (rq_probes e) st)) in *.
  assert (Hone : launches (log_of (launchBackupVM cfg (rq_launch e) s1)) = 1%nat).
  { rewrite launchBackupVM_eq, Hl, Hflag, (size_of_keys _ _ Hkeys).
    apply Z.leb_gt in Hroom. rewrite Hroom. cbn zeta. simpl.
    apply launch_attempt_props. }
  pose proof (launch_result_logged (rq_launch e) s1) as Hlr.
  destruct (launchBackupVM cfg (rq_launch e) s1) as [[res s2] log2].
  simpl in Hone, Hlr. simpl.
  destruct res as [[instanceId vmIP]|].
  - destruct (Hlr instanceId vmIP eq_refl) as (_ & Hrun & _).
    destruct (start_on cfg e matchPrivacy rq mid gm vmIP) as [matchData|]; simpl.
    + split; [exact Hone|]. intros _. eexists mid, _.
      splits; [exact Hmid | apply lookup_insert_eq | exact Hrun].
    + split; [exact Hone | discriminate].
  - simpl. split; [exact Hone | discriminate].
Qed.

Lemma getAvailableVM_address (p : ProbeEnv) (l : LaunchEnv) (st : St)
    (instanceId vmIP : string) :
  Pool.wf (vmPool st) ->
  result_of (getAvailableVM cfg p l st) = Some (instanceId, vmIP) ->
  exists vm, Pool.get instanceId (vmPool (state_of (getAvailableVM cfg p l st))) = Some vm /\
             ip vm = vmIP.
Proof.
  intros Hwf. unfold getAvailableVM. rewrite result_of_bind, state_of_bind.
  pose proof (refreshAll_wf p st Hwf) as Hwf1.
  set (s1 := state_of (refreshAll cfg p st)) in *.
  generalize (result_of (refreshAll cfg p st)); intros [].
  destruct (select_spec cfg l s1) as [Hcand Hsel].
  destruct (candidates cfg (vmPool s1)) as [|[id vm] rest].
  - rewrite Hsel. intros Hres. apply launch_result_logged in Hres.
    destruct Hres as (_ & _ & Hget). eexists. split; [exact Hget | reflexivity].
  - destruct Hsel as [Hsel _]. rewrite Hsel. simpl. intros Hres. inversion Hres; subst.
    destruct (proj1 (Hcand (instanceId, vm))) as [Hin _]; [left; reflexivity|].
    exists vm. split; [|reflexivity]. apply get_of_entry; assumption.
Qed.

(** X16. A 200 answer is backed by a record. Once [getAvailableVM] has
    returned the VM [instanceId] at the address [vmIP], and whatever the
    other operations do to the state while the handler waits for the
    worker: when the handler answers 200, the worker accepted the match,
    and [matches] holds under the request's [matchId] a record whose
    descriptor is the body of the answer, stamped with the instant of the
    worker's reply, whose [vmInstanceId] is [instanceId] and whose
    [serverIP] is [vmIP], the VM and the address that [getAvailableVM]
    returned (whether or not that VM is still registered). *)
Theorem started_match_is_recorded
    (meanwhile : AwaitPoint -> St -> St) (matchPrivacy : string) (rq : MatchRequest)
    (e : RequestEnv) (mid gm instanceId vmIP : string) (st : St) :
  let r := Interleaved.startOnTarget meanwhile cfg matchPrivacy rq e mid gm
             (instanceId, vmIP) st in
  code (result_of r) = 200 ->
  start_accepted cfg e matchPrivacy rq mid gm vmIP = true /\
  exists record,
    matches (state_of r) !! mid = Some record /\
    body (result_of r) = DescriptorBody (descriptor record) /\
    md_matchId (descriptor record) = mid /\
    md_gameMode (descriptor record) = gm /\
    startedAt record = start_at e /\
    vmInstanceId record = instanceId /\
    serverIP (descriptor record) = vmIP.
Proof.
  cbn zeta. rewrite startOnTarget_eq. cbn zeta.
  pose proof (start_on_accepted cfg e matchPrivacy rq mid gm vmIP) as Hacc.
  destruct (start_on cfg e matchPrivacy rq mid gm vmIP) as [matchData|];
    [|discriminate].
  destruct Hacc as (Hacc & Hip & Hmid & Hgm).
  simpl. intros _. split; [exact Hacc|].
  exists {| descriptor := matchData; startedAt := start_at e;
            vmInstanceId := instanceId |}.
  splits; try reflexivity; try assumption.
  apply lookup_insert_eq.
Qed.

End AllocationOutcome.

(** ** More on the health step *)

Section HealthOutcome.

Context (cfg : Config).

Lemma healthLoop_cons (p : ProbeEnv) (instanceId : string) (vm : VM)
    (rest : list (string * VM)) (total : Q) (st : St) :
  healthLoop cfg p ((instanceId, vm) :: rest) total st =
  let r := refreshVmStatus cfg p instanceId vm st in
  if fst (result_of r) then
    let t := terminate_if_idle cfg instanceId (snd (result_of r)) (state_of r) in
    let h := healthLoop cfg p rest (total + freeSlots cfg (snd (result_of r))) (state_of t) in
    (result_of h, state_of h, log_of r ++ log_of t ++ log_of h)
  else
    let h := healthLoop cfg p rest total (state_of r) in
    (result_of h, state_of h, log_of r ++ log_of h).
Proof.
  simpl healthLoop. rewrite bind_unfold. cbn zeta.
  destruct (fst (result_of (refreshVmStatus cfg p instanceId vm st))).
  - rewrite bind_unfold. reflexivity.
  - reflexivity.
Qed.




Lemma terminate_if_idle_other (instanceId id' : string) (vm : VM) (st : St) :
  id' <> instanceId ->
  Pool.get id' (vmPool (state_of (terminate_if_idle cfg instanceId vm st)))
  = Pool.get id' (vmPool st).
Proof.
  intros Hne. rewrite terminate_if_idle_eq.
  destruct (idle_guard cfg vm instanceId st); simpl; [|reflexivity].
  apply get_delete_other. congruence.
Qed.

Lemma healthLoop_untouched (p : ProbeEnv) (entries : list (string * VM)) (total : Q)
    (st : St) (id : string) :
  ~ In id (List.map fst entries) ->
  Pool.get id (vmPool (state_of (healthLoop cfg p entries total st)))
  = Pool.get id (vmPool st).
Proof.
  revert total st. induction entries as [|[instanceId vm] rest IH]; intros total st Hnot.
  - reflexivity.
  - simpl in Hnot. rewrite healthLoop_cons. cbn zeta.
    assert (Hne : id <> instanceId) by (intros ->; tauto).
    destruct (fst (result_of (refreshVmStatus cfg p instanceId vm st))); simpl.
    + rewrite IH by tauto. rewrite terminate_if_idle_other by exact Hne.
      apply refreshVmStatus_other; exact Hne.
    + rewrite IH by tauto. apply refreshVmStatus_other; exact Hne.
Qed.

Lemma healthLoop_scales_down (p : ProbeEnv) (entries : list (string * VM)) (total : Q)
    (st : St) (id : string) (vm : VM) (data : Js.val) :
  List.NoDup (List.map fst entries) ->
  In (id, vm) entries ->
  status p id = Some data ->
  (probe_matchCount data == 0)%Q ->
  (inject_Z (VM_AGE_TERMINATE_MINUTES cfg) <= ageMinutes (status_at p id) vm)%Q ->
  protectedVM st <> Some id ->
  MIN_BACKUP_VMS cfg < Pool.size (vmPool st) ->
  (forall id' vm', In (id', vm') entries -> id' <> id ->
     exists data', status p id' = Some data' /\ ~ (probe_matchCount data' == 0)%Q) ->
  Pool.get id (vmPool (state_of (healthLoop cfg p entries total st))) = None /\
  exists ev, In ev (log_of (healthLoop cfg p entries total st)) /\
             call ev = TerminateInstances IdlePath id.
Proof.
  revert total st. induction entries as [|[instanceId vm0] rest IH];
    intros total st Hnd Hin Hs Hidle Hage Hprot Hmin Hothers; [destruct Hin|].
  rewrite healthLoop_cons. cbn zeta. simpl in Hnd.
  destruct (String.eqb_spec instanceId id) as [->|Hne].
  - pose proof (entry_is_head _ _ _ _ Hnd Hin); subst vm0.
    inversion Hnd as [|? ? Hfresh _]; subst.
    rewrite (refresh_success cfg _ _ _ _ _ Hs). simpl.
    rewrite terminate_if_idle_eq.
    assert (G : idle_guard cfg (probed (probe_matchCount data) (status_at p id) vm) id
                  (set_pool
                     (Pool.update id (probed (probe_matchCount data) (status_at p id) vm))
                     (set_clock (status_at p id) st)) = true).
    { unfold idle_guard. simpl. rewrite size_update.
      repeat (apply andb_true_intro; split).
      - apply Qeq_bool_iff; exact Hidle.
      - apply Z.ltb_lt; exact Hmin.
      - apply negb_true_iff. unfold is_protected. simpl.
        destruct (protectedVM st) as [q|]; [|reflexivity].
        apply String.eqb_neq. congruence.
      - apply Qle_bool_iff; exact Hage. }
    rewrite G. simpl. split.
    + rewrite healthLoop_untouched by exact Hfresh. simpl. apply get_delete_same.
    + eexists. split; [left; reflexivity | reflexivity].
  - inversion Hnd; subst.
    destruct (Hothers instanceId vm0) as (data0 & Hs0 & Hbusy);
      [left; reflexivity | exact Hne |].
    rewrite (refresh_success cfg _ _ _ _ _ Hs0). simpl.
    rewrite terminate_if_idle_eq.
    assert (G : idle_guard cfg
                  (probed (probe_matchCount data0) (status_at p instanceId) vm0) instanceId
                  (set_pool
                     (Pool.update instanceId
                        (probed (probe_matchCount data0) (status_at p instanceId) vm0))
                     (set_clock (status_at p instanceId) st)) = false).
    { unfold idle_guard. simpl.
      destruct (Qeq_bool (probe_matchCount data0) 0) eqn:E; [|reflexivity].
      exfalso. apply Hbusy. apply Qeq_bool_iff; exact E. }
    rewrite G. simpl.
    destruct (IH (total + freeSlots cfg
                             (probed (probe_matchCount data0) (status_at p instanceId) vm0))%Q
                 (set_pool
                    (Pool.update instanceId
                       (probed (probe_matchCount data0) (status_at p instanceId) vm0))
                    (set_clock (status_at p instanceId) st)))
      as (Hgone & ev & Hev & Hcall); try assumption.
    + destruct Hin as [Hin|Hin]; [congruence | exact Hin].
    + simpl. rewrite size_update. exact Hmin.
    + intros id' vm' Hin'. apply (Hothers id' vm'). right; exact Hin'.
    + split; [exact Hgone|]. exists ev. split; [exact Hev | exact Hcall].
Qed.

(** X18. Idle scale-down. In the health step, a VM whose worker answers
    with no active match, that is at least [VM_AGE_TERMINATE_MINUTES] old
    at the instant of the answer and is not the protected VM, in a registry
    of more than [MIN_BACKUP_VMS] records whose other workers all answer
    with at least one match, is terminated: [TerminateInstances] is called
    for it and it leaves the registry, while every other VM stays
    registered. *)
Theorem idle_vm_is_scaled_down (p : ProbeEnv) (st : St) (id : string) (vm : VM)
    (data : Js.val) :
  Pool.wf (vmPool st) ->
  In (id, vm) (vmPool st) ->
  status p id = Some data ->
  (probe_matchCount data == 0)%Q ->
  (inject_Z (VM_AGE_TERMINATE_MINUTES cfg) <= ageMinutes (status_at p id) vm)%Q ->
  protectedVM st <> Some id ->
  MIN_BACKUP_VMS cfg < Pool.size (vmPool st) ->
  (forall id' vm', In (id', vm') (vmPool st) -> id' <> id ->
     exists data', status p id' = Some data' /\ ~ (probe_matchCount data' == 0)%Q) ->
  let r := healthRefresh cfg p st in
  Pool.get id (vmPool (state_of r)) = None /\
  (exists ev, In ev (log_of r) /\ call ev = TerminateInstances IdlePath id) /\
  forall id' vm', In (id', vm') (vmPool st) -> id' <> id ->
    Pool.get id' (vmPool (state_of r)) <> None.
Proof.
  intros Hwf Hin Hs Hidle Hage Hprot Hmin Hothers. cbn zeta.
  unfold healthRefresh. rewrite state_of_bind, log_of_bind. simpl.
  destruct (healthLoop_scales_down p (vmPool st) 0%Q st id vm data)
    as (Hgone & Hev); try assumption.
  splits; [exact Hgone | exact Hev |].
  intros id' vm' Hin' Hne.
  assert (Hkept : forall (entries : list (string * VM)) (total : Q) (s : St),
            (forall k v, In (k, v) entries -> k = id \/
               exists d, status p k = Some d /\ ~ (probe_matchCount d == 0)%Q) ->
            Pool.get id' (vmPool s) <> None ->
            Pool.get id' (vmPool (state_of (healthLoop cfg p entries total s))) <> None).
  { induction entries as [|[k v] rest IH]; intros total s Hall Hreg; [exact Hreg|].
    rewrite healthLoop_cons. cbn zeta.
    assert (Hrest : forall k0 v0, In (k0, v0) rest -> k0 = id \/
               exists d, status p k0 = Some d /\ ~ (probe_matchCount d == 0)%Q).
    { intros k0 v0 H0. apply (Hall k0 v0). right; exact H0. }
    destruct (String.eqb_spec k id') as [->|Hk].
    - destruct (Hall id' v) as [Heq | (d & Hd & Hbusy)]; [left; reflexivity | congruence |].
      rewrite (refresh_success cfg _ _ _ _ _ Hd). simpl.
      rewrite terminate_if_idle_eq.
      assert (G : idle_guard cfg (probed (probe_matchCount d) (status_at p id') v) id'
                    (set_pool
                       (Pool.update id' (probed (probe_matchCount d) (status_at p id') v))
                       (set_clock (status_at p id') s)) = false).
      { unfold idle_guard. simpl.
        destruct (Qeq_bool (probe_matchCount d) 0) eqn:E; [|reflexivity].
        exfalso. apply Hbusy. apply Qeq_bool_iff; exact E. }
      rewrite G. simpl. apply IH; [exact Hrest|]. simpl.
      apply get_in_keys. rewrite keys_update. apply get_in_keys. exact Hreg.
    - assert (Hk' : id' <> k) by congruence.
      destruct (fst (result_of (refreshVmStatus cfg p k v s))); simpl.
      + apply IH; [exact Hrest|].
        rewrite terminate_if_idle_other by exact Hk'.
        rewrite refreshVmStatus_other by exact Hk'. exact Hreg.
      + apply IH; [exact Hrest|].
        rewrite refreshVmStatus_other by exact Hk'. exact Hreg. }
  apply Hkept.
  - intros k v Hkv. destruct (String.eqb_spec k id) as [->|Hk]; [left; reflexivity|].
    right. apply (Hothers k v); assumption.
  - eapply entry_registered; exact Hin'.
Qed.

End HealthOutcome.

(** ** More on scaling *)

Section ScalingOutcome.

Context (cfg : Config).








End ScalingOutcome.

(** ** Reading a match back *)

(** X20. Start, then read. When [handleMatchRequest] answers 200, a
    [GET /api/match-details/:matchId] made next with the request's
    [matchId] answers 200 with the stored record, whose descriptor is the
    body of the first answer; the read changes nothing and calls nothing. *)
Theorem started_match_can_be_read_back
    (cfg : Config) (matchPrivacy : string) (rq : MatchRequest) (e : RequestEnv) (st : St) :
  let r := handleMatchRequest cfg matchPrivacy rq e st in
  code (result_of r) = 200 ->
  exists mid record,
    matchId rq = Some mid /\
    body (result_of r) = DescriptorBody (descriptor record) /\
    matchDetails mid (state_of r)
      = ({| code := 200; body := RecordBody record |}, state_of r, []).
Proof.
  cbn zeta. rewrite handleMatchRequest_eq.
  destruct (valid_request rq) as [[mid gm]|] eqn:Hv; [|discriminate]. cbn zeta.
  assert (Hmid : matchId rq = Some mid /\ mid <> "").
  { unfold valid_request in Hv.
    destruct (matchId rq) as [m|]; [|discriminate].
    destruct (gameMode rq) as [g|]; [|discriminate].
    destruct (String.eqb m "") eqn:Em; [discriminate|].
    destruct (_ || _); [discriminate|].
    apply String.eqb_neq in Em. split; congruence. }
  destruct Hmid as [Hmid Hne].
  destruct (result_of (getAvailableVM cfg (rq_probes e) (rq_launch e) st))
    as [[instanceId vmIP]|]; [|discriminate].
  destruct (start_on cfg e matchPrivacy rq mid gm vmIP) as [matchData|]; [|discriminate].
  simpl. intros _.
  exists mid, {| descriptor := matchData; startedAt := start_at e;
                 vmInstanceId := instanceId |}.
  splits; [exact Hmid | reflexivity |].
  rewrite matchDetails_eq. apply String.eqb_neq in Hne. rewrite Hne.
  simpl. rewrite lookup_insert_eq. reflexivity.
Qed.

(** ** Counters are never negative *)

Lemma pool_ok_update (id : string) (vm : VM) (p : list (string * VM)) :
  record_ok vm -> pool_ok p -> pool_ok (Pool.update id vm p).
Proof.
  unfold pool_ok. intros Hvm. induction 1 as [|[k v] p Hk Hp IH]; simpl; [constructor|].
  destruct (String.eqb id k); constructor; assumption.
Qed.

Lemma pool_ok_set (id : string) (vm : VM) (p : list (string * VM)) :
  record_ok vm -> pool_ok p -> pool_ok (Pool.set id vm p).
Proof.
  unfold pool_ok. intros Hvm. induction 1 as [|[k v] p Hk Hp IH]; simpl.
  - constructor; [exact Hvm | constructor].
  - destruct (String.eqb id k); constructor; assumption.
Qed.

Lemma pool_ok_alter (f : VM -> VM) (id : string) (p : list (string * VM)) :
  (forall v, record_ok v -> record_ok (f v)) -> pool_ok p -> pool_ok (Pool.alter f id p).
Proof.
  unfold pool_ok. intros Hf. induction 1 as [|[k v] p Hk Hp IH]; simpl; [constructor|].
  destruct (String.eqb id k); constructor; simpl in *; auto.
Qed.

Lemma pool_ok_delete (id : string) (p : list (string * VM)) :
  pool_ok p -> pool_ok (Pool.delete id p).
Proof.
  unfold pool_ok, Pool.delete. intros H. apply List.Forall_forall.
  intros x Hx. apply List.filter_In in Hx as [Hx _].
  rewrite List.Forall_forall in H. apply H; exact Hx.
Qed.

Lemma pool_ok_get (id : string) (vm : VM) (p : list (string * VM)) :
  pool_ok p -> Pool.get id p = Some vm -> record_ok vm.
Proof.
  unfold pool_ok. induction 1 as [|[k v] p Hk Hp IH]; simpl; [discriminate|].
  destruct (String.eqb id k); [|exact IH]. intros H; inversion H; subst. exact Hk.
Qed.

Lemma fresh_vm_ok (ip0 : string) (now : Z) : record_ok (fresh_vm ip0 now).
Proof. split; simpl; [apply Qle_refl | lia]. Qed.

Lemma sync_remove_ok (allInstances : list Instance) (id0 : string) :
  keeps records_ok (sync_remove allInstances id0).
Proof.
  intros st H. unfold records_ok in *.
  destruct (sync_remove_pool allInstances id0 st)
    as [(_ & [-> | (vm & ip0 & Hget & _ & ->)]) | (_ & ->)].
  - exact H.
  - apply pool_ok_update; [|exact H]. exact (pool_ok_get _ _ _ H Hget).
  - apply pool_ok_delete; exact H.
Qed.

Lemma sync_add_ok (inst : Instance) : keeps records_ok (sync_add inst).
Proof.
  intros st H. unfold records_ok in *.
  destruct (sync_add_pool inst st) as [(-> & _) | (_ & _ & ip0 & _ & ->)].
  - exact H.
  - apply pool_ok_set; [apply fresh_vm_ok | exact H].
Qed.

Lemma syncWithCloud_ok (e : SyncEnv) : keeps records_ok (syncWithCloud e).
Proof.
  unfold syncWithCloud, choose_protected.
  keeps_auto; try apply sync_remove_ok; try apply sync_add_ok; assumption.
Qed.

Section Counters.

Context (cfg : Config).

Lemma refreshVmStatus_ok (p : ProbeEnv) (instanceId : string) (vm : VM) (st : St) :
  record_ok vm -> records_ok st ->
  records_ok (state_of (refreshVmStatus cfg p instanceId vm st)).
Proof.
  intros [Hmc Huc] H. unfold records_ok in *.
  destruct (status p instanceId) as [data|] eqn:Hs.
  - rewrite (refresh_success cfg _ _ _ _ _ Hs). simpl.
    apply pool_ok_update; [|exact H].
    split; simpl; [apply probe_matchCount_nonneg | lia].
  - rewrite (refresh_failure cfg _ _ _ _ Hs). cbn zeta.
    assert (Hmissed : record_ok (missed vm)) by (split; simpl; [exact Hmc | lia]).
    destruct (unreachable_guard _ _ _ _ _); simpl.
    + apply pool_ok_delete, pool_ok_update; assumption.
    + apply pool_ok_update; assumption.
Qed.

Lemma pool_ok_delete_all (ids : list string) (pool : list (string * VM)) :
  pool_ok pool -> pool_ok (delete_all ids pool).
Proof.
  revert pool. induction ids as [|a ids IH]; intros pool H; simpl; [exact H|].
  apply IH, pool_ok_delete, H.
Qed.

Lemma refresh_resumes_ok (p : ProbeEnv) (instanceId : string) (vm : VM) (st : St) :
  record_ok vm -> records_ok st ->
  records_ok (state_of (refresh_resumes cfg p instanceId vm st)).
Proof.
  intros [Hmc Huc] H. unfold records_ok in *.
  destruct (status p instanceId) as [data|] eqn:Hs.
  - rewrite (resumes_success cfg _ _ _ _ _ Hs). simpl.
    apply pool_ok_update; [|exact H].
    split; simpl; [apply probe_matchCount_nonneg | lia].
  - rewrite (resumes_failure cfg _ _ _ _ Hs). cbn zeta.
    assert (Hmissed : record_ok (missed vm)) by (split; simpl; [exact Hmc | lia]).
    destruct (unreachable_guard _ _ _ _ _); simpl; apply pool_ok_update; assumption.
Qed.

Lemma probe_loop_ok (p : ProbeEnv) (answers : list (string * VM))
    (terminating : list string) (st : St) :
  pool_ok answers -> records_ok st ->
  records_ok (state_of (probe_loop cfg p answers terminating st)).
Proof.
  revert terminating st. induction answers as [|[instanceId vm] rest IH];
    intros terminating st Hanswers H.
  - simpl probe_loop. rewrite deletes_eq. unfold records_ok in *. simpl.
    apply pool_ok_delete_all; exact H.
  - rewrite probe_loop_cons. cbn zeta. simpl. inversion Hanswers; subst.
    apply IH; [assumption|]. apply refresh_resumes_ok; [assumption|].
    unfold records_ok in *. simpl. apply pool_ok_delete_all; exact H.
Qed.

Lemma probe_entries_ok (p : ProbeEnv) (entries : list (string * VM)) (st : St) :
  pool_ok entries -> records_ok st ->
  records_ok (state_of (probe_entries cfg p entries st)).
Proof.
  intros Hentries H. apply probe_loop_ok; [|exact H].
  unfold pool_ok in *.
  eapply Permutation_Forall; [apply stable_sort_perm | exact Hentries].
Qed.

Lemma launchBackupVM_ok (l : LaunchEnv) : keeps records_ok (launchBackupVM cfg l).
Proof.
  intros st H. unfold records_ok in *. rewrite launchBackupVM_eq.
  destruct (launching st); [exact H|].
  destruct (MAX_BACKUP_VMS cfg <=? Pool.size (vmPool st)); [exact H|].
  cbn zeta. simpl. rewrite launch_attempt_eq. cbn zeta.
  destruct (run_reply l) as [instanceId|]; [|exact H].
  destruct (String.eqb instanceId ""); [exact H|].
  pose proof (pollLoop_spec l instanceId maxPoll 0 (set_launching true st)) as Hp.
  cbn zeta in Hp.
  destruct (pollLoop l instanceId maxPoll 0 (set_launching true st)) as [[res s1] plog].
  simpl in Hp. destruct Hp as (_ & _ & _ & _ & Hpool).
  assert (Hap : vmPool (after_protect instanceId s1) = vmPool s1).
  { unfold after_protect. destruct (Js.falsy_str _); reflexivity. }
  assert (Hs1 : pool_ok (vmPool s1)).
  { destruct res as [ip0|]; rewrite Hpool; [|exact H].
    apply pool_ok_set; [apply fresh_vm_ok | exact H]. }
  simpl.
  destruct res as [ip1|]; [destruct (String.eqb ip1 "")|]; simpl; rewrite Hap;
    try apply pool_ok_delete; exact Hs1.
Qed.

Lemma getAvailableVM_ok (p : ProbeEnv) (l : LaunchEnv) :
  keeps records_ok (getAvailableVM cfg p l).
Proof.
  intros st H. unfold getAvailableVM. rewrite state_of_bind.
  assert (H1 : records_ok (state_of (refreshAll cfg p st))).
  { rewrite refreshAll_eq. apply probe_entries_ok; exact H. }
  generalize (result_of (refreshAll cfg p st)); intros [].
  rewrite select_eq.
  destruct (candidates cfg _) as [|[id vm] rest]; [|exact H1].
  apply launchBackupVM_ok; exact H1.
Qed.

Lemma bump_ok (vm : VM) : record_ok vm -> record_ok (bump vm).
Proof.
  intros [Hmc Huc]. split; simpl; [|exact Huc].
  apply round64_nonneg. lra.
Qed.

Lemma handleMatchRequest_ok (matchPrivacy : string) (rq : MatchRequest) (e : RequestEnv) :
  keeps records_ok (handleMatchRequest cfg matchPrivacy rq e).
Proof.
  intros st H. rewrite handleMatchRequest_eq.
  destruct (valid_request rq) as [[mid gm]|]; [|exact H]. cbn zeta.
  pose proof (getAvailableVM_ok (rq_probes e) (rq_launch e) st H) as H1.
  destruct (result_of (getAvailableVM cfg (rq_probes e) (rq_launch e) st))
    as [[instanceId vmIP]|]; [|exact H1].
  destruct (start_on cfg e matchPrivacy rq mid gm vmIP) as [matchData|]; [|exact H1].
  unfold records_ok in *. simpl. apply pool_ok_alter; [apply bump_ok | exact H1].
Qed.

Lemma healthLoop_ok (p : ProbeEnv) (entries : list (string * VM)) (total : Q) (st : St) :
  pool_ok entries -> records_ok st ->
  records_ok (state_of (healthLoop cfg p entries total st)).
Proof.
  revert total st. induction entries as [|[instanceId vm] rest IH];
    intros total st Hentries H.
  - exact H.
  - rewrite healthLoop_cons. cbn zeta. inversion Hentries; subst.
    pose proof (refreshVmStatus_ok p instanceId vm st ltac:(assumption) H) as H1.
    destruct (fst (result_of (refreshVmStatus cfg p instanceId vm st))); simpl.
    + apply IH; [assumption|]. rewrite terminate_if_idle_eq.
      destruct (idle_guard _ _ _ _); simpl; [|exact H1].
      unfold records_ok in *. simpl. apply pool_ok_delete; exact H1.
    + apply IH; assumption.
Qed.

Lemma updateVMs_ok (e : TickEnv) : keeps records_ok (updateVMs cfg e).
Proof.
  intros st H. unfold records_ok. rewrite updateVMs_pool. cbn zeta.
  assert (H1 : records_ok (state_of (observe cfg e st))).
  { unfold observe. rewrite state_of_bind. unfold healthRefresh.
    rewrite state_of_bind. simpl.
    pose proof (syncWithCloud_ok (tk_sync e) st H) as H0.
    apply healthLoop_ok; exact H0. }
  assert (H2 : records_ok (state_of (ensureMinimum cfg (tk_topup e)
                                       (state_of (observe cfg e st))))).
  { revert H1. generalize (state_of (observe cfg e st)).
    change (keeps records_ok (ensureMinimum cfg (tk_topup e))).
    unfold ensureMinimum. keeps_auto. apply launchBackupVM_ok. }
  revert H2. generalize (state_of (ensureMinimum cfg (tk_topup e)
                                     (state_of (observe cfg e st)))).
  change (keeps records_ok (scaleUp cfg (tk_scaleup e) (result_of (observe cfg e st)))).
  unfold scaleUp. keeps_auto. apply launchBackupVM_ok.
Qed.

Lemma exec_ok (op : Op) : keeps records_ok (exec cfg op).
Proof.
  destruct op as [matchPrivacy rq e|e|mid]; unfold exec, matchDetails.
  - keeps_auto. apply handleMatchRequest_ok.
  - keeps_auto. apply updateVMs_ok.
  - keeps_auto.
Qed.

Lemma run_ok (ops : list Op) : keeps records_ok (run cfg ops).
Proof.
  induction ops as [|op rest IH]; simpl.
  - apply keeps_ret.
  - keeps_auto; [apply exec_ok | apply IH].
Qed.

(** X21. Counters are never negative. In every state that the process
    reaches from its start by any sequence of match requests, reconciler
    ticks and match look-ups, every registry record has a [matchCount] and
    an [unreachableCount] that are not negative. *)
Theorem counters_are_never_negative (ops : list Op) (t : Z) :
  Forall (fun entry => (0 <= matchCount (snd entry))%Q /\ 0 <= unreachableCount (snd entry))
    (vmPool (state_of (run cfg ops (init t)))).
Proof.
  apply (run_ok ops (init t)). constructor.
Qed.

(** X22. Match records are never removed. Once [matches] holds a record
    under a [matchId], it holds one under that id after any sequence of
    match requests, reconciler ticks and match look-ups: neither the
    termination of the VM that hosts the match nor any other step prunes
    the map. *)
Theorem match_records_are_never_removed (ops : list Op) (st : St) (mid : string) :
  matches st !! mid <> None ->
  matches (state_of (run cfg ops st)) !! mid <> None.
Proof.
  revert st. induction ops as [|op rest IH]; intros st H; [exact H|].
  simpl run. rewrite state_of_bind, state_of_bind. simpl.
  apply IH. apply exec_keeps_record. exact H.
Qed.

End Counters.

(** ** The worker's port picker *)

(** With [min] and [max] between 0 and 2^52 the integer operations are
    exact; the product is rounded. *)
Lemma draw_port_eq (r : Q) (min max : Z) :
  (0 <= r)%Q -> (r <= 1 - pow2 (-53))%Q -> 0 <= min -> min <= max -> max <= 2 ^ 52 ->
  draw_port r min max = Qfloor (round64 (r * inject_Z (max - min + 1))) + min /\
  0 <= Qfloor (round64 (r * inject_Z (max - min + 1))) < max - min + 1.
Proof.
  intros H0 H1 Hmin Hmm Hmax. unfold draw_port.
  set (n := max - min + 1).
  assert (Hn : 1 <= n) by (unfold n; lia).
  assert (E1 : round64 (inject_Z max - inject_Z min) = round64 (inject_Z (max - min))).
  { apply round64_comp. unfold Z.sub. rewrite inject_Z_plus, inject_Z_opp. reflexivity. }
  assert (E2 : (round64 (inject_Z (max - min)) == inject_Z (max - min))%Q).
  { apply round64_Z. split; [lia|].
    assert (2 ^ 52 <= 2 ^ 53) by (vm_compute; discriminate). lia. }
  assert (E3 : round64 (round64 (inject_Z max - inject_Z min) + 1) = round64 (inject_Z n)).
  { apply round64_comp. rewrite E1, E2. unfold n. rewrite (inject_Z_plus _ 1). reflexivity. }
  assert (E4 : (round64 (inject_Z n) == inject_Z n)%Q).
  { apply round64_Z. split; [lia|].
    assert (2 ^ 52 + 1 <= 2 ^ 53) by (vm_compute; discriminate). unfold n. lia. }
  assert (E5 : round64 (r * round64 (round64 (inject_Z max - inject_Z min) + 1))
               = round64 (r * inject_Z n)).
  { apply round64_comp. rewrite E3, E4. reflexivity. }
  rewrite E5.
  set (f := Qfloor (round64 (r * inject_Z n))).
  assert (Hlo : 0 <= f).
  { change 0 with (Qfloor 0). apply Qfloor_resp_le. apply round64_nonneg.
    apply Qmult_le_0_compat; [exact H0|].
    change 0%Q with (inject_Z 0). rewrite <- Zle_Qle. lia. }
  assert (Hhi : f < n).
  { rewrite Zlt_Qlt. eapply Qle_lt_trans; [apply Qfloor_le|].
    apply round64_below; assumption. }
  split; [|split; assumption].
  assert (E6 : round64 (inject_Z f + inject_Z min) = round64 (inject_Z (f + min))).
  { apply round64_comp. rewrite inject_Z_plus. reflexivity. }
  assert (E7 : (round64 (inject_Z (f + min)) == inject_Z (f + min))%Q).
  { apply round64_Z. split; [lia|].
    assert (2 ^ 52 <= 2 ^ 53) by (vm_compute; discriminate). unfold n in Hhi. lia. }
  rewrite E6, (Qfloor_comp _ _ E7), Qfloor_Z. reflexivity.
Qed.

Lemma draw_port_in_range (r : Q) (min max : Z) :
  (0 <= r)%Q -> (r <= 1 - pow2 (-53))%Q -> 0 <= min -> min <= max -> max <= 2 ^ 52 ->
  min <= draw_port r min max <= max.
Proof.
  intros H0 H1 Hmin Hmm Hmax.
  destruct (draw_port_eq r min max H0 H1 Hmin Hmm Hmax) as (-> & Hf). lia.
Qed.

Lemma pickPort_spec (e : PortEnv) (min max : Z) (n i : nat) :
  match pickPort e min max n i with
  | Some port =>
      exists j, (i <= j < i + n)%nat /\
        port = draw_port (random e j) min max /\
        isPortAvailable e j port = true /\
        forall k, (i <= k < j)%nat ->
          isPortAvailable e k (draw_port (random e k) min max) = false
  | None =>
      forall k, (i <= k < i + n)%nat ->
        isPortAvailable e k (draw_port (random e k) min max) = false
  end.
Proof.
  revert i. induction n as [|n IH]; intros i; simpl.
  - intros k Hk. lia.
  - destruct (isPortAvailable e i (draw_port (random e i) min max)) eqn:E.
    + exists i. split; [lia|]. split; [reflexivity|]. split; [exact E|].
      intros k Hk. lia.
    + specialize (IH (S i)). destruct (pickPort e min max n (S i)) as [port|].
      * destruct IH as (j & Hj & Hport & Hfree & Hbefore).
        exists j. split; [lia|]. split; [exact Hport|]. split; [exact Hfree|].
        intros k Hk. destruct (Nat.eq_dec k i) as [->|Hne]; [exact E|].
        apply Hbefore. lia.
      * intros k Hk. destruct (Nat.eq_dec k i) as [->|Hne]; [exact E|].
        apply IH. lia.
Qed.

(** X23. The worker's port picker ([matchLauncher.js]). When every
    [Math.random()] is a double of [[0, 1)], that is, at most [1 - 2^-53],
    and [0 <= min <= max <= 2^52], [getRandomAvailablePort(min, max)]
    returns either a port between [min] and [max] inclusive, the first of
    at most 20 draws that [isPortAvailable] found free, or [null], and then
    only after 20 draws were all found taken. Each draw is [min] plus the
    integer part of the product of the random number and [max - min + 1],
    that product being rounded to a double. *)
Theorem picked_port_is_in_range_and_free (e : PortEnv) (min max : Z) :
  (forall i, (0 <= random e i)%Q /\ (random e i <= 1 - pow2 (-53))%Q) ->
  0 <= min -> min <= max -> max <= 2 ^ 52 ->
  (forall i,
     draw_port (random e i) min max
     = Qfloor (round64 (random e i * inject_Z (max - min + 1))) + min) /\
  match getRandomAvailablePort e min max with
  | Some port =>
      min <= port <= max /\
      exists j, (j < 20)%nat /\
        port = draw_port (random e j) min max /\
        isPortAvailable e j port = true /\
        forall k, (k < j)%nat ->
          isPortAvailable e k (draw_port (random e k) min max) = false
  | None =>
      forall k, (k < 20)%nat ->
        isPortAvailable e k (draw_port (random e k) min max) = false
  end.
Proof.
  intros Hrand Hmin Hmm Hmax. split.
  { intros i. destruct (Hrand i) as [H0 H1].
    exact (proj1 (draw_port_eq _ min max H0 H1 Hmin Hmm Hmax)). }
  unfold getRandomAvailablePort.
  pose proof (pickPort_spec e min max maxTries 0) as H.
  assert (Htries : maxTries = 20%nat) by reflexivity.
  destruct (pickPort e min max maxTries 0) as [port|].
  - destruct H as (j & Hj & Hport & Hfree & Hbefore). split.
    + rewrite Hport. destruct (Hrand j). apply draw_port_in_range; assumption.
    + exists j. splits; [lia | exact Hport | exact Hfree |].
      intros k Hk. apply Hbefore. lia.
  - intros k Hk. apply H. lia.
Qed.

(** ** Why the health step terminates *)

Section Causes.

Context (cfg : Config).

Lemma healthLoop_caused (p : ProbeEnv) (entries : list (string * VM)) (total : Q) (st : St) :
  List.NoDup (List.map fst entries) ->
  (forall id vm, In (id, vm) entries -> Pool.get id (vmPool st) <> None) ->
  Forall (caused cfg p) (log_of (healthLoop cfg p entries total st)).
Proof.
  revert total st.
  induction entries as [|[instanceId vm] rest IH]; intros total st Hnd Hin.
  - constructor.
  - inversion Hnd as [|? ? Hfresh Hnd']; subst.
    assert (Hrest : forall id vm0, In (id, vm0) rest -> id <> instanceId).
    { intros id vm0 H Heq. subst id. apply Hfresh.
      change instanceId with (fst (instanceId, vm0)). apply in_map; exact H. }
    destruct (Pool.get instanceId (vmPool st)) as [old|] eqn:Hold;
      [|exfalso; apply (Hin instanceId vm); [left; reflexivity | exact Hold]].
    rewrite healthLoop_cons. cbn zeta.
    destruct (status p instanceId) as [data|] eqn:Hs.
    + rewrite (refresh_success cfg _ _ _ _ _ Hs). simpl.
      rewrite terminate_if_idle_eq.
      destruct (idle_guard cfg _ instanceId _) eqn:G; simpl.
      * constructor.
        { unfold caused. simpl.
          unfold idle_guard in G. simpl in G.
          apply andb_prop in G as [G _]. apply andb_prop in G as [G _].
          apply andb_prop in G as [G _]. apply Qeq_bool_iff in G.
          exists data, (probed (probe_matchCount data) (status_at p instanceId) vm).
          splits; [exact Hs | exact G | eapply get_update_same; exact Hold | exact G]. }
        apply IH; [exact Hnd'|]. intros id vm0 H. simpl.
        rewrite get_delete_other by (apply not_eq_sym; eapply Hrest; exact H).
        rewrite get_update_other by (apply not_eq_sym; eapply Hrest; exact H).
        apply (Hin id vm0). right; exact H.
      * apply IH; [exact Hnd'|]. intros id vm0 H. simpl.
        rewrite get_update_other by (apply not_eq_sym; eapply Hrest; exact H).
        apply (Hin id vm0). right; exact H.
    + rewrite (refresh_failure cfg _ _ _ _ Hs). cbn zeta.
      destruct (unreachable_guard _ _ _ _ _) eqn:G; simpl.
      * constructor.
        { unfold caused. simpl. split; [exact Hs|].
          unfold unreachable_guard in G.
          apply andb_prop in G as [G _]. apply andb_prop in G as [G _].
          apply Z.leb_le in G.
          exists (missed vm). split; [eapply get_update_same; exact Hold | exact G]. }
        apply IH; [exact Hnd'|]. intros id vm0 H. simpl.
        rewrite get_delete_other by (apply not_eq_sym; eapply Hrest; exact H).
        rewrite get_update_other by (apply not_eq_sym; eapply Hrest; exact H).
        apply (Hin id vm0). right; exact H.
      * apply IH; [exact Hnd'|]. intros id vm0 H. simpl.
        rewrite get_update_other by (apply not_eq_sym; eapply Hrest; exact H).
        apply (Hin id vm0). right; exact H.
Qed.

Lemma launch_calls_caused (p : ProbeEnv) (log : list Event) :
  Forall (fun ev => launch_call (call ev)) log -> Forall (caused cfg p) log.
Proof.
  apply List.Forall_impl. intros ev H. unfold caused.
  destruct (call ev) as [reply|path id]; [exact I|].
  simpl in H. subst path. exact I.
Qed.

(** X24. Terminations have a cause. Every [TerminateInstances] that a
    reconciler tick issues on the unreachable path is for a VM whose
    worker did not answer the probe of this tick and whose record, at the
    instant of the call, counts at least
    [VM_UNREACHABLE_TERMINATE_THRESHOLD] failed probes; every one issued on
    the idle path is for a VM whose worker answered this tick's probe with
    no active match. A VM that answers with a match in progress is not
    terminated by the tick. *)
Theorem reconciler_terminations_have_a_cause
    (e : TickEnv) (st : St) (ev : Event) (instanceId : string) :
  Pool.wf (vmPool st) ->
  In ev (log_of (updateVMs cfg e st)) ->
  (call ev = TerminateInstances UnreachablePath instanceId ->
     status (tk_probes e) instanceId = None /\
     exists vm, Pool.get instanceId (vmPool (at_state ev)) = Some vm /\
                VM_UNREACHABLE_TERMINATE_THRESHOLD cfg <= unreachableCount vm) /\
  (call ev = TerminateInstances IdlePath instanceId ->
     exists data vm,
       status (tk_probes e) instanceId = Some data /\ (probe_matchCount data == 0)%Q /\
       Pool.get instanceId (vmPool (at_state ev)) = Some vm /\ (matchCount vm == 0)%Q).
Proof.
  intros Hwf Hin.
  assert (Hall : Forall (caused cfg (tk_probes e)) (log_of (updateVMs cfg e st))).
  { rewrite updateVMs_log. cbn zeta.
    apply Forall_app; split; [|apply Forall_app; split].
    - unfold observe. rewrite log_of_bind.
      rewrite (proj2 (Forall_nil_iff_log _) (syncWithCloud_silent _ _)).
      unfold healthRefresh. rewrite log_of_bind. simpl.
      pose proof (syncWithCloud_wf (tk_sync e) st Hwf) as Hwf1.
      apply healthLoop_caused; [exact Hwf1|].
      intros id vm H. apply get_in_keys.
      change id with (fst (id, vm)). apply in_map; exact H.
    - apply launch_calls_caused. apply ensureMinimum_props.
    - apply launch_calls_caused. apply scaleUp_props. }
  rewrite List.Forall_forall in Hall. specialize (Hall ev Hin).
  unfold caused in Hall. split; intros Hcall; rewrite Hcall in Hall; exact Hall.
Qed.

End Causes.

(** ** Witnesses of the further properties *)

(** Witness of [sync_keeps_only_running_instances]: ["B"], found in the
    registry after a synchronisation that started with ["A"] alone. *)
Lemma sync_keeps_only_running_instances_witness :
  describe (tk_sync B_lost_tick) = Some listed_AB /\
  In "B" (Pool.keys (vmPool (state_of (syncWithCloud (tk_sync B_lost_tick) one_vm)))) /\
  cloud_running listed_AB "B".
Proof.
  assert (H1 : describe (tk_sync B_lost_tick) = Some listed_AB) by reflexivity.
  assert (H2 : In "B" (Pool.keys (vmPool (state_of
                         (syncWithCloud (tk_sync B_lost_tick) one_vm)))))
    by (vm_compute; right; left; reflexivity).
  split; [exact H1|]. split; [exact H2|].
  exact (sync_keeps_only_running_instances (tk_sync B_lost_tick) listed_AB one_vm "B" H1 H2).
Defined.

(** Witness of [sync_tracks_every_running_instance]: ["B"] is picked up. *)
Lemma sync_tracks_every_running_instance_witness :
  describe (tk_sync B_lost_tick) = Some listed_AB /\
  In instance_B listed_AB /\ trackable instance_B /\
  Pool.get "B" (vmPool (state_of (syncWithCloud (tk_sync B_lost_tick) one_vm))) <> None.
Proof.
  assert (H1 : describe (tk_sync B_lost_tick) = Some listed_AB) by reflexivity.
  assert (H2 : In instance_B listed_AB) by (right; left; reflexivity).
  assert (H3 : trackable instance_B).
  { split; [reflexivity|]. exists "10.0.0.2". split; [reflexivity | discriminate]. }
  split; [exact H1|]. split; [exact H2|]. split; [exact H3|].
  exact (sync_tracks_every_running_instance (tk_sync B_lost_tick) listed_AB one_vm
           instance_B H1 H2 H3).
Defined.

(** Witness of [sync_registers_fresh_records]: the record created for
    ["B"]. *)
Lemma sync_registers_fresh_records_witness :
  describe (tk_sync B_lost_tick) = Some listed_AB /\
  Pool.get "B" (vmPool one_vm) = None /\
  Pool.get "B" (vmPool (state_of (syncWithCloud (tk_sync B_lost_tick) one_vm)))
    = Some (fresh_vm "10.0.0.2" 590000) /\
  matchCount (fresh_vm "10.0.0.2" 590000) = 0%Q /\
  unreachableCount (fresh_vm "10.0.0.2" 590000) = 0 /\
  launchedAt (fresh_vm "10.0.0.2" 590000) = describe_at (tk_sync B_lost_tick) /\
  lastSeen (fresh_vm "10.0.0.2" 590000) = describe_at (tk_sync B_lost_tick) /\
  ip (fresh_vm "10.0.0.2" 590000) <> "".
Proof.
  assert (H1 : describe (tk_sync B_lost_tick) = Some listed_AB) by reflexivity.
  assert (H2 : Pool.get "B" (vmPool one_vm) = None) by reflexivity.
  assert (H3 : Pool.get "B" (vmPool (state_of (syncWithCloud (tk_sync B_lost_tick) one_vm)))
               = Some (fresh_vm "10.0.0.2" 590000)) by reflexivity.
  split; [exact H1|]. split; [exact H2|]. split; [exact H3|].
  exact (sync_registers_fresh_records (tk_sync B_lost_tick) listed_AB one_vm "B"
           (fresh_vm "10.0.0.2" 590000) H1 H2 H3).
Defined.

(** Witness of [sync_restores_protected_slot]: a synchronisation that
    starts with nobody protected. *)
Lemma sync_restores_protected_slot_witness :
  describe (tk_sync B_lost_tick) = Some listed_AB /\
  let st' := state_of (syncWithCloud (tk_sync B_lost_tick) nobody_protected) in
  pointer_valid st' /\
  (pointer_valid nobody_protected -> vmPool st' <> [] ->
   exists p, protectedVM st' = Some p /\ Pool.get p (vmPool st') <> None).
Proof.
  assert (H1 : describe (tk_sync B_lost_tick) = Some listed_AB) by reflexivity.
  split; [exact H1|].
  exact (sync_restores_protected_slot (tk_sync B_lost_tick) listed_AB nobody_protected H1).
Defined.

(** Witness of [sync_keeps_running_records]: the record of ["A"]. *)
Lemma sync_keeps_running_records_witness :
  describe (tk_sync B_lost_tick) = Some listed_AB /\
  Pool.get "A" (vmPool one_vm) = Some vmA /\
  cloudMap_get "A" listed_AB = Some instance_A /\
  is_running instance_A = true /\
  Pool.get "A" (vmPool (state_of (syncWithCloud (tk_sync B_lost_tick) one_vm)))
    = Some {| ip := synced_ip instance_A vmA; matchCount := matchCount vmA;
              unreachableCount := unreachableCount vmA;
              launchedAt := launchedAt vmA; lastSeen := lastSeen vmA |}.
Proof.
  assert (H1 : describe (tk_sync B_lost_tick) = Some listed_AB) by reflexivity.
  assert (H2 : Pool.get "A" (vmPool one_vm) = Some vmA) by reflexivity.
  assert (H3 : cloudMap_get "A" listed_AB = Some instance_A) by reflexivity.
  assert (H4 : is_running instance_A = true) by reflexivity.
  split; [exact H1|]. split; [exact H2|]. split; [exact H3|]. split; [exact H4|].
  exact (sync_keeps_running_records (tk_sync B_lost_tick) listed_AB one_vm "A"
           instance_A vmA H1 H2 H3 H4).
Defined.

(** Witness of [empty_slot_is_filled_with_the_oldest_vm]. *)
Lemma empty_slot_is_filled_with_the_oldest_vm_witness :
  Js.falsy_str (protectedVM nobody_protected) = true /\
  vmPool nobody_protected <> [] /\
  let st' := state_of (recomputeProtectedVM nobody_protected) in
  vmPool st' = vmPool nobody_protected /\
  exists p vp,
    protectedVM st' = Some p /\ Pool.get p (vmPool nobody_protected) = Some vp /\
    forall id vm, Pool.get id (vmPool nobody_protected) = Some vm ->
      launchedAt vp <= launchedAt vm.
Proof.
  assert (H1 : Js.falsy_str (protectedVM nobody_protected) = true) by reflexivity.
  assert (H2 : vmPool nobody_protected <> []) by discriminate.
  split; [exact H1|]. split; [exact H2|].
  exact (empty_slot_is_filled_with_the_oldest_vm nobody_protected H1 H2).
Defined.

(** Witness of [protection_rotates_after_an_idle_hour]: ["A"] has been
    silent for more than an hour and ["B"] is registered. *)
Lemma protection_rotates_after_an_idle_hour_witness :
  protectedVM A_idle_an_hour = Some "A" /\ "A" <> "" /\
  Pool.get "A" (vmPool A_idle_an_hour) = Some vmA /\
  (60 < idleForMinutes (clock A_idle_an_hour) vmA)%Q /\
  exists q vq,
    state_of (recomputeProtectedVM A_idle_an_hour) = set_protected (Some q) A_idle_an_hour /\
    q <> "A" /\ Pool.get q (vmPool A_idle_an_hour) = Some vq /\
    forall id vm, id <> "A" -> Pool.get id (vmPool A_idle_an_hour) = Some vm ->
      launchedAt vq <= launchedAt vm.
Proof.
  assert (H1 : protectedVM A_idle_an_hour = Some "A") by reflexivity.
  assert (H2 : "A" <> "") by discriminate.
  assert (H3 : Pool.get "A" (vmPool A_idle_an_hour) = Some vmA) by reflexivity.
  assert (H4 : (60 < idleForMinutes (clock A_idle_an_hour) vmA)%Q) by reflexivity.
  assert (H5 : "B" <> "A") by discriminate.
  assert (H6 : Pool.get "B" (vmPool A_idle_an_hour) <> None) by discriminate.
  split; [exact H1|]. split; [exact H2|]. split; [exact H3|]. split; [exact H4|].
  destruct (protection_rotates_after_an_idle_hour A_idle_an_hour "A" vmA H1 H2 H3)
    as (_ & _ & Hrot).
  exact (Hrot H4 "B" H5 H6).
Defined.

(** Witness of [launch_registers_or_cleans_up]: a launch on an empty
    registry. *)
Lemma launch_registers_or_cleans_up_witness :
  let l := ready_at_third_poll "ins-1" "10.0.0.1" in
  let r := launchBackupVM default_config l (init 0) in
  launching (init 0) = false /\
  Pool.size (vmPool (init 0)) < MAX_BACKUP_VMS default_config /\
  run_reply l = Some "ins-1" /\ "ins-1" <> "" /\
  launching (state_of r) = false /\
  ((exists ip1 vm,
      result_of r = Some ("ins-1", ip1) /\ ip1 <> "" /\
      Pool.get "ins-1" (vmPool (state_of r)) = Some vm /\
      ip vm = ip1 /\ matchCount vm = 0%Q /\ unreachableCount vm = 0 /\
      List.map call (log_of r) = [RunInstances (Some "ins-1")]) \/
   (result_of r = None /\
    Pool.get "ins-1" (vmPool (state_of r)) = None /\
    List.map call (log_of r)
      = [RunInstances (Some "ins-1"); TerminateInstances LaunchCleanup "ins-1"])).
Proof.
  intros l r.
  assert (H1 : launching (init 0) = false) by reflexivity.
  assert (H2 : Pool.size (vmPool (init 0)) < MAX_BACKUP_VMS default_config) by reflexivity.
  assert (H3 : run_reply l = Some "ins-1") by reflexivity.
  assert (H4 : "ins-1" <> "") by discriminate.
  split; [exact H1|]. split; [exact H2|]. split; [exact H3|]. split; [exact H4|].
  exact (launch_registers_or_cleans_up default_config l (init 0) "ins-1" H1 H2 H3 H4).
Defined.

(** Witness of [launch_succeeds_within_forty_polls]: the instance is found
    at the third poll. *)
Lemma launch_succeeds_within_forty_polls_witness :
  let l := ready_at_third_poll "ins-1" "10.0.0.1" in
  let r := launchBackupVM default_config l (init 0) in
  launching (init 0) = false /\
  Pool.size (vmPool (init 0)) < MAX_BACKUP_VMS default_config /\
  run_reply l = Some "ins-1" /\ "ins-1" <> "" /\
  (2 < 40)%nat /\ poll_finds (poll l 2) = Some "10.0.0.1" /\ "10.0.0.1" <> "" /\
  (forall k, (k < 2)%nat -> poll_finds (poll l k) = None) /\
  result_of r = Some ("ins-1", "10.0.0.1") /\
  Pool.get "ins-1" (vmPool (state_of r)) = Some (fresh_vm "10.0.0.1" (poll_at l 2)).
Proof.
  intros l r.
  assert (H1 : launching (init 0) = false) by reflexivity.
  assert (H2 : Pool.size (vmPool (init 0)) < MAX_BACKUP_VMS default_config) by reflexivity.
  assert (H3 : run_reply l = Some "ins-1") by reflexivity.
  assert (H4 : "ins-1" <> "") by discriminate.
  assert (H5 : (2 < 40)%nat) by lia.
  assert (H6 : poll_finds (poll l 2) = Some "10.0.0.1") by reflexivity.
  assert (H7 : "10.0.0.1" <> "") by discriminate.
  assert (H8 : forall k, (k < 2)%nat -> poll_finds (poll l k) = None).
  { intros [|[|k]] Hk; [reflexivity | reflexivity | lia]. }
  split; [exact H1|]. split; [exact H2|]. split; [exact H3|]. split; [exact H4|].
  split; [exact H5|]. split; [exact H6|]. split; [exact H7|]. split; [exact H8|].
  destruct (launch_succeeds_within_forty_polls default_config l (init 0) "ins-1"
              H1 H2 H3 H4) as (_ & Hfound).
  exact (Hfound 2%nat "10.0.0.1" H5 H6 H7 H8).
Defined.


(** Witness of [allocation_launches_only_when_all_full]: the only VM is
    full. *)
Lemma allocation_launches_only_when_all_full_witness :
  let r := getAvailableVM default_config (rq_probes scale_out) (rq_launch scale_out) one_vm in
  let probed_state := state_of (refreshAll default_config (rq_probes scale_out) one_vm) in
  launches (log_of r) <> 0%nat /\
  launches (log_of r) = 1%nat /\
  (forall entry, In entry (vmPool probed_state) ->
     (inject_Z (FULL_MATCH_LIMIT default_config) <= matchCount (snd entry))%Q) /\
  Pool.size (vmPool probed_state) < MAX_BACKUP_VMS default_config /\
  forall id ip1, result_of r = Some (id, ip1) ->
    run_reply (rq_launch scale_out) = Some id /\
    Pool.get id (vmPool (state_of r)) = Some (fresh_vm ip1 (clock (state_of r))).
Proof.
  intros r probed_state.
  assert (H1 : launches (log_of r) <> 0%nat) by (vm_compute; discriminate).
  split; [exact H1|].
  exact (allocation_launches_only_when_all_full default_config (rq_probes scale_out)
           (rq_launch scale_out) one_vm H1).
Defined.

(** Witness of [full_fleet_at_ceiling_is_refused]: one full VM under a
    ceiling of one. *)
Lemma full_fleet_at_ceiling_is_refused_witness :
  let rq := request "m1" "VersusMen_Online" in
  let r := handleMatchRequest single_vm_ceiling "Public" rq scale_out one_vm in
  valid_request rq <> None /\
  Pool.wf (vmPool one_vm) /\
  (forall id vm, In (id, vm) (vmPool one_vm) ->
     exists data, status (rq_probes scale_out) id = Some data /\
       (inject_Z (FULL_MATCH_LIMIT single_vm_ceiling) <= probe_matchCount data)%Q) /\
  (MAX_BACKUP_VMS single_vm_ceiling <= Pool.size (vmPool one_vm) \/
   launching one_vm = true) /\
  code (result_of r) = 503 /\ log_of r = [] /\
  matches (state_of r) = matches one_vm /\
  Pool.keys (vmPool (state_of r)) = Pool.keys (vmPool one_vm).
Proof.
  intros rq r.
  assert (H1 : valid_request rq <> None) by discriminate.
  assert (H2 : Pool.wf (vmPool one_vm)).
  { repeat constructor; simpl; intuition discriminate. }
  assert (H3 : forall id vm, In (id, vm) (vmPool one_vm) ->
            exists data, status (rq_probes scale_out) id = Some data /\
              (inject_Z (FULL_MATCH_LIMIT single_vm_ceiling) <= probe_matchCount data)%Q).
  { intros id vm _. eexists. split; [reflexivity|]. discriminate. }
  assert (H4 : MAX_BACKUP_VMS single_vm_ceiling <= Pool.size (vmPool one_vm) \/
               launching one_vm = true) by (left; discriminate).
  split; [exact H1|]. split; [exact H2|]. split; [exact H3|]. split; [exact H4|].
  exact (full_fleet_at_ceiling_is_refused single_vm_ceiling "Public" rq scale_out one_vm
           H1 H2 H3 H4).
Defined.

(** Witness of [full_fleet_below_ceiling_launches_one]: the same full VM
    under the default ceiling. *)
Lemma full_fleet_below_ceiling_launches_one_witness :
  let rq := request "m1" "VersusMen_Online" in
  let r := handleMatchRequest default_config "Public" rq scale_out one_vm in
  valid_request rq <> None /\
  Pool.wf (vmPool one_vm) /\
  (forall id vm, In (id, vm) (vmPool one_vm) ->
     exists data, status (rq_probes scale_out) id = Some data /\
       (inject_Z (FULL_MATCH_LIMIT default_config) <= probe_matchCount data)%Q) /\
  Pool.size (vmPool one_vm) < MAX_BACKUP_VMS default_config /\
  launching one_vm = false /\
  code (result_of r) = 200 /\
  launches (log_of r) = 1%nat /\
  exists mid record,
    matchId rq = Some mid /\ matches (state_of r) !! mid = Some record /\
    run_reply (rq_launch scale_out) = Some (vmInstanceId record).
Proof.
  intros rq r.
  assert (H1 : valid_request rq <> None) by discriminate.
  assert (H2 : Pool.wf (vmPool one_vm)).
  { repeat constructor; simpl; intuition discriminate. }
  assert (H3 : forall id vm, In (id, vm) (vmPool one_vm) ->
            exists data, status (rq_probes scale_out) id = Some data /\
              (inject_Z (FULL_MATCH_LIMIT default_config) <= probe_matchCount data)%Q).
  { intros id vm _. eexists. split; [reflexivity|]. discriminate. }
  assert (H4 : Pool.size (vmPool one_vm) < MAX_BACKUP_VMS default_config) by reflexivity.
  assert (H5 : launching one_vm = false) by reflexivity.
  assert (H6 : code (result_of r) = 200) by reflexivity.
  split; [exact H1|]. split; [exact H2|]. split; [exact H3|]. split; [exact H4|].
  split; [exact H5|]. split; [exact H6|].
  destruct (full_fleet_below_ceiling_launches_one default_config "Public" rq scale_out
              one_vm H1 H2 H3 H4 H5) as (Hone & Hrec).
  split; [exact Hone | exact (Hrec H6)].
Defined.

(** Witness of [started_match_is_recorded]: ["m1"] started on ["A"], which
    a tick removes from the registry while the handler waits. *)
Lemma started_match_is_recorded_witness :
  let rq := request "m1" "VersusMen_Online" in
  let e := healthy 0 7001 in
  let r := Interleaved.startOnTarget A_leaves_meanwhile default_config "Public" rq e
             "m1" "VersusMen_Online" ("A", "10.0.0.1") two_vms in
  code (result_of r) = 200 /\
  exists record,
    matches (state_of r) !! "m1" = Some record /\
    body (result_of r) = DescriptorBody (descriptor record) /\
    startedAt record = 2000 /\
    vmInstanceId record = "A" /\
    serverIP (descriptor record) = "10.0.0.1".
Proof.
  intros rq e r.
  assert (H : code (result_of r) = 200) by reflexivity.
  split; [exact H|].
  destruct (started_match_is_recorded default_config A_leaves_meanwhile "Public" rq e
              "m1" "VersusMen_Online" "A" "10.0.0.1" two_vms H)
    as (_ & record & Hrec & Hbody & _ & _ & Hat & Hvm & Hip).
  exists record. splits; assumption.
Defined.

(** Witness of [idle_vm_is_scaled_down]: ["B"], idle and ten minutes old,
    while the protected ["A"] serves a match. *)
Lemma idle_vm_is_scaled_down_witness :
  let r := healthRefresh default_config B_is_idle two_vms in
  Pool.wf (vmPool two_vms) /\
  In ("B", vmB) (vmPool two_vms) /\
  protectedVM two_vms <> Some "B" /\
  MIN_BACKUP_VMS default_config < Pool.size (vmPool two_vms) /\
  Pool.get "B" (vmPool (state_of r)) = None /\
  (exists ev, In ev (log_of r) /\ call ev = TerminateInstances IdlePath "B") /\
  forall id' vm', In (id', vm') (vmPool two_vms) -> id' <> "B" ->
    Pool.get id' (vmPool (state_of r)) <> None.
Proof.
  intros r.
  assert (H1 : Pool.wf (vmPool two_vms)).
  { repeat constructor; simpl; intuition discriminate. }
  assert (H2 : In ("B", vmB) (vmPool two_vms)) by (right; left; reflexivity).
  assert (H3 : status B_is_idle "B"
               = Some (Js.Obj [("activeMatches", Js.Num (Js.Finite 0))])) by reflexivity.
  assert (H4 : (probe_matchCount (Js.Obj [("activeMatches", Js.Num (Js.Finite 0))]) == 0)%Q)
    by reflexivity.
  assert (H5 : (inject_Z (VM_AGE_TERMINATE_MINUTES default_config)
                <= ageMinutes (status_at B_is_idle "B") vmB)%Q) by discriminate.
  assert (H6 : protectedVM two_vms <> Some "B") by discriminate.
  assert (H7 : MIN_BACKUP_VMS default_config < Pool.size (vmPool two_vms)) by reflexivity.
  assert (H8 : forall id' vm', In (id', vm') (vmPool two_vms) -> id' <> "B" ->
            exists data', status B_is_idle id' = Some data' /\
                          ~ (probe_matchCount data' == 0)%Q).
  { intros id' vm' [H|[H|[]]] Hne; inversion H; subst; [|congruence].
    eexists. split; [reflexivity | discriminate]. }
  split; [exact H1|]. split; [exact H2|]. split; [exact H6|]. split; [exact H7|].
  exact (idle_vm_is_scaled_down default_config B_is_idle two_vms "B" vmB _
           H1 H2 H3 H4 H5 H6 H7 H8).
Defined.


(** Witness of [started_match_can_be_read_back]. *)
Lemma started_match_can_be_read_back_witness :
  let rq := request "m1" "VersusMen_Online" in
  let r := handleMatchRequest default_config "Public" rq (healthy 0 7001) one_vm in
  code (result_of r) = 200 /\
  exists mid record,
    matchId rq = Some mid /\
    body (result_of r) = DescriptorBody (descriptor record) /\
    matchDetails mid (state_of r)
      = ({| code := 200; body := RecordBody record |}, state_of r, []).
Proof.
  intros rq r.
  assert (H1 : code (result_of r) = 200) by reflexivity.
  split; [exact H1|].
  exact (started_match_can_be_read_back default_config "Public" rq (healthy 0 7001)
           one_vm H1).
Defined.

(** Witness of [match_records_are_never_removed]: ["m1"] across a tick, a
    look-up and a request. *)
Lemma match_records_are_never_removed_witness :
  matches serving_m1 !! "m1" <> None /\
  matches (state_of (run default_config busy_day serving_m1)) !! "m1" <> None.
Proof.
  assert (H1 : matches serving_m1 !! "m1" <> None) by discriminate.
  split; [exact H1|].
  exact (match_records_are_never_removed default_config busy_day serving_m1 "m1" H1).
Defined.

(** Witness of [picked_port_is_in_range_and_free]: the default range and
    draws of 0.563, whose product by 1000 is less than 563 and rounds to
    563; the port 7563 is found free at the third attempt. *)
Lemma picked_port_is_in_range_and_free_witness :
  (forall i, (0 <= random free_at_third_try i)%Q /\
             (random free_at_third_try i <= 1 - pow2 (-53))%Q) /\
  (0 <= 7000 /\ 7000 <= 7999 /\ 7999 <= 2 ^ 52) /\
  (round64 (563 # 1000) * 1000 < 563)%Q /\
  draw_port (round64 (563 # 1000)) 7000 7999 = 7563 /\
  getRandomAvailablePort free_at_third_try 7000 7999 = Some 7563 /\
  7000 <= 7563 <= 7999.
Proof.
  assert (H1 : forall i, (0 <= random free_at_third_try i)%Q /\
                         (random free_at_third_try i <= 1 - pow2 (-53))%Q)
    by (intros i; split; vm_compute; discriminate).
  assert (H2 : 0 <= 7000) by lia.
  assert (H3 : 7000 <= 7999) by lia.
  assert (H4 : 7999 <= 2 ^ 52) by (vm_compute; discriminate).
  assert (H5 : getRandomAvailablePort free_at_third_try 7000 7999 = Some 7563)
    by (vm_compute; reflexivity).
  split; [exact H1|]. split; [split; [exact H2|split; [exact H3|exact H4]]|].
  split; [vm_compute; reflexivity|].
  split; [vm_compute; reflexivity|]. split; [exact H5|].
  assert (H6 : draw_port (random free_at_third_try 2) 7000 7999 = 7563)
    by (vm_compute; reflexivity).
  pose proof (proj2 (picked_port_is_in_range_and_free free_at_third_try 7000 7999
                       H1 H2 H3 H4)) as H.
  rewrite H6 in H. exact (proj1 H).
Defined.

(** Witness of [reconciler_terminations_have_a_cause]: the tick that loses
    ["B"], whose worker was silent for the second time. *)
Lemma reconciler_terminations_have_a_cause_witness :
  Pool.wf (vmPool two_vms) /\
  In B_terminated (log_of (updateVMs default_config B_lost_tick two_vms)) /\
  call B_terminated = TerminateInstances UnreachablePath "B" /\
  status (tk_probes B_lost_tick) "B" = None /\
  exists vm, Pool.get "B" (vmPool (at_state B_terminated)) = Some vm /\
             VM_UNREACHABLE_TERMINATE_THRESHOLD default_config <= unreachableCount vm.
Proof.
  assert (Hwf : Pool.wf (vmPool two_vms)).
  { repeat constructor; simpl; intuition discriminate. }
  assert (Hin : In B_terminated (log_of (updateVMs default_config B_lost_tick two_vms))).
  { vm_compute. left; reflexivity. }
  assert (Hcall : call B_terminated = TerminateInstances UnreachablePath "B")
    by reflexivity.
  split; [exact Hwf|]. split; [exact Hin|]. split; [exact Hcall|].
  exact (proj1 (reconciler_terminations_have_a_cause default_config B_lost_tick two_vms
                  B_terminated "B" Hwf Hin) Hcall).
Defined.
